(** * SnowDoge contract analyzer: the batch loop of [src/analyzer.ts]

    A shallow embedding of [ContractAnalyzer]: the value filter, the two
    retrying network calls, the append-only result log with the set of
    processed identifiers rebuilt from it, and the orchestrating loop; and of
    the script of [src/index.ts] that starts it.

    The methods are functions in a state and exception monad over a [World]:
    the output file, [processedIds], and a trace of what the process did.
    What the analyzer does not own is an [Env]: the outcome of each [fetch],
    of each call of the classifier and of each [appendFile], and the JSON
    codec.  The records of a page, the results in an array of a reply and
    the lines of the log have the types [src/types.ts] declares for them,
    with two exceptions the loop can tell apart: a record whose
    [contract_value] is not a string, and a reply whose [contracts] is not an
    array.  The counters of [analyze] are JavaScript numbers.
    [while (true)] runs for a bounded number of turns. *)

From Stdlib Require Import ZArith Ascii String Lia DecimalString.
From stdpp Require Import base strings list gmap.

#[local] Set Warnings "-clear-no-such-hyp".
Local Open Scope Z_scope.

(** ** JavaScript numbers, as far as the analyzer computes with them *)

Module Number.

(** A binary64 value: not-a-number, an infinity, or the finite value
    [m * 2^e]. *)
Inductive number : Type :=
| NaN
| Infinity (negative : bool)
| Finite (m e : Z).

(** An integer, as a number.  It is a double when it has at most 53
    significant bits, as every integer below [2^53] has. *)
Definition of_Z (z : Z) : number := Finite z 0.
Coercion of_Z : Z >-> number.

(** [m * 2^e] for both operands brought to the smaller exponent. *)
Definition scaled (m e low : Z) : Z := m * 2 ^ (e - low).

(** The JavaScript [a >= b]: false as soon as one side is NaN. *)
Definition ge (a b : number) : bool :=
  match a, b with
  | NaN, _ | _, NaN => false
  | Infinity false, _ => true
  | Infinity true, Infinity true => true
  | Infinity true, _ => false
  | Finite _ _, Infinity true => true
  | Finite _ _, Infinity false => false
  | Finite m1 e1, Finite m2 e2 =>
      let low := Z.min e1 e2 in
      scaled m2 e2 low <=? scaled m1 e1 low
  end.

(** Numerator and denominator of [(n / d) / 2^e]. *)
Definition num_at (n e : Z) : Z := n * 2 ^ Z.max 0 (- e).
Definition den_at (d e : Z) : Z := d * 2 ^ Z.max 0 e.

(** The double nearest to [n / d] (ties to even), for [0 <= n] and
    [0 < d], with the sign given apart: 53 bits of precision, gradual
    underflow below [2^-1022], overflow to infinity from [2^1024].  This is
    the value the engines give to a decimal literal (the language lets them
    approximate a literal of more than 20 significant digits). *)
Definition binary64 (negative : bool) (n d : Z) : number :=
  if n =? 0 then Finite 0 0
  else
    let e0 := Z.log2 n - Z.log2 d in
    let e := if num_at n e0 <? den_at d e0 then e0 - 1 else e0 in
    let qe := Z.max e (-1022) - 52 in
    let q := num_at n qe / den_at d qe in
    let r := num_at n qe mod den_at d qe in
    let m :=
      if 2 * r <? den_at d qe then q
      else if den_at d qe <? 2 * r then q + 1
      else if Z.even q then q else q + 1 in
    if (m =? 0) then Finite 0 0
    else if 1024 <=? Z.log2 m + qe then Infinity negative
    else Finite (if negative then - m else m) qe.

(** The JavaScript [a > b] and [a === b]. *)
Definition gt (a b : number) : bool := ge a b && negb (ge b a).
Definition same (a b : number) : bool := ge a b && ge b a.

(** [m * 2^e] is a double as it stands: [m] has at most 53 bits, the value
    is a multiple of the least subnormal and is below [2^1024]. *)
Definition fits (m e : Z) : bool :=
  (Z.abs m <? 2 ^ 53) && (-1074 <=? e) && (Z.log2 (Z.abs m) + e <? 1024).

(** The JavaScript [a + b]: the double nearest to the sum, which is the sum
    itself when the sum is a double. *)
Definition plus (a b : number) : number :=
  match a, b with
  | NaN, _ | _, NaN => NaN
  | Infinity s, Infinity s' => if Bool.eqb s s' then Infinity s else NaN
  | Infinity s, Finite _ _ | Finite _ _, Infinity s => Infinity s
  | Finite m1 e1, Finite m2 e2 =>
      let low := Z.min e1 e2 in
      let sum := scaled m1 e1 low + scaled m2 e2 low in
      if fits sum low then Finite sum low
      else if 0 <=? low then binary64 (sum <? 0) (Z.abs sum * 2 ^ low) 1
      else binary64 (sum <? 0) (Z.abs sum) (2 ^ (- low))
  end.

End Number.

Import Number.

(** ** Strings, as far as the analyzer touches them *)

Module Text.

Definition is_digit (a : ascii) : bool :=
  let n := N_of_ascii a in ((48 <=? n) && (n <=? 57))%N.

Definition digit_value (a : ascii) : Z := Z.of_N (N_of_ascii a) - 48.

(** The characters kept by [replace(/[^0-9.-]+/g, "")]. *)
Definition is_numeric_char (a : ascii) : bool :=
  is_digit a || Ascii.eqb a "." || Ascii.eqb a "-".

Fixpoint keep (p : ascii -> bool) (s : string) : string :=
  match s with
  | EmptyString => EmptyString
  | String a s' => if p a then String a (keep p s') else keep p s'
  end.

(** The longest prefix of decimal digits, read as a number, with the
    count of digits read and the rest of the string. *)
Fixpoint digits (acc : Z) (count : nat) (s : string) : Z * nat * string :=
  match s with
  | String a s' =>
      if is_digit a then digits (10 * acc + digit_value a) (S count) s'
      else (acc, count, s)
  | EmptyString => (acc, count, s)
  end.

(** [parseFloat] on a string made of digits, [.] and [-], the only
    characters [parseContractValue] leaves in its argument: the longest
    prefix [-? digits (. digits?)?] or [-? . digits] is read and the rest
    ignored; without such a prefix the result is NaN.  The mantissa
    [whole ++ frac] over [10 ^ |frac|] is rounded to the nearest
    double. *)
Definition parseFloat (s : string) : number :=
  let '(negative, body) :=
    match s with
    | String "-" s' => (true, s')
    | _ => (false, s)
    end in
  let '(whole, nwhole, rest) := digits 0 0 body in
  let '(mant, nfrac) :=
    match rest with
    | String "." rest' =>
        let '(m, n, _) := digits whole 0 rest' in (m, n)
    | _ => (whole, 0%nat)
    end in
  match nwhole, nfrac with
  | O, O => NaN
  | _, _ => binary64 negative mant (10 ^ Z.of_nat nfrac)
  end.

End Text.

Import Text.

(** ** The data model of [src/types.ts] *)

Module Contract.
Record t : Type := {
  _id : Z;
  reference_number : string;
  procurement_id : string;
  vendor_name : string;
  vendor_postal_code : option string;
  buyer_name : option string;
  contract_date : string;
  economic_object_code : string;
  description_en : string;
  description_fr : string;
  contract_period_start : string;
  delivery_date : string;
  contract_value : string;
  original_value : string;
  amendment_value : string;
  comments_en : option string;
  commodity_type : string;
  commodity_code : string;
  country_of_vendor : string;
  solicitation_procedure : string;
  limited_tendering_reason : string;
  trade_agreement_exceptions : string;
  indigenous_business : option string;
  former_public_servant : string;
  number_of_bids : option string;
  article_6_exceptions : option string;
  standing_offer_number : option string;
  instrument_type : string;
  ministers_office : string
}.
End Contract.

(** A page as [response.json()] gives it.  An element of [records] that
    [filterHighValueContracts] cannot read, because it is not an object or
    its [contract_value] is not a string ([null], a number, absent), is
    [None]. *)
Module ApiResponse.
Record links : Type := { next : option string }.
Record result_t : Type := {
  records : list (option Contract.t);
  total : Z;
  _links : links
}.
Record t : Type := { success : bool; result : result_t }.
End ApiResponse.

Module FlaggedContract.
Inductive risk_level_t : Type := high | medium | low.
Record risk_factors_t : Type := {
  procurement_issues : option (list string);
  financial_issues : option (list string);
  conflict_of_interest : option (list string);
  timeline_issues : option (list string);
  public_interest_factors : option (list string)
}.
Record t : Type := {
  contract_id : string;
  vendor_name : string;
  value : string;
  description : string;
  original_value : string;
  amendment_value : string;
  start_date : string;
  end_date : string;
  number_of_bids : option string;
  procurement_type : string;
  reason_for_flag : string;
  risk_level : risk_level_t;
  risk_factors : risk_factors_t
}.
End FlaggedContract.

(** ** Exceptions, promises and the platform *)

Inductive Error : Type :=
| Rejected (reason : string)  (* a promise of the platform that rejects *)
| HttpError (status : Z)      (* new Error(`HTTP error! status: ...`) *)
| SyntaxError                 (* JSON.parse on text it cannot read *)
| TypeError.                  (* a member of null or undefined is read, or
                                 what is called is not a function *)

(** How a statement or an awaited promise ends. *)
Inductive Result (A : Type) : Type :=
| Ok (a : A)
| Threw (e : Error).
Arguments Ok {A} a.
Arguments Threw {A} e.

(** The [Response] of [fetch], as far as the analyzer reads it. *)
Record Response : Type := {
  ok : bool;
  status : Z;
  json : Result ApiResponse.t      (* the promise returned by [response.json()] *)
}.

(** What [flagged.length] may be when [flagged] is any value of a parsed
    reply, as far as [>] and [+=] tell the values apart. *)
Module Length.
Inductive t : Type :=
| undefined                   (* no member of that name *)
| null
| boolean (b : bool)
| num (x : number)
| text (positive : bool).     (* a string, an array or an object; [positive]
                                 tells whether the number it converts to
                                 exceeds 0 *)
(** [length > 0] *)
Definition positive (length : t) : bool :=
  match length with
  | undefined | null => false
  | boolean b => b
  | num x => Number.gt x 0
  | text p => p
  end.
End Length.
Coercion Length.num : number >-> Length.t.

(** The value of [totalFlagged]: a number, or a string once a string was
    added to it (its characters are not kept). *)
Module Total.
Inductive t : Type :=
| sum (x : number)
| joined.
(** [total += length] *)
Definition add (total : t) (length : Length.t) : t :=
  match total, length with
  | joined, _ => joined
  | sum x, Length.undefined => sum (plus x NaN)
  | sum x, Length.null => sum (plus x 0)
  | sum x, Length.boolean b => sum (plus x (if b then 1 else 0))
  | sum x, Length.num y => sum (plus x y)
  | sum _, Length.text _ => joined
  end.
End Total.
Coercion Total.sum : number >-> Total.t.

(** What [analyzeContractsWithGPT] returns: [parsed.contracts] as
    [JSON.parse] gave it.  Declared [FlaggedContract[]], it is an array of
    results or any other value that is not falsy: a string that is not
    empty, a number other than 0, [true] or an object, of which the loop
    reads [length] and no more. *)
Module Flagged.
Inductive t : Type :=
| Array (results : list FlaggedContract.t)
| NotArray (length : Length.t).
(** [flagged.length] *)
Definition length (flagged : t) : Length.t :=
  match flagged with
  | Array results => Length.num (Z.of_nat (List.length results))
  | NotArray length => length
  end.
End Flagged.

(** The classifier's reply once parsed: [null], or a value whose member
    [contracts] is absent or falsy ([None]) or holds a value. *)
Module Reply.
Inductive t : Type :=
| null
| value (contracts : option Flagged.t).
End Reply.

(** What the analyzer does not own: the JSON codec of the runtime, at the
    types the analyzer uses it, and the outcome of every call that leaves the
    process, given the number of calls of that kind made before it. *)
Record Env : Type := {
  JSON_stringify : FlaggedContract.t -> string;
  JSON_parse : string -> option FlaggedContract.t;    (* a line of the log *)
  JSON_parse_reply : string -> option Reply.t;          (* the classifier's answer *)
  fetch : nat -> number -> Result Response;           (* GET ...&offset=o *)
  create : nat -> list Contract.t -> Result (option string);
      (* openai.chat.completions.create, then choices[0]?.message?.content *)
  appendFile : nat -> Result unit
}.

(** Console output, one constructor per message (the two blocks of batch and
    final figures are one message each). *)
Inductive Message : Type :=
| LoadedProcessed (size : nat)
| StartingFresh
| RetryFetch (attempt : nat) (error : Error)
| Analyzing (count : nat) (firstId : string)
| RetryOpenAI (attempt : nat) (error : Error)
| ErrorAnalyzing (error : Error)
| StartingAnalysis (startOffset : number)
| MinimumContractValue
| ProcessingBatch (batchNumber offset : number)
| NoMoreContracts
| BatchResults (batchNumber : number) (inBatch highValue : nat)
    (flagged : Length.t)
| RunningTotals (totalContracts totalHighValue : number)
    (totalFlagged : Total.t)
| NoNewHighValue (batchNumber : number)
| ErrorProcessingBatch (batchNumber : number) (error : Error)
| LastSuccessfulOffset (offset : number)
| UseThisOffset
| AnalysisComplete (totalContracts totalHighValue : number)
    (totalFlagged : Total.t).

(** What the process does to the outside, in order. *)
Inductive Event : Type :=
| Console (m : Message)
| Fetch (offset : number)         (* fetch(url) is called *)
| Sleep (ms : Z)                  (* a setTimeout promise is awaited *)
| Create (candidates : nat)       (* the classifier is called *)
| AppendFile (text : string).     (* appendFile is called *)

(** The output file, the analyzer's [processedIds], the calls made so far and
    the events so far (oldest first). *)
Record World : Type := {
  file : option string;           (* None: flagged_contracts.ndjson is absent *)
  processedIds : gset string;
  fetches : nat;
  creates : nat;
  appends : nat;
  trace : list Event
}.

Definition emit (ev : Event) (w : World) : World :=
  {| file := file w; processedIds := processedIds w; fetches := fetches w;
     creates := creates w; appends := appends w; trace := trace w ++ [ev] |}.

(** The world once [fetch], [create] or [appendFile] has been called, and
    once the file has grown or an identifier has been added. *)
Definition fetching (offset : number) (w : World) : World :=
  {| file := file w; processedIds := processedIds w; fetches := S (fetches w);
     creates := creates w; appends := appends w;
     trace := trace w ++ [Fetch offset] |}.
Definition creating (candidates : nat) (w : World) : World :=
  {| file := file w; processedIds := processedIds w; fetches := fetches w;
     creates := S (creates w); appends := appends w;
     trace := trace w ++ [Create candidates] |}.
Definition appending (text : string) (w : World) : World :=
  {| file := file w; processedIds := processedIds w; fetches := fetches w;
     creates := creates w; appends := S (appends w);
     trace := trace w ++ [AppendFile text] |}.
Definition written (text : string) (w : World) : World :=
  {| file := Some (default EmptyString (file w) +:+ text);
     processedIds := processedIds w; fetches := fetches w;
     creates := creates w; appends := appends w; trace := trace w |}.
Definition added (id : string) (w : World) : World :=
  {| file := file w; processedIds := {[ id ]} ∪ processedIds w;
     fetches := fetches w; creates := creates w; appends := appends w;
     trace := trace w |}.

(** ** A state and exception monad for the analyzer's methods *)

Definition M (A : Type) : Type := World -> Result A * World.

Definition ret {A} (a : A) : M A := fun w => (Ok a, w).
Definition throw {A} (e : Error) : M A := fun w => (Threw e, w).
Definition bind {A B} (m : M A) (k : A -> M B) : M B :=
  fun w => match m w with
           | (Ok a, w') => k a w'
           | (Threw e, w') => (Threw e, w')
           end.
(** [try { body } catch (error) { handler }]: what [body] did to the world
    before it threw stays done. *)
Definition try_catch {A} (body : M A) (handler : Error -> M A) : M A :=
  fun w => match body w with
           | (Ok a, w') => (Ok a, w')
           | (Threw e, w') => handler e w'
           end.
(** [await p] for a promise whose outcome is already known. *)
Definition await {A} (p : Result A) : M A := fun w => (p, w).
(** The promise of a call that is returned without being awaited. *)
Definition promise {A} (m : M A) : M (Result A) :=
  fun w => let '(r, w') := m w in (Ok r, w').

Declare Scope analyzer_scope.
Delimit Scope analyzer_scope with analyzer.
Notation "x <- c1 ;; c2" := (bind c1 (fun x => c2))
  (at level 100, c1 at next level, right associativity) : analyzer_scope.
Notation "c1 ;; c2" := (bind c1 (fun _ => c2))
  (at level 100, right associativity) : analyzer_scope.
Local Open Scope analyzer_scope.

Fixpoint forEach {A} (l : list A) (f : A -> M unit) : M unit :=
  match l with
  | [] => ret tt
  | x :: l' => f x ;; forEach l' f
  end.

Definition log (m : Message) : M unit := fun w => (Ok tt, emit (Console m) w).
Definition sleep (ms : Z) : M unit := fun w => (Ok tt, emit (Sleep ms) w).

(** ** White space and lines *)

Module Lines.

(** The byte sequences [String.prototype.trim] removes from both ends, in the
    UTF-8 encoding the file is read in: tab, line feed, vertical tab, form
    feed, carriage return, space, U+00A0, U+1680, U+2000 to U+200A, U+2028,
    U+2029, U+202F, U+205F, U+3000 and U+FEFF. *)
Definition white_space : list (list N) :=
  [ [9]; [10]; [11]; [12]; [13]; [32];
    [194; 160]; [225; 154; 128];
    [226; 128; 128]; [226; 128; 129]; [226; 128; 130]; [226; 128; 131];
    [226; 128; 132]; [226; 128; 133]; [226; 128; 134]; [226; 128; 135];
    [226; 128; 136]; [226; 128; 137]; [226; 128; 138];
    [226; 128; 168]; [226; 128; 169]; [226; 128; 175];
    [226; 129; 159]; [227; 128; 128]; [239; 187; 191] ]%N.

(** [s] without the prefix [p], when it starts with it. *)
Fixpoint strip (p : list N) (s : list ascii) : option (list ascii) :=
  match p, s with
  | [], _ => Some s
  | n :: p', a :: s' => if (N_of_ascii a =? n)%N then strip p' s' else None
  | _ :: _, [] => None
  end.

(** [s] without the first of [patterns] it starts with. *)
Fixpoint strip_any (patterns : list (list N)) (s : list ascii)
  : option (list ascii) :=
  match patterns with
  | [] => None
  | p :: rest =>
      match strip p s with
      | Some s' => Some s'
      | None => strip_any rest s
      end
  end.

(** Drops leading white space; [fuel] bounds the number of characters
    dropped and [length s] is always enough. *)
Fixpoint drop_space (patterns : list (list N)) (fuel : nat) (s : list ascii)
  : list ascii :=
  match fuel with
  | O => s
  | S fuel' =>
      match strip_any patterns s with
      | Some s' => drop_space patterns fuel' s'
      | None => s
      end
  end.

Definition trimStart (s : list ascii) : list ascii :=
  drop_space white_space (length s) s.

Definition trimEnd (s : list ascii) : list ascii :=
  reverse (drop_space (reverse <$> white_space) (length s) (reverse s)).

(** [s.trim()] *)
Definition trim (s : string) : string :=
  string_of_list_ascii (trimEnd (trimStart (list_ascii_of_string s))).

(** [s.split(sep)] for a one-character separator: never an empty list. *)
Fixpoint split (sep : ascii) (s : string) : list string :=
  match s with
  | EmptyString => [EmptyString]
  | String a s' =>
      if Ascii.eqb a sep then EmptyString :: split sep s'
      else match split sep s' with
           | line :: rest => String a line :: rest
           | [] => [String a EmptyString]
           end
  end.

(** [l.join(sep)] *)
Fixpoint join (sep : string) (l : list string) : string :=
  match l with
  | [] => EmptyString
  | [x] => x
  | x :: l' => x +:+ sep +:+ join sep l'
  end.

Definition newline : ascii := "010"%char.
Definition nl : string := String newline EmptyString.

End Lines.

Import Lines.

(** ** The analyzer *)

Definition BATCH_SIZE : Z := 100.
Definition MIN_CONTRACT_VALUE : number := of_Z 50000.
Definition MAX_RETRIES : nat := 3.
Definition RATE_LIMIT_DELAY : Z := 1000.

(** [parseFloat(value.replace(/[^0-9.-]+/g, ""))] *)
Definition parseContractValue (value : string) : number :=
  parseFloat (keep is_numeric_char value).

(** The local variables of [analyze]. *)
Record RunState : Type := {
  offset : number;
  totalContracts : number;
  totalHighValue : number;
  totalFlagged : Total.t;
  batchNumber : number
}.

(** The variables of [analyze] when the loop is entered. *)
Definition start (startOffset : number) : RunState :=
  {| offset := startOffset; totalContracts := 0; totalHighValue := 0;
     totalFlagged := 0; batchNumber := 1 |}.

(** How one turn of [while (true)] ends when it does not throw. *)
Inductive Turn : Type :=
| Continue (st : RunState)
| Break (st : RunState).

(** How far [analyze] got within a bounded number of turns. *)
Inductive Run (A : Type) : Type :=
| Finished (r : Result A)
| Looping (st : RunState).
Arguments Finished {A} r.
Arguments Looping {A} st.

Section Analyzer.

Variable E : Env.

(** *** Calls that leave the process *)

Definition readFile : M string :=
  fun w => match file w with
           | Some content => (Ok content, w)
           | None => (Threw (Rejected "ENOENT"), w)
           end.

(** [await appendFile(OUTPUT_FILE, text)]: creates the file when absent; a
    call that fails leaves the file as it was. *)
Definition appendFile_ (text : string) : M unit :=
  fun w =>
    match appendFile E (appends w) with
    | Ok _ => (Ok tt, written text (appending text w))
    | Threw e => (Threw e, appending text w)
    end.

(** [await fetch(url)] *)
Definition fetch_ (offset : number) : M Response :=
  fun w => (fetch E (fetches w) offset, fetching offset w).

(** [await this.openai.chat.completions.create(...)], then
    [response.choices[0]?.message?.content]. *)
Definition create_ (contracts : list Contract.t) : M (option string) :=
  fun w => (create E (creates w) contracts, creating (length contracts) w).

(** [this.processedIds.add(id)] *)
Definition processedIds_add (id : string) : M unit :=
  fun w => (Ok tt, added id w).

Definition parse_line (line : string) : M FlaggedContract.t :=
  match JSON_parse E line with
  | Some contract => ret contract
  | None => throw SyntaxError
  end.

Definition parse_reply (content : string) : M Reply.t :=
  match JSON_parse_reply E content with
  | Some parsed => ret parsed
  | None => throw SyntaxError
  end.

(** *** The methods of [ContractAnalyzer] *)

Definition loadProcessedIds : M unit :=
  try_catch
    (content <- readFile ;;
     let lines := split newline (trim content) in
     forEach lines (fun line =>
       contract <- parse_line line ;;
       processedIds_add (FlaggedContract.contract_id contract)) ;;
     fun w => log (LoadedProcessed (size (processedIds w))) w)
    (fun _ => log StartingFresh).

Definition isHighValue (contract : Contract.t) : bool :=
  Number.ge (parseContractValue (Contract.contract_value contract))
    MIN_CONTRACT_VALUE.

Definition isNew (ids : gset string) (contract : Contract.t) : bool :=
  negb (bool_decide (Contract.procurement_id contract ∈ ids)).

Definition filterHighValueContracts (ids : gset string)
    (contracts : list Contract.t) : list Contract.t :=
  List.filter (fun contract => isHighValue contract && isNew ids contract)
    contracts.

(** The records as [types.ts] declares them, when each of them can be
    read. *)
Fixpoint readable (records : list (option Contract.t))
  : option (list Contract.t) :=
  match records with
  | [] => Some []
  | Some contract :: rest =>
      match readable rest with
      | Some contracts => Some (contract :: contracts)
      | None => None
      end
  | None :: _ => None
  end.

(** [this.filterHighValueContracts(allContracts)] on the array as it was
    received.  The callback begins with
    [contract.contract_value.replace(...)], which throws on an element it
    cannot read; the callback changes nothing, so the call either throws or
    filters records that are all as declared. *)
Definition filterRecords (records : list (option Contract.t))
  : M (list Contract.t) :=
  fun w =>
    match readable records with
    | Some contracts =>
        (Ok (filterHighValueContracts (processedIds w) contracts), w)
    | None => (Threw TypeError, w)
    end.

(** The [try] block of [getContractsWithRetry]: its value is the promise of
    [response.json()], returned without [await], so that a rejection of that
    promise is not caught by the [catch] around it. *)
Definition request (offset : number) : M (Result ApiResponse.t) :=
  response <- fetch_ offset ;;
  if negb (ok response) then throw (HttpError (status response))
  else ret (json response).

(** The exception [request] ends with, if any, given how [fetch] ended. *)
Definition failure (r : Result Response) : option Error :=
  match r with
  | Threw e => Some e
  | Ok response =>
      if ok response then None else Some (HttpError (status response))
  end.

(** [getContractsWithRetry(offset, retries)], by recursion on the retries
    that remain; [getContractsWithRetry_eq] below is the source's
    equation. *)
Fixpoint getContractsWithRetry_from (remaining : nat) (offset : number)
    (retries : nat) : M ApiResponse.t :=
  p <- try_catch (request offset)
         (fun error =>
            if (retries <? MAX_RETRIES)%nat then
              match remaining with
              | S remaining' =>
                  log (RetryFetch (retries + 1) error) ;;
                  sleep (RATE_LIMIT_DELAY * (Z.of_nat retries + 1)) ;;
                  promise (getContractsWithRetry_from remaining' offset
                             (retries + 1))
              | O => throw error
              end
            else throw error) ;;
  await p.

Definition getContractsWithRetry (offset : number) (retries : nat)
  : M ApiResponse.t :=
  getContractsWithRetry_from (MAX_RETRIES - retries) offset retries.

Definition appendFlaggedContracts (contracts : list FlaggedContract.t)
  : M unit :=
  let ndjsonLines := join nl (JSON_stringify E <$> contracts) in
  if negb (String.eqb ndjsonLines EmptyString) then
    appendFile_ (ndjsonLines +:+ nl) ;;
    forEach contracts (fun contract =>
      processedIds_add (FlaggedContract.contract_id contract))
  else ret tt.

(** [this.appendFlaggedContracts(flagged)] on the value as
    [analyzeContractsWithGPT] returned it: what is not an array has no
    [map], and the first statement throws. *)
Definition appendFlagged (flagged : Flagged.t) : M unit :=
  match flagged with
  | Flagged.Array contracts => appendFlaggedContracts contracts
  | Flagged.NotArray _ => throw TypeError
  end.

(** [contracts[0]?.procurement_id ?? 'unknown'] *)
Definition firstId (contracts : list Contract.t) : string :=
  match contracts with
  | c :: _ => Contract.procurement_id c
  | [] => "unknown"
  end.

(** The [try] block of [analyzeContractsWithGPT]: [parsed.contracts]
    throws when [parsed] is [null], and [|| []] replaces what is absent or
    falsy, and nothing else. *)
Definition classify (contracts : list Contract.t) : M Flagged.t :=
  log (Analyzing (length contracts) (firstId contracts)) ;;
  content <- create_ contracts ;;
  match content with
  | None | Some EmptyString => ret (Flagged.Array [])
  | Some content =>
      parsed <- parse_reply content ;;
      match parsed with
      | Reply.null => throw TypeError
      | Reply.value contracts => ret (default (Flagged.Array []) contracts)
      end
  end.

Fixpoint analyzeContractsWithGPT_from (remaining : nat)
    (contracts : list Contract.t) (retries : nat) : M Flagged.t :=
  try_catch (classify contracts)
    (fun error =>
       if (retries <? MAX_RETRIES)%nat then
         match remaining with
         | S remaining' =>
             log (RetryOpenAI (retries + 1) error) ;;
             sleep (RATE_LIMIT_DELAY * (Z.of_nat retries + 1)) ;;
             analyzeContractsWithGPT_from remaining' contracts (retries + 1)
         | O => log (ErrorAnalyzing error) ;; ret (Flagged.Array [])
         end
       else (log (ErrorAnalyzing error) ;; ret (Flagged.Array []))).

Definition analyzeContractsWithGPT (contracts : list Contract.t)
    (retries : nat) : M Flagged.t :=
  analyzeContractsWithGPT_from (MAX_RETRIES - retries) contracts retries.

Definition count {A} (l : list A) : Z := Z.of_nat (length l).

(** One turn of the loop of [analyze], the [try] and its [catch].  The
    handler reads [offset] and [batchNumber] as they were when the turn
    began: both are assigned after the last statement that can throw.  The
    five variables are numbers and [+=] and [++] add as numbers do;
    [totalFlagged] takes whatever [flagged.length] is. *)
Definition turn (st : RunState) : M Turn :=
  try_catch
    (log (ProcessingBatch (batchNumber st) (offset st)) ;;
     data <- getContractsWithRetry (offset st) 0 ;;
     if negb (ApiResponse.success data)
        || (length (ApiResponse.records (ApiResponse.result data)) =? 0)%nat
     then log NoMoreContracts ;; ret (Break st)
     else
       let allContracts := ApiResponse.records (ApiResponse.result data) in
       highValueContracts <- filterRecords allContracts ;;
       totals <-
         (if (0 <? length highValueContracts)%nat then
            flagged <- analyzeContractsWithGPT highValueContracts 0 ;;
            (if Length.positive (Flagged.length flagged)
             then appendFlagged flagged
             else ret tt) ;;
            let totalContracts' :=
              plus (totalContracts st) (count allContracts) in
            let totalHighValue' :=
              plus (totalHighValue st) (count highValueContracts) in
            let totalFlagged' :=
              Total.add (totalFlagged st) (Flagged.length flagged) in
            log (BatchResults (batchNumber st) (length allContracts)
                   (length highValueContracts) (Flagged.length flagged)) ;;
            log (RunningTotals totalContracts' totalHighValue' totalFlagged') ;;
            ret (totalContracts', totalHighValue', totalFlagged')
          else
            log (NoNewHighValue (batchNumber st)) ;;
            ret (totalContracts st, totalHighValue st, totalFlagged st)) ;;
       let '(totalContracts', totalHighValue', totalFlagged') := totals in
       sleep RATE_LIMIT_DELAY ;;
       ret (Continue
              {| offset := plus (offset st) BATCH_SIZE;
                 totalContracts := totalContracts';
                 totalHighValue := totalHighValue';
                 totalFlagged := totalFlagged';
                 batchNumber := plus (batchNumber st) 1 |}))
    (fun error =>
       log (ErrorProcessingBatch (batchNumber st) error) ;;
       log (LastSuccessfulOffset (offset st)) ;;
       log UseThisOffset ;;
       throw error).

(** [while (true) { ... }], for at most [fuel] turns: the variables as
    [break] leaves them, the exception that ends the loop, or the variables
    after [fuel] turns. *)
Fixpoint loop (fuel : nat) (st : RunState) (w : World)
  : Run RunState * World :=
  match fuel with
  | O => (Looping st, w)
  | S fuel' =>
      match turn st w with
      | (Ok (Continue st'), w') => loop fuel' st' w'
      | (Ok (Break st'), w') => (Finished (Ok st'), w')
      | (Threw e, w') => (Finished (Threw e), w')
      end
  end.

(** [analyze(startOffset)], its loop cut after [fuel] turns. *)
Definition analyze (fuel : nat) (startOffset : number) (w : World)
  : Run unit * World :=
  match (loadProcessedIds ;;
         log (StartingAnalysis startOffset) ;;
         log MinimumContractValue) w with
  | (Threw e, w1) => (Finished (Threw e), w1)
  | (Ok _, w1) =>
      match loop fuel (start startOffset) w1 with
      | (Finished (Ok st'), w2) =>
          (Finished (Ok tt),
           emit (Console (AnalysisComplete (totalContracts st')
                            (totalHighValue st') (totalFlagged st'))) w2)
      | (Finished (Threw e), w2) => (Finished (Threw e), w2)
      | (Looping st', w2) => (Looping st', w2)
      end
  end.

End Analyzer.

(** ** A codec and records to run the analyzer on

    What the development assumes of [JSON.stringify] and [JSON.parse] it
    states as hypotheses.  [Demo] is a small codec that meets them: a result
    is written as the JSON object of its [contract_id] alone, and a line is
    read back when it is such an object. *)

Module Demo.

Definition quote : ascii := "034"%char.
Definition backslash : ascii := "092"%char.
Definition quoted (s : string) : string :=
  String quote (s +:+ String quote EmptyString).

Fixpoint escape (s : string) : string :=
  match s with
  | EmptyString => EmptyString
  | String a s' =>
      if Ascii.eqb a quote then String backslash (String quote (escape s'))
      else if Ascii.eqb a backslash then
        String backslash (String backslash (escape s'))
      else if Ascii.eqb a newline then String backslash (String "n" (escape s'))
      else String a (escape s')
  end.

(** Reads an escaped string up to its closing quote; gives the string and
    what follows the quote. *)
Fixpoint unescape (s : string) : option (string * string) :=
  match s with
  | EmptyString => None
  | String a s' =>
      if Ascii.eqb a quote then Some (EmptyString, s')
      else if Ascii.eqb a newline then None
      else if Ascii.eqb a backslash then
        match s' with
        | String b s'' =>
            if Ascii.eqb b quote || Ascii.eqb b backslash || Ascii.eqb b "n" then
              match unescape s'' with
              | Some (r, rest) =>
                  Some (String (if Ascii.eqb b "n" then newline else b) r, rest)
              | None => None
              end
            else None
        | EmptyString => None
        end
      else
        match unescape s' with
        | Some (r, rest) => Some (String a r, rest)
        | None => None
        end
  end.

(** [s] without the prefix [p], when it starts with it. *)
Fixpoint after (p s : string) : option string :=
  match p, s with
  | EmptyString, _ => Some s
  | String a p', String b s' => if Ascii.eqb a b then after p' s' else None
  | String _ _, EmptyString => None
  end.

Definition flagged (id : string) : FlaggedContract.t :=
  {| FlaggedContract.contract_id := id;
     FlaggedContract.vendor_name := EmptyString;
     FlaggedContract.value := EmptyString;
     FlaggedContract.description := EmptyString;
     FlaggedContract.original_value := EmptyString;
     FlaggedContract.amendment_value := EmptyString;
     FlaggedContract.start_date := EmptyString;
     FlaggedContract.end_date := EmptyString;
     FlaggedContract.number_of_bids := None;
     FlaggedContract.procurement_type := EmptyString;
     FlaggedContract.reason_for_flag := EmptyString;
     FlaggedContract.risk_level := FlaggedContract.low;
     FlaggedContract.risk_factors :=
       {| FlaggedContract.procurement_issues := None;
          FlaggedContract.financial_issues := None;
          FlaggedContract.conflict_of_interest := None;
          FlaggedContract.timeline_issues := None;
          FlaggedContract.public_interest_factors := None |} |}.

Definition key : string := String "{" (quoted "contract_id" +:+ ":").

Definition stringify (c : FlaggedContract.t) : string :=
  key +:+ String quote
    (escape (FlaggedContract.contract_id c) +:+ String quote "}").

Definition parse (line : string) : option FlaggedContract.t :=
  match after (key +:+ String quote EmptyString) line with
  | Some rest =>
      match unescape rest with
      | Some (id, "}") => Some (flagged id)
      | _ => None
      end
  | None => None
  end.

Definition contract (id value : string) : Contract.t :=
  {| Contract._id := 0;
     Contract.reference_number := EmptyString;
     Contract.procurement_id := id;
     Contract.vendor_name := EmptyString;
     Contract.vendor_postal_code := None;
     Contract.buyer_name := None;
     Contract.contract_date := EmptyString;
     Contract.economic_object_code := EmptyString;
     Contract.description_en := EmptyString;
     Contract.description_fr := EmptyString;
     Contract.contract_period_start := EmptyString;
     Contract.delivery_date := EmptyString;
     Contract.contract_value := value;
     Contract.original_value := EmptyString;
     Contract.amendment_value := EmptyString;
     Contract.comments_en := None;
     Contract.commodity_type := EmptyString;
     Contract.commodity_code := EmptyString;
     Contract.country_of_vendor := EmptyString;
     Contract.solicitation_procedure := EmptyString;
     Contract.limited_tendering_reason := EmptyString;
     Contract.trade_agreement_exceptions := EmptyString;
     Contract.indigenous_business := None;
     Contract.former_public_servant := EmptyString;
     Contract.number_of_bids := None;
     Contract.article_6_exceptions := None;
     Contract.standing_offer_number := None;
     Contract.instrument_type := EmptyString;
     Contract.ministers_office := EmptyString |}.

(** A page of the source as the API answers it. *)
Definition raw_page (records : list (option Contract.t)) : ApiResponse.t :=
  {| ApiResponse.success := true;
     ApiResponse.result :=
       {| ApiResponse.records := records;
          ApiResponse.total := Z.of_nat (length records);
          ApiResponse._links := {| ApiResponse.next := None |} |} |}.
Definition page (records : list Contract.t) : ApiResponse.t :=
  raw_page (Some <$> records).

Definition answer (records : list Contract.t) : Result Response :=
  Ok {| ok := true; status := 200; json := Ok (page records) |}.

(** The text of a reply that flags the given identifiers. *)
Definition reply (ids : list string) : string :=
  String "{" (quoted "contracts" +:+ ":[")
  +:+ join "," (stringify <$> (flagged <$> ids)) +:+ "]}".

(** Reads the objects of a reply's array, up to its end. *)
Fixpoint items (fuel : nat) (s : string) : option (list FlaggedContract.t) :=
  match fuel with
  | O => None
  | S fuel' =>
      match after (key +:+ String quote EmptyString) s with
      | Some rest =>
          match unescape rest with
          | Some (id, String "}" (String "," more)) =>
              match items fuel' more with
              | Some l => Some (flagged id :: l)
              | None => None
              end
          | Some (id, "}]}") => Some [flagged id]
          | _ => None
          end
      | None => None
      end
  end.

(** The text of a reply whose [contracts] is a string. *)
Definition remark (text : string) : string :=
  String "{" (quoted "contracts" +:+ ":") +:+ quoted (escape text) +:+ "}".

Definition is_ascii (s : string) : bool :=
  forallb (fun a => (N_of_ascii a <? 128)%N) (list_ascii_of_string s).

(** A reply whose [contracts] is something else than an array: a string of
    ASCII characters, which has one unit of length per character, or an
    object without members. *)
Definition parse_other (content : string) : option Reply.t :=
  match after (String "{" (quoted "contracts" +:+ ":")) content with
  | Some "{}}" => Some (Reply.value (Some (Flagged.NotArray Length.undefined)))
  | Some (String a rest) =>
      if Ascii.eqb a quote then
        match unescape rest with
        | Some (EmptyString, "}") => Some (Reply.value None)
        | Some (text, "}") =>
            if is_ascii text then
              Some (Reply.value
                      (Some (Flagged.NotArray
                               (Z.of_nat (String.length text)))))
            else None
        | _ => None
        end
      else None
  | _ => None
  end.

Definition parse_reply (content : string) : option Reply.t :=
  if String.eqb content "null" then Some Reply.null
  else if String.eqb content "{}" then Some (Reply.value None)
  else
    match after (String "{" (quoted "contracts" +:+ ":[")) content with
    | Some "]}" => Some (Reply.value (Some (Flagged.Array [])))
    | Some rest =>
        match items (String.length rest) rest with
        | Some l => Some (Reply.value (Some (Flagged.Array l)))
        | None => None
        end
    | None => parse_other content
    end.

(** An environment over this codec. *)
Definition env (fetch : nat -> number -> Result Response)
    (create : nat -> list Contract.t -> Result (option string))
    (appendFile : nat -> Result unit) : Env :=
  {| JSON_stringify := stringify; JSON_parse := parse;
     JSON_parse_reply := parse_reply;
     fetch := fetch; create := create; appendFile := appendFile |}.

(** A source of one page: [records] at offset 0, nothing further on. *)
Definition source (records : list Contract.t) (offset : number)
  : ApiResponse.t :=
  if Number.same offset 0 then page records else page [].

Definition serve (records : list Contract.t) (k : nat) (offset : number)
  : Result Response :=
  Ok {| ok := true; status := 200; json := Ok (source records offset) |}.

Definition recA : Contract.t := contract "A" "$60,000.00".
Definition recB : Contract.t := contract "B" "$75,000.00".
Definition recL : Contract.t := contract "L" "$49,999.99".

(** A process that starts with no output file. *)
Definition fresh : World :=
  {| file := None; processedIds := ∅; fetches := 0; creates := 0;
     appends := 0; trace := [] |}.

End Demo.

(** ** Vocabulary of the statements *)

(** The world once every identifier of [ids] is in [processedIds]. *)
Definition marked (ids : list string) (w : World) : World :=
  {| file := file w; processedIds := list_to_set ids ∪ processedIds w;
     fetches := fetches w; creates := creates w; appends := appends w;
     trace := trace w |}.

(** Each line followed by a line feed. *)
Fixpoint ndjson (lines : list string) : string :=
  match lines with
  | [] => EmptyString
  | line :: rest => line +:+ nl +:+ ndjson rest
  end.

(** The results read from the lines before the first that [parse] refuses. *)
Fixpoint parsed_prefix (parse : string -> option FlaggedContract.t)
    (lines : list string) : list FlaggedContract.t :=
  match lines with
  | [] => []
  | line :: rest =>
      match parse line with
      | Some contract => contract :: parsed_prefix parse rest
      | None => []
      end
  end.

Definition all_parse (parse : string -> option FlaggedContract.t)
    (lines : list string) : bool :=
  forallb (fun line => bool_decide (is_Some (parse line))) lines.

(** The lines [loadProcessedIds] walks through, given the file. *)
Definition lines_of (content : string) : list string :=
  split newline (trim content).

(** How the [try] block of [analyzeContractsWithGPT] ends, given how
    [create] ended. *)
Definition classified (E : Env) (r : Result (option string))
  : Result Flagged.t :=
  match r with
  | Threw e => Threw e
  | Ok None | Ok (Some EmptyString) => Ok (Flagged.Array [])
  | Ok (Some content) =>
      match JSON_parse_reply E content with
      | Some (Reply.value contracts) =>
          Ok (default (Flagged.Array []) contracts)
      | Some Reply.null => Threw TypeError
      | None => Threw SyntaxError
      end
  end.

(** [if (flagged.length > 0) await this.appendFlaggedContracts(flagged)] *)
Definition persist (E : Env) (flagged : Flagged.t) : M unit :=
  if Length.positive (Flagged.length flagged) then appendFlagged E flagged
  else ret tt.

(** The page that ends the loop of [analyze]. *)
Definition last_page (data : ApiResponse.t) : bool :=
  negb (ApiResponse.success data)
  || (length (ApiResponse.records (ApiResponse.result data)) =? 0)%nat.

(** The world after more events. *)
Definition emits (evs : list Event) (w : World) : World :=
  {| file := file w; processedIds := processedIds w; fetches := fetches w;
     creates := creates w; appends := appends w; trace := trace w ++ evs |}.

(** The variables of [analyze] after a turn without candidates, and after
    a turn that added the given figures to the totals. *)
Definition skip (st : RunState) : RunState :=
  {| offset := plus (offset st) BATCH_SIZE;
     totalContracts := totalContracts st;
     totalHighValue := totalHighValue st;
     totalFlagged := totalFlagged st;
     batchNumber := plus (batchNumber st) 1 |}.
Definition advance (st : RunState) (inBatch highValue : Z)
    (flagged : Length.t) : RunState :=
  {| offset := plus (offset st) BATCH_SIZE;
     totalContracts := plus (totalContracts st) inBatch;
     totalHighValue := plus (totalHighValue st) highValue;
     totalFlagged := Total.add (totalFlagged st) flagged;
     batchNumber := plus (batchNumber st) 1 |}.

(** The three messages of the [catch] of [analyze]. *)
Definition reported (st : RunState) (e : Error) : list Event :=
  [ Console (ErrorProcessingBatch (batchNumber st) e);
    Console (LastSuccessfulOffset (offset st));
    Console UseThisOffset ].

(** A text as [JSON.stringify] writes an object: between braces, on one
    line. *)
Definition one_line (s : string) : Prop :=
  exists body,
    s = String "{" (body +:+ "}") ∧ newline ∉ list_ascii_of_string body.

(** The file is the log of [entries], one serialization per line, and is
    absent when there are none. *)
Definition log_of (E : Env) (entries : list FlaggedContract.t)
  : option string :=
  match entries with
  | [] => None
  | _ :: _ => Some (ndjson (JSON_stringify E <$> entries))
  end.

(** The file and [processedIds] agree: the set holds the identifiers of the
    results in the file and no other. *)
Definition consistent (E : Env) (w : World) : Prop :=
  exists entries,
    file w = log_of E entries
    ∧ processedIds w = list_to_set (FlaggedContract.contract_id <$> entries).

(** Worlds that differ only by calls of the classifier, timers and console
    output: the file, the set, and the calls of [fetch] and [appendFile] are
    the same, and the classifier was called [n] more times. *)
Definition classifier_only (n : nat) (w w' : World) : Prop :=
  file w' = file w ∧ processedIds w' = processedIds w
  ∧ fetches w' = fetches w ∧ appends w' = appends w
  ∧ creates w' = (n + creates w)%nat.

(** Every body the API sends for an offset is the page of [source]. *)
Definition stable (E : Env) (source : number -> ApiResponse.t) : Prop :=
  forall k offset response data,
    fetch E k offset = Ok response -> json response = Ok data ->
    data = source offset.

(** The offset after [k] turns of a loop that started at [startOffset]:
    [offset += BATCH_SIZE], [k] times. *)
Definition offset_after (k : nat) (startOffset : number) : number :=
  Nat.iter k (fun offset => plus offset BATCH_SIZE) startOffset.

(** The batch number after [k] turns: [batchNumber++], [k] times, from 1. *)
Definition batch_after (k : nat) : number :=
  Nat.iter k (fun batchNumber => plus batchNumber 1) 1.

(** The offset of the batch number [j], counting from zero, of a run that
    starts at offset 0. *)
Definition page_offset (j : nat) : number := offset_after j 0.

(** The source is finite: its page number [n] is the first that ends the
    loop. *)
Definition ends_at (source : number -> ApiResponse.t) (n : nat) : Prop :=
  (forall j, (j < n)%nat -> last_page (source (page_offset j)) = false)
  ∧ last_page (source (page_offset n)) = true.

(** Every record that passes the threshold, on the pages before page [n],
    has its [procurement_id] in [ids]. *)
Definition covered (source : number -> ApiResponse.t) (n : nat)
    (ids : gset string) : Prop :=
  forall j c,
    (j < n)%nat ->
    Some c
      ∈ ApiResponse.records (ApiResponse.result (source (page_offset j))) ->
    isHighValue c = true -> Contract.procurement_id c ∈ ids.

(** The classifier answers every call, and flags every candidate under the
    candidate's own identifier. *)
Definition flags_all (E : Env) : Prop :=
  forall k candidates,
    exists flagged,
      classified E (create E k candidates) = Ok (Flagged.Array flagged)
      ∧ forall c,
          c ∈ candidates ->
          Contract.procurement_id c
            ∈ FlaggedContract.contract_id <$> flagged.

(** A new process over the same file: [processedIds] starts empty again. *)
Definition restart (w : World) : World :=
  {| file := file w; processedIds := ∅; fetches := fetches w;
     creates := creates w; appends := appends w; trace := trace w |}.

(** ** Environments the statements are tried on *)

Module Examples.

Import Demo.

(** The classifier flags every candidate under its own identifier. *)
Definition flag_all (k : nat) (candidates : list Contract.t)
  : Result (option string) :=
  Ok (Some (reply (Contract.procurement_id <$> candidates))).

(** The network that fails twice, once in transport and once with a status,
    and then answers. *)
Definition flaky_fetch (k : nat) (offset : number) : Result Response :=
  match k with
  | 0%nat => Threw (Rejected "ECONNRESET")
  | 1%nat => Ok {| ok := false; status := 503; json := Threw SyntaxError |}
  | _ => answer [recA]
  end.
Definition flaky : Env := env flaky_fetch flag_all (fun _ => Ok tt).

(** The network that never answers. *)
Definition offline : Env :=
  env (fun _ _ => Threw (Rejected "ENOTFOUND")) flag_all (fun _ => Ok tt).

(** One valuable record, flagged, and a disk that refuses the write. *)
Definition full_disk : Env :=
  env (serve [recA]) flag_all (fun _ => Threw (Rejected "ENOSPC")).

(** One valuable record and a classifier that always fails. *)
Definition mute : Env :=
  env (serve [recA]) (fun _ _ => Threw (Rejected "429")) (fun _ => Ok tt).

(** One record under the threshold. *)
Definition cheap : Env := env (serve [recL]) flag_all (fun _ => Ok tt).

(** A classifier that answers with two results for one candidate. *)
Definition eager : Env :=
  env (serve [recA]) (fun _ _ => Ok (Some (reply ["A"; "Z"])))
    (fun _ => Ok tt).

(** A classifier that flags the first of two candidates, and a lone
    candidate always. *)
Definition picky_create (k : nat) (candidates : list Contract.t)
  : Result (option string) :=
  match candidates with
  | c :: _ => Ok (Some (reply [Contract.procurement_id c]))
  | [] => Ok (Some (reply []))
  end.
Definition picky : Env := env (serve [recA; recB]) picky_create (fun _ => Ok tt).

(** Three records, two of them valuable, all candidates flagged. *)
Definition thorough : Env :=
  env (serve [recA; recL; recB]) flag_all (fun _ => Ok tt).

(** A log whose second line is not JSON. *)
Definition damaged : World :=
  {| file := Some (ndjson [stringify (flagged "A"); "oops";
                           stringify (flagged "B")]);
     processedIds := ∅; fetches := 0; creates := 0; appends := 0;
     trace := [] |}.

(** The first run over [thorough] and [picky], and the world it leaves. *)
Definition thorough_once : World := snd (analyze thorough 5 0 fresh).
Definition picky_once : World := snd (analyze picky 5 0 fresh).

(** The world of [mute] once the first page is fetched. *)
Definition mute_fetched : World :=
  snd (getContractsWithRetry mute 0 0
         (emit (Console (ProcessingBatch 1 0)) fresh)).

End Examples.

(** ** The entry point, [src/index.ts] *)

Module Main.

(** What the script prints by itself. *)
Inductive Printed : Type :=
| PleaseSetKey                          (* console.error *)
| StartingContractAnalysis
| AnalysisCompleteCheckFile
| ErrorDuringAnalysis (error : Error).  (* console.error *)

(** The output of the process: the lines of the script and, between them,
    what the analyzer does. *)
Inductive Output : Type :=
| Script (p : Printed)
| Analyzer (ev : Event).

(** How the process stands: ended with a status, or still in the loop of
    [analyze]. *)
Inductive Process : Type :=
| Exited (code : Z)
| Running (st : RunState).

(** The world of a process that starts over the given output file:
    [processedIds] is the empty set of its field initializer. *)
Definition boot (output : option string) : World :=
  {| file := output; processedIds := ∅; fetches := 0; creates := 0;
     appends := 0; trace := [] |}.

(** The script: without a key it prints and calls [process.exit(1)]; with
    one it calls [analyze()], without an argument, and prints how the promise
    ended.  The [catch] of the chain handles the rejection, so the process
    ends as any process whose work is done. *)
Definition main (E : Env) (OPENAI_API_KEY : option string)
    (output : option string) (fuel : nat) : Process * list Output * World :=
  match OPENAI_API_KEY with
  | None | Some EmptyString => (Exited 1, [Script PleaseSetKey], boot output)
  | Some _ =>
      let '(r, w) := analyze E fuel 0 (boot output) in
      let out := Script StartingContractAnalysis :: (Analyzer <$> trace w) in
      match r with
      | Finished (Ok _) => (Exited 0, out ++ [Script AnalysisCompleteCheckFile], w)
      | Finished (Threw e) => (Exited 0, out ++ [Script (ErrorDuringAnalysis e)], w)
      | Looping st => (Running st, out, w)
      end
  end.

End Main.

(** ** What a run did, read from its events *)

(** The events of the attempts that failed and were tried again: the
    attempt, the message of the retry, and the wait before the next
    attempt. *)
Fixpoint backoff (attempt : list Event) (retry : nat -> Error -> Message)
    (retries : nat) (errors : list Error) : list Event :=
  match errors with
  | [] => []
  | e :: rest =>
      attempt
      ++ Console (retry (retries + 1)%nat e)
         :: Sleep (RATE_LIMIT_DELAY * (Z.of_nat retries + 1))
         :: backoff attempt retry (retries + 1) rest
  end.

(** An attempt of [analyzeContractsWithGPT], up to the call. *)
Definition submitted (contracts : list Contract.t) : list Event :=
  [ Console (Analyzing (length contracts) (firstId contracts));
    Create (length contracts) ].

(** The offsets that were fetched, in order. *)
Fixpoint fetched (evs : list Event) : list number :=
  match evs with
  | [] => []
  | Fetch offset :: rest => offset :: fetched rest
  | _ :: rest => fetched rest
  end.

Definition is_fetch (ev : Event) : bool :=
  match ev with Fetch _ => true | _ => false end.
Definition is_create (ev : Event) : bool :=
  match ev with Create _ => true | _ => false end.

(** A wait of [RATE_LIMIT_DELAY] or more. *)
Definition pause (ev : Event) : bool :=
  match ev with Sleep ms => RATE_LIMIT_DELAY <=? ms | _ => false end.

(** No two calls of the kind [call] without a pause between them; [rested]
    tells whether a call may come first. *)
Fixpoint spaced (call : Event -> bool) (rested : bool) (evs : list Event)
  : bool :=
  match evs with
  | [] => true
  | ev :: rest =>
      if call ev then rested && spaced call false rest
      else spaced call (rested || pause ev) rest
  end.

(** The file only grew and the set only grew. *)
Definition extends (w w' : World) : Prop :=
  processedIds w ⊆ processedIds w'
  ∧ (forall content,
       file w = Some content ->
       exists more, file w' = Some (content +:+ more))
  ∧ (fetches w <= fetches w')%nat ∧ (creates w <= creates w')%nat
  ∧ (appends w <= appends w')%nat.

(** Every call of [fetch] is answered, with the page of [source]. *)
Definition reliable (E : Env) (source : number -> ApiResponse.t) : Prop :=
  forall k offset,
    exists response,
      fetch E k offset = Ok response ∧ ok response = true
      ∧ json response = Ok (source offset).

(** The offsets of the pages 0 to [n]. *)
Definition pages_to (n : nat) : list number := page_offset <$> seq 0 (S n).

(** The file is the log of [entries], and the set holds their identifiers
    and no other. *)
Definition logged (E : Env) (entries : list FlaggedContract.t) (w : World)
  : Prop :=
  file w = log_of E entries
  ∧ processedIds w = list_to_set (FlaggedContract.contract_id <$> entries).

(** Whether a call of the kind [call] may come next, after [evs]. *)
Fixpoint rested_after (call : Event -> bool) (rested : bool)
    (evs : list Event) : bool :=
  match evs with
  | [] => rested
  | ev :: rest =>
      rested_after call (if call ev then false else rested || pause ev) rest
  end.

(** No call of the kind [call]. *)
Definition quiet (call : Event -> bool) (evs : list Event) : bool :=
  forallb (fun ev => negb (call ev)) evs.

(** A call of the classifier with at least one contract; a call of
    [appendFile] with the lines of at least one result. *)
Definition purposeful (E : Env) (ev : Event) : Prop :=
  match ev with
  | Create candidates => (0 < candidates)%nat
  | AppendFile text =>
      exists flagged,
        flagged ≠ []
        ∧ text = join nl (JSON_stringify E <$> flagged) +:+ nl
  | _ => True
  end.

(** The offsets asked for by a loop that starts at [offset] and makes, in
    its successive turns, the given numbers of attempts. *)
Fixpoint visits (offset : number) (attempts : list nat) : list number :=
  match attempts with
  | [] => []
  | n :: rest => replicate n offset ++ visits (plus offset BATCH_SIZE) rest
  end.

(** The same offsets, written as integers. *)
Fixpoint whole_visits (offset : Z) (attempts : list nat) : list Z :=
  match attempts with
  | [] => []
  | n :: rest => replicate n offset ++ whole_visits (offset + BATCH_SIZE) rest
  end.

(** Every reply of the classifier holds an array under [contracts], or
    nothing. *)
Definition arrays (E : Env) : Prop :=
  forall k candidates flagged,
    classified E (create E k candidates) = Ok flagged ->
    exists results, flagged = Flagged.Array results.

(** Every record of the pages before page [n] can be read. *)
Definition legible (source : number -> ApiResponse.t) (n : nat) : Prop :=
  forall j,
    (j < n)%nat ->
    is_Some (readable (ApiResponse.records
                         (ApiResponse.result (source (page_offset j))))).

(** The classifier judges each record on its own: whatever the call and
    the batch, its reply holds the results of the candidates that [judge]
    flags, each under the candidate's own identifier. *)
Definition per_record (E : Env)
    (judge : Contract.t -> option FlaggedContract.t) : Prop :=
  (forall c f,
     judge c = Some f ->
     FlaggedContract.contract_id f = Contract.procurement_id c)
  ∧ forall k candidates,
      classified E (create E k candidates)
      = Ok (Flagged.Array (omap judge candidates)).

(** Every record that passes the threshold, on the pages before page [n],
    has its [procurement_id] in [ids] or is one that [judge] does not
    flag. *)
Definition settled (source : number -> ApiResponse.t) (n : nat)
    (judge : Contract.t -> option FlaggedContract.t) (ids : gset string)
  : Prop :=
  forall j c,
    (j < n)%nat ->
    Some c
      ∈ ApiResponse.records (ApiResponse.result (source (page_offset j))) ->
    isHighValue c = true ->
    Contract.procurement_id c ∈ ids ∨ judge c = None.

(** The number [x] is the count [z], as long as counts are exact. *)
Definition counts (x : number) (z : Z) : Prop := z < 2 ^ 53 -> x = z.
Definition counts_total (total : Total.t) (z : Z) : Prop :=
  z < 2 ^ 53 -> total = z.

(** Worlds that differ by their events only. *)
Definition alike (w w' : World) : Prop :=
  file w = file w' ∧ processedIds w = processedIds w'
  ∧ fetches w = fetches w' ∧ creates w = creates w'
  ∧ appends w = appends w'.

(** How two turns compare: both go on, to the same offset, or both end the
    loop, or both throw the same exception. *)
Definition same_turn (r r' : Result Turn) : Prop :=
  match r, r' with
  | Ok (Continue st), Ok (Continue st') => offset st = offset st'
  | Ok (Break _), Ok (Break _) => True
  | Threw e, Threw e' => e = e'
  | _, _ => False
  end.

(** Two runs that ended in the same way. *)
Definition same_end (r r' : Run unit) : Prop :=
  match r, r' with
  | Finished (Ok _), Finished (Ok _) => True
  | Finished (Threw e), Finished (Threw e') => e = e'
  | Looping st, Looping st' => offset st = offset st'
  | _, _ => False
  end.

(** ** Numbers and their digits *)

(** The exponent [binary64] computes: [2^e <= n / d < 2^(e + 1)]. *)
Definition exponent (n d : Z) : Z :=
  let e0 := Z.log2 n - Z.log2 d in
  if num_at n e0 <? den_at d e0 then e0 - 1 else e0.

(** The integer nearest to [N / D], ties to even. *)
Definition nearest (N D : Z) : Z :=
  let q := N / D in
  let r := N mod D in
  if 2 * r <? D then q
  else if D <? 2 * r then q + 1
  else if Z.even q then q else q + 1.

(** The number a string of decimal digits stands for, read after [acc]. *)
Fixpoint uint_value (acc : Z) (u : Decimal.uint) : Z :=
  match u with
  | Decimal.Nil => acc
  | Decimal.D0 u => uint_value (10 * acc + 0) u
  | Decimal.D1 u => uint_value (10 * acc + 1) u
  | Decimal.D2 u => uint_value (10 * acc + 2) u
  | Decimal.D3 u => uint_value (10 * acc + 3) u
  | Decimal.D4 u => uint_value (10 * acc + 4) u
  | Decimal.D5 u => uint_value (10 * acc + 5) u
  | Decimal.D6 u => uint_value (10 * acc + 6) u
  | Decimal.D7 u => uint_value (10 * acc + 7) u
  | Decimal.D8 u => uint_value (10 * acc + 8) u
  | Decimal.D9 u => uint_value (10 * acc + 9) u
  end.

(** A string that does not go on with a digit. *)
Definition ends_number (rest : string) : Prop :=
  match rest with
  | String a _ => is_digit a = false
  | EmptyString => True
  end.

(** ** More environments the statements are tried on *)

Module Scenarios.

Import Demo Examples.

(** A server that answers 200 with a body that is not JSON. *)
Definition garbled_response : Response :=
  {| ok := true; status := 200; json := Threw SyntaxError |}.
Definition garbled : Env :=
  env (fun _ _ => Ok garbled_response) flag_all (fun _ => Ok tt).

(** A source of two pages, and a network that always answers. *)
Definition shelves (offset : number) : ApiResponse.t :=
  if Number.same offset 0 then page [recA; recL]
  else if Number.same offset 100 then page [recB]
  else page [].
Definition library : Env :=
  env (fun _ offset =>
         Ok {| ok := true; status := 200; json := Ok (shelves offset) |})
    flag_all (fun _ => Ok tt).

(** A network that answers for the first page and is down afterwards. *)
Definition cut : Env :=
  env (fun _ offset =>
         if Number.same offset 0 then answer [recL]
         else Threw (Rejected "ECONNRESET"))
    flag_all (fun _ => Ok tt).

(** The run over [library] stopped after its first turn. *)
Definition library_state : RunState :=
  {| offset := 100; totalContracts := 2; totalHighValue := 1;
     totalFlagged := 1; batchNumber := 2 |}.
Definition library_cut : World := snd (analyze library 1 0 fresh).

(** A record whose value is written with a minus sign. *)
Definition refund : Contract.t := contract "R" "-$60,000.00".

(** A classifier that answers with a sentence where the array should be. *)
Definition vague : Env :=
  env (serve [recA]) (fun _ _ => Ok (Some (remark "none of them")))
    (fun _ => Ok tt).

(** A classifier that answers with an object where the array should be. *)
Definition curt : Env :=
  env (serve [recA])
    (fun _ _ => Ok (Some (String "{" (quoted "contracts" +:+ ":{}}"))))
    (fun _ => Ok tt).

(** A classifier whose first reply is not JSON, and that flags every
    candidate afterwards. *)
Definition stutter : Env :=
  env (serve [recA])
    (fun k candidates =>
       match k with
       | O => Ok (Some "I think that")
       | _ => flag_all k candidates
       end)
    (fun _ => Ok tt).

(** A classifier that judges each record on its own: it flags the record
    whose identifier is A, and no other. *)
Definition judge_A (c : Contract.t) : option FlaggedContract.t :=
  if String.eqb (Contract.procurement_id c) "A"
  then Some (flagged (Contract.procurement_id c)) else None.
Definition choosy_create (k : nat) (candidates : list Contract.t)
  : Result (option string) :=
  Ok (Some (reply (FlaggedContract.contract_id <$> omap judge_A candidates))).
Definition choosy : Env :=
  env (serve [recA; recL; recB]) choosy_create (fun _ => Ok tt).
Definition choosy_once : World := snd (analyze choosy 5 0 fresh).

(** A page whose second record has [null] for [contract_value]. *)
Definition blank : Env :=
  env (fun _ _ =>
         Ok {| ok := true; status := 200;
               json := Ok (raw_page [Some recA; None]) |})
    flag_all (fun _ => Ok tt).

(** A source that has one record, under the threshold, at every offset. *)
Definition endless : Env :=
  env (fun _ _ => answer [recL]) flag_all (fun _ => Ok tt).

(** The number 4000000000000000000. *)
Definition far : number := binary64 false 4000000000000000000 1.

End Scenarios.

(** * Properties *)

(** ** The filter *)

Lemma keep_numeric (value : string) (a : ascii) :
  a ∈ list_ascii_of_string (keep is_numeric_char value) <->
  a ∈ list_ascii_of_string value ∧ is_numeric_char a = true.
Proof.
  induction value as [|b value IH]; simpl.
  - split; [inversion 1 | intros [H _]; inversion H].
  - destruct (is_numeric_char b) eqn:Hb; simpl;
      rewrite ?elem_of_cons, IH, ?elem_of_cons;
      intuition (subst; auto; congruence).
Qed.

(** The characters [/[^0-9.-]+/g] leaves in place. *)
Lemma is_numeric_char_spec (a : ascii) :
  is_numeric_char a = true <-> a ∈ list_ascii_of_string "0123456789.-".
Proof.
  destruct a as [[] [] [] [] [] [] [] []];
    (split; [intros H; vm_compute in H; try discriminate H;
             apply (bool_decide_unpack _); by vm_compute
            |intros H; apply (bool_decide_pack _) in H; vm_compute in H;
             first [reflexivity | destruct H]]).
Qed.

Lemma ge_NaN (threshold : number) : Number.ge NaN threshold = false.
Proof. reflexivity. Qed.

Lemma filterHighValueContracts_elem (ids : gset string)
    (contracts : list Contract.t) (c : Contract.t) :
  c ∈ filterHighValueContracts ids contracts <->
  c ∈ contracts ∧ isHighValue c = true ∧ Contract.procurement_id c ∉ ids.
Proof.
  unfold filterHighValueContracts, isNew.
  rewrite !list_elem_of_In, filter_In, andb_true_iff, negb_true_iff,
    bool_decide_eq_false.
  tauto.
Qed.

(** C2. [filterHighValueContracts] keeps a record exactly when its value,
    stripped of everything but digits, [.] and [-] and parsed, is at least
    50000 and its [procurement_id] is not in [processedIds]; a value that
    parses to NaN fails the comparison; ["$49,999.99"] is left out and
    ["$50,000.00"] is kept. *)
Theorem filter_selects_high_value_and_new (ids : gset string)
    (contracts : list Contract.t) (c : Contract.t) :
  (c ∈ filterHighValueContracts ids contracts <->
     c ∈ contracts
     ∧ Number.ge
         (parseFloat (keep is_numeric_char (Contract.contract_value c)))
         (of_Z 50000) = true
     ∧ Contract.procurement_id c ∉ ids)
  ∧ (forall a,
       a ∈ list_ascii_of_string
             (keep is_numeric_char (Contract.contract_value c)) <->
       a ∈ list_ascii_of_string (Contract.contract_value c)
       ∧ a ∈ list_ascii_of_string "0123456789.-")
  ∧ (parseContractValue (Contract.contract_value c) = NaN ->
     c ∉ filterHighValueContracts ids contracts)
  ∧ parseContractValue "N/A" = NaN
  ∧ (Contract.contract_value c = "$49,999.99" ->
     c ∉ filterHighValueContracts ids contracts)
  ∧ (Contract.contract_value c = "$50,000.00" ->
     (c ∈ filterHighValueContracts ids contracts <->
        c ∈ contracts ∧ Contract.procurement_id c ∉ ids)).
Proof.
  pose proof (filterHighValueContracts_elem ids contracts c) as Hsel.
  unfold isHighValue, parseContractValue, MIN_CONTRACT_VALUE in Hsel.
  split; [exact Hsel|].
  split; [intros a; by rewrite keep_numeric, is_numeric_char_spec|].
  split.
  { unfold parseContractValue. intros Hnan Hin.
    apply Hsel in Hin as (_ & Hge & _). rewrite Hnan in Hge. discriminate. }
  split; [reflexivity|].
  split.
  { intros Hv Hin. apply Hsel in Hin as (_ & Hge & _).
    rewrite Hv in Hge. vm_compute in Hge. discriminate. }
  intros Hv. rewrite Hsel, Hv.
  assert (Number.ge (parseFloat (keep is_numeric_char "$50,000.00"))
            (of_Z 50000) = true) as -> by (vm_compute; reflexivity).
  tauto.
Qed.

(** ** Fetching a page *)

Section Fetching.

Variable E : Env.

Lemma request_failure (offset : number) (w : World) (e : Error) :
  failure (fetch E (fetches w) offset) = Some e ->
  request E offset w = (Threw e, fetching offset w).
Proof.
  unfold request, bind, fetch_, failure.
  destruct (fetch E (fetches w) offset) as [response|e'];
    [|intros [= <-]; reflexivity].
  destruct (ok response); simpl; [discriminate|].
  intros [= <-]; reflexivity.
Qed.

Lemma request_success (offset : number) (w : World) (response : Response) :
  fetch E (fetches w) offset = Ok response -> ok response = true ->
  request E offset w = (Ok (json response), fetching offset w).
Proof.
  unfold request, bind, fetch_. intros -> ->. reflexivity.
Qed.

(** The equation of the source: one attempt, then on an exception either a
    logged retry after [RATE_LIMIT_DELAY * (retries + 1)] or the exception
    again. *)
Lemma getContractsWithRetry_eq (offset : number) (retries : nat) (w : World) :
  getContractsWithRetry E offset retries w =
  (p <- try_catch (request E offset)
         (fun error =>
            if (retries <? MAX_RETRIES)%nat then
              log (RetryFetch (retries + 1) error) ;;
              sleep (RATE_LIMIT_DELAY * (Z.of_nat retries + 1)) ;;
              promise (getContractsWithRetry E offset (retries + 1))
            else throw error) ;;
   await p) w.
Proof.
  unfold getContractsWithRetry.
  destruct (le_lt_dec MAX_RETRIES retries) as [Hge|Hlt].
  - replace (MAX_RETRIES - retries)%nat with 0%nat by lia.
    simpl. unfold bind, try_catch.
    destruct (request E offset w) as [[p|e] w']; [reflexivity|].
    destruct (retries <? MAX_RETRIES)%nat eqn:Hb; [|reflexivity].
    apply Nat.ltb_lt in Hb. lia.
  - replace (MAX_RETRIES - retries)%nat
      with (S (MAX_RETRIES - (retries + 1)))%nat by lia.
    reflexivity.
Qed.

(** A failed attempt that may still be retried. *)
Lemma getContractsWithRetry_retry (offset : number) (retries : nat) (w : World)
    (e : Error) :
  (retries < MAX_RETRIES)%nat ->
  failure (fetch E (fetches w) offset) = Some e ->
  getContractsWithRetry E offset retries w =
  getContractsWithRetry E offset (retries + 1)
    (emit (Sleep (RATE_LIMIT_DELAY * (Z.of_nat retries + 1)))
       (emit (Console (RetryFetch (retries + 1) e)) (fetching offset w))).
Proof.
  intros Hlt Hfail. rewrite getContractsWithRetry_eq.
  unfold bind at 1. unfold try_catch. rewrite (request_failure _ _ _ Hfail).
  apply Nat.ltb_lt in Hlt. rewrite Hlt.
  unfold bind, log, sleep, promise, await.
  destruct (getContractsWithRetry E offset (retries + 1) _) as [r w'].
  destruct r; reflexivity.
Qed.

(** A failed attempt once the retries are used up. *)
Lemma getContractsWithRetry_exhausted (offset : number) (retries : nat)
    (w : World) (e : Error) :
  (MAX_RETRIES <= retries)%nat ->
  failure (fetch E (fetches w) offset) = Some e ->
  getContractsWithRetry E offset retries w = (Threw e, fetching offset w).
Proof.
  intros Hge Hfail. rewrite getContractsWithRetry_eq.
  unfold bind at 1. unfold try_catch. rewrite (request_failure _ _ _ Hfail).
  destruct (Nat.ltb_spec retries MAX_RETRIES); [lia|reflexivity].
Qed.

(** An attempt that gets a response with [ok] set: the outcome is that of
    [response.json()], whatever [retries] is. *)
Lemma getContractsWithRetry_response (offset : number) (retries : nat) (w : World)
    (response : Response) :
  fetch E (fetches w) offset = Ok response -> ok response = true ->
  getContractsWithRetry E offset retries w =
  (json response, fetching offset w).
Proof.
  intros Hfetch Hok. rewrite getContractsWithRetry_eq.
  unfold bind at 1. unfold try_catch.
  rewrite (request_success _ _ _ Hfetch Hok).
  unfold await. reflexivity.
Qed.

(** C4. When the network call fails twice and then succeeds,
    [getContractsWithRetry] makes exactly three calls, waits
    [1 * RATE_LIMIT_DELAY] before the first retry and
    [2 * RATE_LIMIT_DELAY] before the second, and returns the page of the
    third call. *)
Theorem backoff_two_failures_then_success (offset : number) (w : World)
    (e1 e2 : Error) (response : Response) (data : ApiResponse.t) :
  failure (fetch E (fetches w) offset) = Some e1 ->
  failure (fetch E (1 + fetches w) offset) = Some e2 ->
  fetch E (2 + fetches w) offset = Ok response ->
  ok response = true ->
  json response = Ok data ->
  exists w',
    getContractsWithRetry E offset 0 w = (Ok data, w')
    ∧ fetches w' = (3 + fetches w)%nat
    ∧ trace w' =
        trace w ++
        [ Fetch offset;
          Console (RetryFetch 1 e1); Sleep (1 * RATE_LIMIT_DELAY);
          Fetch offset;
          Console (RetryFetch 2 e2); Sleep (2 * RATE_LIMIT_DELAY);
          Fetch offset ]
    ∧ file w' = file w ∧ processedIds w' = processedIds w
    ∧ creates w' = creates w ∧ appends w' = appends w.
Proof.
  intros H1 H2 H3 Hok Hjson.
  rewrite (getContractsWithRetry_retry offset 0 w e1) by (done || (unfold MAX_RETRIES; lia)).
  rewrite (getContractsWithRetry_retry offset (0 + 1) _ e2)
    by (done || (unfold MAX_RETRIES; lia)).
  erewrite getContractsWithRetry_response by (simpl; eassumption).
  rewrite Hjson. eexists. split; [reflexivity|].
  simpl. rewrite <- !app_assoc. simpl. done.
Qed.

(** Four failed attempts in a row: the exception of the last leaves. *)
Lemma getContractsWithRetry_gives_up (offset : number) (w : World)
    (e0 e1 e2 e3 : Error) :
  failure (fetch E (fetches w) offset) = Some e0 ->
  failure (fetch E (1 + fetches w) offset) = Some e1 ->
  failure (fetch E (2 + fetches w) offset) = Some e2 ->
  failure (fetch E (3 + fetches w) offset) = Some e3 ->
  exists w',
    getContractsWithRetry E offset 0 w = (Threw e3, w')
    ∧ fetches w' = (4 + fetches w)%nat
    ∧ trace w' =
        trace w ++
        [ Fetch offset;
          Console (RetryFetch 1 e0); Sleep (1 * RATE_LIMIT_DELAY);
          Fetch offset;
          Console (RetryFetch 2 e1); Sleep (2 * RATE_LIMIT_DELAY);
          Fetch offset;
          Console (RetryFetch 3 e2); Sleep (3 * RATE_LIMIT_DELAY);
          Fetch offset ]
    ∧ file w' = file w ∧ processedIds w' = processedIds w
    ∧ creates w' = creates w ∧ appends w' = appends w.
Proof.
  intros H0 H1 H2 H3.
  rewrite (getContractsWithRetry_retry offset 0 w e0)
    by (done || (unfold MAX_RETRIES; lia)).
  rewrite (getContractsWithRetry_retry offset (0 + 1) _ e1)
    by (done || (unfold MAX_RETRIES; lia)).
  rewrite (getContractsWithRetry_retry offset (0 + 1 + 1) _ e2)
    by (done || (unfold MAX_RETRIES; lia)).
  rewrite (getContractsWithRetry_exhausted offset (0 + 1 + 1 + 1) _ e3)
    by (done || (unfold MAX_RETRIES; lia)).
  eexists. split; [reflexivity|].
  simpl. rewrite <- !app_assoc. simpl. done.
Qed.

End Fetching.

(** ** Strings *)

Lemma append_cons (a : ascii) (s t : string) :
  String a s +:+ t = String a (s +:+ t).
Proof. reflexivity. Qed.

Lemma append_assoc (s t u : string) : (s +:+ t) +:+ u = s +:+ t +:+ u.
Proof.
  induction s as [|a s IH]; [done|]. by rewrite !append_cons, IH.
Qed.

Lemma append_empty_r (s : string) : s +:+ EmptyString = s.
Proof. induction s as [|a s IH]; [done|]. by rewrite append_cons, IH. Qed.

Lemma chars_append (s t : string) :
  list_ascii_of_string (s +:+ t)
  = list_ascii_of_string s ++ list_ascii_of_string t.
Proof.
  induction s as [|a s IH]; [done|]. rewrite append_cons. simpl. by rewrite IH.
Qed.

Lemma string_of_chars_app (l k : list ascii) :
  string_of_list_ascii (l ++ k)
  = string_of_list_ascii l +:+ string_of_list_ascii k.
Proof.
  induction l as [|a l IH]; [done|]. simpl. by rewrite IH, append_cons.
Qed.

(** ** The counters of [analyze] *)

Lemma fits_whole (z : Z) : Z.abs z < 2 ^ 53 -> fits z 0 = true.
Proof.
  intros Hz. unfold fits.
  assert (Z.log2 (Z.abs z) < 53) as Hlog.
  { destruct (Z.eq_dec (Z.abs z) 0) as [->|Hne]; [done|].
    apply Z.log2_lt_pow2; lia. }
  apply andb_true_iff. split; [apply andb_true_iff; split|].
  - by apply Z.ltb_lt.
  - done.
  - apply Z.ltb_lt. lia.
Qed.

(** Integers add as integers as long as the sum has at most 53 bits. *)
Lemma plus_whole (a b : Z) :
  Z.abs (a + b) < 2 ^ 53 -> plus a b = (a + b).
Proof.
  intros Hsum. unfold plus, of_Z, scaled.
  change (Z.min 0 0) with 0. change (2 ^ (0 - 0)) with 1.
  rewrite !Z.mul_1_r. by rewrite fits_whole.
Qed.

Lemma offset_after_next (k : nat) (startOffset : number) :
  offset_after (S k) startOffset
  = offset_after k (plus startOffset BATCH_SIZE).
Proof.
  exact (Nat.iter_succ_r k (fun offset => plus offset BATCH_SIZE) startOffset).
Qed.

(** Below [2^53] the offsets are the integers one expects. *)
Lemma offset_after_whole (k : nat) (z : Z) :
  0 <= z -> z + BATCH_SIZE * Z.of_nat k < 2 ^ 53 ->
  offset_after k z = (z + BATCH_SIZE * Z.of_nat k).
Proof.
  intros Hz. induction k as [|k IH]; intros Hk.
  { simpl. f_equal. lia. }
  change (offset_after (S k) z) with (plus (offset_after k z) BATCH_SIZE).
  rewrite IH by (unfold BATCH_SIZE in *; lia).
  rewrite plus_whole by (unfold BATCH_SIZE in *; lia).
  f_equal. unfold BATCH_SIZE. lia.
Qed.

Lemma page_offset_whole (j : nat) :
  BATCH_SIZE * Z.of_nat j < 2 ^ 53 ->
  page_offset j = (BATCH_SIZE * Z.of_nat j).
Proof.
  intros Hj. unfold page_offset. rewrite offset_after_whole by lia.
  f_equal.
Qed.

Lemma batch_after_whole (k : nat) :
  1 + Z.of_nat k < 2 ^ 53 -> batch_after k = (1 + Z.of_nat k).
Proof.
  induction k as [|k IH]; intros Hk; [reflexivity|].
  change (batch_after (S k)) with (plus (batch_after k) 1).
  rewrite IH by lia. rewrite plus_whole by lia. f_equal. lia.
Qed.

Lemma whole_visits_spec (z : Z) (attempts : list nat) :
  0 <= z -> z + BATCH_SIZE * Z.of_nat (length attempts) < 2 ^ 53 ->
  visits z attempts = of_Z <$> whole_visits z attempts.
Proof.
  revert z. induction attempts as [|n attempts IH]; intros z Hz Hlen; [done|].
  cbn [visits whole_visits]. rewrite fmap_app, fmap_replicate.
  rewrite plus_whole by (cbn [length] in Hlen; unfold BATCH_SIZE in *; lia).
  rewrite IH; [done|unfold BATCH_SIZE; lia|].
  cbn [length] in Hlen. unfold BATCH_SIZE in *. lia.
Qed.

(** The length of an array exceeds 0 when the array is not empty. *)
Lemma positive_array (results : list FlaggedContract.t) :
  Length.positive (Flagged.length (Flagged.Array results))
  = (0 <? length results)%nat.
Proof.
  unfold Flagged.length, Length.positive, gt, ge, of_Z, scaled.
  change (Z.min 0 0) with 0. change (2 ^ (0 - 0)) with 1.
  rewrite !Z.mul_1_r.
  destruct results as [|f results]; [reflexivity|].
  cbn [length]. rewrite (proj2 (Z.leb_le 0 _)) by lia.
  rewrite (proj2 (Z.leb_gt _ 0)) by lia. reflexivity.
Qed.

(** Counts are kept while they are below [2^53]. *)
Lemma counts_plus (x : number) (a d : Z) :
  0 <= a -> 0 <= d -> counts x a -> counts (plus x d) (a + d).
Proof.
  intros Ha Hd Hx Hsum. rewrite Hx by lia. apply plus_whole. lia.
Qed.

Lemma counts_total_add (total : Total.t) (c : Z)
    (results : list FlaggedContract.t) :
  0 <= c -> counts_total total c ->
  counts_total
    (Total.add total (Flagged.length (Flagged.Array results)))
    (c + Z.of_nat (length results)).
Proof.
  intros Hc Htotal Hsum. rewrite Htotal by lia.
  cbn [Total.add Flagged.length]. by rewrite plus_whole by lia.
Qed.

(** ** The result log and the processed identifiers *)

Section Log.

Variable E : Env.

Lemma marked_nil (w : World) : marked [] w = w.
Proof.
  destruct w. unfold marked. simpl. f_equal. set_solver.
Qed.

Lemma marked_added (id : string) (ids : list string) (w : World) :
  marked ids (added id w) = marked (id :: ids) w.
Proof.
  unfold marked, added. simpl. f_equal. set_solver.
Qed.

Lemma forEach_add (contracts : list FlaggedContract.t) (w : World) :
  forEach contracts
    (fun contract => processedIds_add (FlaggedContract.contract_id contract)) w
  = (Ok tt, marked (FlaggedContract.contract_id <$> contracts) w).
Proof.
  revert w. induction contracts as [|c contracts IH]; intros w; simpl.
  - unfold ret. by rewrite marked_nil.
  - unfold bind, processedIds_add. rewrite IH. by rewrite marked_added.
Qed.

(** The loop of [loadProcessedIds]: it adds the identifier of every line up
    to the first one [JSON.parse] refuses, and throws there. *)
Lemma forEach_parse_add (lines : list string) (w : World) :
  forEach lines
    (fun line =>
       contract <- parse_line E line ;;
       processedIds_add (FlaggedContract.contract_id contract)) w
  = (if all_parse (JSON_parse E) lines then Ok tt else Threw SyntaxError,
     marked (FlaggedContract.contract_id
               <$> parsed_prefix (JSON_parse E) lines) w).
Proof.
  revert w. induction lines as [|line lines IH]; intros w; simpl.
  - unfold ret. by rewrite marked_nil.
  - unfold bind at 1 2. unfold parse_line.
    destruct (JSON_parse E line) as [contract|] eqn:Hline; simpl.
    + unfold processedIds_add. rewrite IH. by rewrite marked_added.
    + unfold throw. by rewrite marked_nil.
Qed.

(** What [loadProcessedIds] does, in every case: it never throws, leaves the
    file alone, and adds the identifiers read before the first line that
    does not parse. *)
Lemma loadProcessedIds_spec (w : World) :
  loadProcessedIds E w =
  match file w with
  | None => (Ok tt, emit (Console StartingFresh) w)
  | Some content =>
      let w' :=
        marked (FlaggedContract.contract_id
                  <$> parsed_prefix (JSON_parse E) (lines_of content)) w in
      if all_parse (JSON_parse E) (lines_of content)
      then (Ok tt, emit (Console (LoadedProcessed (size (processedIds w')))) w')
      else (Ok tt, emit (Console StartingFresh) w')
  end.
Proof.
  unfold loadProcessedIds, try_catch, bind at 1, readFile.
  destruct (file w) as [content|] eqn:Hfile; [|reflexivity].
  unfold bind. fold (lines_of content). rewrite forEach_parse_add.
  destruct (all_parse (JSON_parse E) (lines_of content)); reflexivity.
Qed.

Lemma join_ndjson (lines : list string) :
  lines ≠ [] -> join nl lines +:+ nl = ndjson lines.
Proof.
  induction lines as [|line [|line' lines] IH]; [done| |]; intros _.
  - reflexivity.
  - change (join nl (line :: line' :: lines))
      with (line +:+ nl +:+ join nl (line' :: lines)).
    change (ndjson (line :: line' :: lines))
      with (line +:+ nl +:+ ndjson (line' :: lines)).
    rewrite <- IH by done.
    by rewrite !append_assoc.
Qed.

Lemma join_not_empty (lines : list string) :
  lines ≠ [] -> (forall line, line ∈ lines -> line ≠ EmptyString) ->
  join nl lines ≠ EmptyString.
Proof.
  destruct lines as [|line [|line' lines]]; [done| |]; intros _ Hne.
  - simpl. apply Hne. left.
  - simpl. destruct line; [|discriminate].
    exfalso. apply (Hne EmptyString); [left|done].
Qed.

(** [appendFlaggedContracts] on a list whose serialization is not empty. *)
Lemma appendFlaggedContracts_cons (contracts : list FlaggedContract.t)
    (w : World) :
  contracts ≠ [] ->
  (forall c, c ∈ contracts -> JSON_stringify E c ≠ EmptyString) ->
  let text := ndjson (JSON_stringify E <$> contracts) in
  appendFlaggedContracts E contracts w =
  match appendFile E (appends w) with
  | Ok _ =>
      (Ok tt,
       marked (FlaggedContract.contract_id <$> contracts)
         (written text (appending text w)))
  | Threw e => (Threw e, appending text w)
  end.
Proof.
  intros Hcons Hne text. unfold appendFlaggedContracts.
  assert (join nl (JSON_stringify E <$> contracts) ≠ EmptyString) as Hjoin.
  { apply join_not_empty.
    - destruct contracts; [done|discriminate].
    - intros line [c [-> Hc]]%list_elem_of_fmap. by apply Hne. }
  apply String.eqb_neq in Hjoin. rewrite Hjoin. simpl.
  rewrite join_ndjson by (destruct contracts; [done|discriminate]).
  fold text. unfold bind, appendFile_.
  destruct (appendFile E (appends w)) as [[]|e]; [|reflexivity].
  apply forEach_add.
Qed.

Lemma appendFlaggedContracts_nil (w : World) :
  appendFlaggedContracts E [] w = (Ok tt, w).
Proof. reflexivity. Qed.

(** C1. [appendFlaggedContracts] on a non-empty list appends one line per
    result, each the serialization followed by a line feed, and adds the
    results' identifiers to [processedIds] only when [appendFile] has
    succeeded: when it fails, the exception leaves and the set is as before.
    On an empty list it does nothing: no call of [appendFile], the same file,
    the same set. *)
Theorem append_then_mark (contracts : list FlaggedContract.t) (w : World) :
  (forall c, c ∈ contracts -> JSON_stringify E c ≠ EmptyString) ->
  match contracts with
  | [] => appendFlaggedContracts E contracts w = (Ok tt, w)
  | _ :: _ =>
      let text := ndjson (JSON_stringify E <$> contracts) in
      match appendFile E (appends w) with
      | Ok _ =>
          exists w',
            appendFlaggedContracts E contracts w = (Ok tt, w')
            ∧ file w' = Some (default EmptyString (file w) +:+ text)
            ∧ processedIds w' =
                list_to_set (FlaggedContract.contract_id <$> contracts)
                ∪ processedIds w
            ∧ appends w' = S (appends w)
            ∧ trace w' = trace w ++ [AppendFile text]
            ∧ fetches w' = fetches w ∧ creates w' = creates w
      | Threw e =>
          exists w',
            appendFlaggedContracts E contracts w = (Threw e, w')
            ∧ file w' = file w
            ∧ processedIds w' = processedIds w
            ∧ appends w' = S (appends w)
            ∧ trace w' = trace w ++ [AppendFile text]
      end
  end.
Proof.
  intros Hne. destruct contracts as [|c contracts]; [reflexivity|].
  cbv zeta. rewrite appendFlaggedContracts_cons by done.
  destruct (appendFile E (appends w)) as [[]|e]; eexists; (split; [reflexivity|]);
    simpl; done.
Qed.

(** C10. The set is filled from [contract_id], by a successful
    [appendFlaggedContracts] and by [loadProcessedIds] alike, and the filter
    looks up [procurement_id]: a record that the filter selected is left out
    after its result was persisted exactly when its [procurement_id] is the
    [contract_id] of one of the persisted results, which nothing in the
    analyzer makes sure of. *)
Theorem dedup_needs_matching_ids (contracts : list FlaggedContract.t)
    (record : Contract.t) (w w' : World) :
  contracts ≠ [] ->
  (forall c, c ∈ contracts -> JSON_stringify E c ≠ EmptyString) ->
  appendFlaggedContracts E contracts w = (Ok tt, w') ->
  record ∈ filterHighValueContracts (processedIds w) [record] ->
  processedIds w' =
    list_to_set (FlaggedContract.contract_id <$> contracts) ∪ processedIds w
  ∧ (record ∉ filterHighValueContracts (processedIds w') [record] <->
     Contract.procurement_id record
       ∈ FlaggedContract.contract_id <$> contracts)
  ∧ (forall (w0 : World) (content : string),
       file w0 = Some content ->
       exists w1,
         loadProcessedIds E w0 = (Ok tt, w1)
         ∧ processedIds w1 =
             list_to_set (FlaggedContract.contract_id
                            <$> parsed_prefix (JSON_parse E) (lines_of content))
             ∪ processedIds w0).
Proof.
  intros Hcons Hne Happend Hsel.
  rewrite appendFlaggedContracts_cons in Happend by done.
  destruct (appendFile E (appends w)) as [[]|e]; [|discriminate].
  injection Happend as <-.
  apply filterHighValueContracts_elem in Hsel as (Hin & Hhigh & Hnew).
  split; [reflexivity|]. split.
  - rewrite filterHighValueContracts_elem. simpl.
    rewrite elem_of_union, elem_of_list_to_set.
    destruct (decide (Contract.procurement_id record
                        ∈ FlaggedContract.contract_id <$> contracts));
      tauto.
  - intros w0 content Hfile. rewrite loadProcessedIds_spec, Hfile. cbv zeta.
    destruct (all_parse (JSON_parse E) (lines_of content));
      eexists; (split; [reflexivity|]); reflexivity.
Qed.

(** C7, as the code has it.  A line that does not parse ends the load: the
    identifiers of the lines before it are added, the lines after it are not
    read, and [loadProcessedIds] returns without an exception. *)
Theorem load_stops_at_corrupt_line (w : World) (content bad : string)
    (good rest : list string) :
  file w = Some content ->
  lines_of content = good ++ bad :: rest ->
  all_parse (JSON_parse E) good = true ->
  JSON_parse E bad = None ->
  exists w',
    loadProcessedIds E w = (Ok tt, w')
    ∧ processedIds w' =
        list_to_set (FlaggedContract.contract_id
                       <$> parsed_prefix (JSON_parse E) good)
        ∪ processedIds w
    ∧ length (parsed_prefix (JSON_parse E) good) = length good
    ∧ file w' = file w
    ∧ trace w' = trace w ++ [Console StartingFresh].
Proof.
  intros Hfile Hlines Hgood Hbad. rewrite loadProcessedIds_spec, Hfile.
  cbv zeta. rewrite Hlines.
  assert (parsed_prefix (JSON_parse E) (good ++ bad :: rest)
          = parsed_prefix (JSON_parse E) good
          ∧ all_parse (JSON_parse E) (good ++ bad :: rest) = false
          ∧ length (parsed_prefix (JSON_parse E) good) = length good)
    as (-> & -> & Hlen).
  { clear Hlines. induction good as [|line good IH]; simpl.
    - rewrite Hbad. rewrite bool_decide_eq_false_2
        by (intros [? ?]; discriminate). done.
    - simpl in Hgood. apply andb_true_iff in Hgood as [Hline Hgood].
      apply bool_decide_eq_true in Hline as [c Hc]. rewrite Hc.
      destruct (IH Hgood) as (-> & -> & Hlen).
      rewrite bool_decide_eq_true_2 by eauto. simpl. by rewrite Hlen. }
  eexists. split; [reflexivity|]. simpl. done.
Qed.

End Log.

(** ** The classifier *)

Section Classifier.

Variable E : Env.

Lemma classify_spec (contracts : list Contract.t) (w : World) :
  classify E contracts w =
  (classified E (create E (creates w) contracts),
   creating (length contracts)
     (emit (Console (Analyzing (length contracts) (firstId contracts))) w)).
Proof.
  unfold classify, bind, log, create_, classified. simpl.
  destruct (create E (creates w) contracts) as [[[|a content]|]|e];
    try reflexivity.
  unfold parse_reply.
  destruct (JSON_parse_reply E (String a content)) as [[|reply]|];
    reflexivity.
Qed.

(** The equation of the source. *)
Lemma analyzeContractsWithGPT_eq (contracts : list Contract.t)
    (retries : nat) (w : World) :
  analyzeContractsWithGPT E contracts retries w =
  try_catch (classify E contracts)
    (fun error =>
       if (retries <? MAX_RETRIES)%nat then
         log (RetryOpenAI (retries + 1) error) ;;
         sleep (RATE_LIMIT_DELAY * (Z.of_nat retries + 1)) ;;
         analyzeContractsWithGPT E contracts (retries + 1)
       else (log (ErrorAnalyzing error) ;; ret (Flagged.Array []))) w.
Proof.
  unfold analyzeContractsWithGPT.
  destruct (le_lt_dec MAX_RETRIES retries) as [Hge|Hlt].
  - replace (MAX_RETRIES - retries)%nat with 0%nat by lia.
    simpl. unfold try_catch.
    destruct (classify E contracts w) as [[l|e] w']; [reflexivity|].
    destruct (retries <? MAX_RETRIES)%nat eqn:Hb; [|reflexivity].
    apply Nat.ltb_lt in Hb. lia.
  - replace (MAX_RETRIES - retries)%nat
      with (S (MAX_RETRIES - (retries + 1)))%nat by lia.
    reflexivity.
Qed.

(** [analyzeContractsWithGPT] never throws; what it returns is empty or what
    one of its attempts read from the classifier's reply. *)
Lemma analyzeContractsWithGPT_from_spec (remaining : nat)
    (contracts : list Contract.t) (retries : nat) (w : World) :
  exists flagged w' n,
    analyzeContractsWithGPT_from E remaining contracts retries w
    = (Ok flagged, w')
    ∧ classifier_only (S n) w w'
    ∧ (flagged = Flagged.Array []
       ∨ classified E (create E (n + creates w) contracts) = Ok flagged).
Proof.
  revert retries w. induction remaining as [|remaining IH]; intros retries w.
  - simpl. unfold try_catch.
    rewrite classify_spec.
    destruct (classified E (create E (creates w) contracts)) as [l|e] eqn:Hc.
    + exists l, (creating (length contracts)
                   (emit (Console (Analyzing (length contracts)
                                     (firstId contracts))) w)), 0%nat.
      unfold classifier_only. simpl. rewrite Hc. auto 10.
    + destruct (retries <? MAX_RETRIES)%nat;
        (eexists _, _, 0%nat; split; [reflexivity|]);
        unfold classifier_only; simpl; auto 10.
  - simpl. unfold try_catch.
    rewrite classify_spec.
    destruct (classified E (create E (creates w) contracts)) as [l|e] eqn:Hc.
    + exists l, (creating (length contracts)
                   (emit (Console (Analyzing (length contracts)
                                     (firstId contracts))) w)), 0%nat.
      unfold classifier_only. simpl. rewrite Hc. auto 10.
    + destruct (retries <? MAX_RETRIES)%nat.
      * unfold bind, log, sleep.
        match goal with
        | |- context [analyzeContractsWithGPT_from E remaining contracts ?r ?w1] =>
            destruct (IH r w1) as (flagged & w' & n & -> & Honly & Hres)
        end.
        exists flagged, w', (S n). split; [reflexivity|].
        unfold classifier_only in *. simpl in *.
        destruct Honly as (-> & -> & -> & -> & ->).
        replace (n + S (creates w))%nat with (S (n + creates w))%nat
          in Hres by lia.
        repeat split; auto; lia.
      * eexists _, _, 0%nat. split; [reflexivity|].
        unfold classifier_only; simpl; auto 10.
Qed.

Lemma analyzeContractsWithGPT_spec (contracts : list Contract.t)
    (retries : nat) (w : World) :
  exists flagged w' n,
    analyzeContractsWithGPT E contracts retries w = (Ok flagged, w')
    ∧ classifier_only (S n) w w'
    ∧ (flagged = Flagged.Array []
       ∨ classified E (create E (n + creates w) contracts) = Ok flagged).
Proof. apply analyzeContractsWithGPT_from_spec. Qed.

(** One failed attempt that may still be retried. *)
Lemma analyzeContractsWithGPT_retry (contracts : list Contract.t)
    (retries : nat) (w : World) (e : Error) :
  (retries < MAX_RETRIES)%nat ->
  classified E (create E (creates w) contracts) = Threw e ->
  analyzeContractsWithGPT E contracts retries w =
  analyzeContractsWithGPT E contracts (retries + 1)
    (emit (Sleep (RATE_LIMIT_DELAY * (Z.of_nat retries + 1)))
       (emit (Console (RetryOpenAI (retries + 1) e))
          (creating (length contracts)
             (emit (Console (Analyzing (length contracts)
                               (firstId contracts))) w)))).
Proof.
  intros Hlt Hc. rewrite analyzeContractsWithGPT_eq. unfold try_catch.
  rewrite classify_spec, Hc. apply Nat.ltb_lt in Hlt. rewrite Hlt. reflexivity.
Qed.

(** A failed attempt once the retries are used up: logged, and the result
    is empty. *)
Lemma analyzeContractsWithGPT_exhausted (contracts : list Contract.t)
    (retries : nat) (w : World) (e : Error) :
  (MAX_RETRIES <= retries)%nat ->
  classified E (create E (creates w) contracts) = Threw e ->
  analyzeContractsWithGPT E contracts retries w =
  (Ok (Flagged.Array []),
   emit (Console (ErrorAnalyzing e))
     (creating (length contracts)
        (emit (Console (Analyzing (length contracts)
                          (firstId contracts))) w))).
Proof.
  intros Hge Hc. rewrite analyzeContractsWithGPT_eq. unfold try_catch.
  rewrite classify_spec, Hc.
  destruct (retries <? MAX_RETRIES)%nat eqn:Hb; [|reflexivity].
  apply Nat.ltb_lt in Hb. lia.
Qed.

(** Four failed attempts in a row: the result is empty, after delays of one,
    two and three times [RATE_LIMIT_DELAY]. *)
Lemma analyzeContractsWithGPT_gives_up (contracts : list Contract.t)
    (w : World) (e0 e1 e2 e3 : Error) :
  classified E (create E (creates w) contracts) = Threw e0 ->
  classified E (create E (1 + creates w) contracts) = Threw e1 ->
  classified E (create E (2 + creates w) contracts) = Threw e2 ->
  classified E (create E (3 + creates w) contracts) = Threw e3 ->
  exists w',
    analyzeContractsWithGPT E contracts 0 w = (Ok (Flagged.Array []), w')
    ∧ classifier_only 4 w w'
    ∧ trace w' = trace w ++
        [ Console (Analyzing (length contracts) (firstId contracts));
          Create (length contracts);
          Console (RetryOpenAI 1 e0); Sleep (1 * RATE_LIMIT_DELAY);
          Console (Analyzing (length contracts) (firstId contracts));
          Create (length contracts);
          Console (RetryOpenAI 2 e1); Sleep (2 * RATE_LIMIT_DELAY);
          Console (Analyzing (length contracts) (firstId contracts));
          Create (length contracts);
          Console (RetryOpenAI 3 e2); Sleep (3 * RATE_LIMIT_DELAY);
          Console (Analyzing (length contracts) (firstId contracts));
          Create (length contracts);
          Console (ErrorAnalyzing e3) ].
Proof.
  intros H0 H1 H2 H3.
  rewrite (analyzeContractsWithGPT_retry contracts 0 w e0)
    by (done || (unfold MAX_RETRIES; lia)).
  rewrite (analyzeContractsWithGPT_retry contracts (0 + 1) _ e1)
    by (done || (unfold MAX_RETRIES; lia)).
  rewrite (analyzeContractsWithGPT_retry contracts (0 + 1 + 1) _ e2)
    by (done || (unfold MAX_RETRIES; lia)).
  rewrite (analyzeContractsWithGPT_exhausted contracts (0 + 1 + 1 + 1) _ e3)
    by (done || (unfold MAX_RETRIES; lia)).
  eexists. split; [reflexivity|]. split.
  - unfold classifier_only. simpl. done.
  - simpl. rewrite <- !app_assoc. reflexivity.
Qed.

(** C9, as the code has it.  [analyzeContractsWithGPT] never throws, and
    what it returns is the empty array or the [contracts] of the reply to
    one of its attempts, as it is: an array of whatever length, or a value
    that is no array.  An array it returns is no longer than the list of
    candidates only if no reply's array is. *)
Theorem classify_returns_reply_as_is (contracts : list Contract.t)
    (retries : nat) (w : World) :
  exists flagged w' n,
    analyzeContractsWithGPT E contracts retries w = (Ok flagged, w')
    ∧ (creates w <= n + creates w < creates w')%nat
    ∧ (flagged = Flagged.Array []
       ∨ classified E (create E (n + creates w) contracts) = Ok flagged)
    ∧ ((forall k reply,
          classified E (create E k contracts) = Ok (Flagged.Array reply) ->
          (length reply <= length contracts)%nat) ->
       forall results,
         flagged = Flagged.Array results ->
         (length results <= length contracts)%nat).
Proof.
  destruct (analyzeContractsWithGPT_spec contracts retries w)
    as (flagged & w' & n & Hrun & Honly & Hres).
  exists flagged, w', n. split; [done|].
  destruct Honly as (_ & _ & _ & _ & Hcreates).
  split; [lia|]. split; [done|].
  intros Hbound results ->. destruct Hres as [[= ->]|Hres]; [simpl; lia|].
  by eapply Hbound.
Qed.

End Classifier.

(** ** The loop of [analyze] *)

(** Names the outcome of the loop that the goal runs. *)
Ltac case_loop r w' H :=
  match goal with
  | |- context [loop ?E ?fuel ?st ?w] =>
      destruct (loop E fuel st w) as [r w'] eqn:H
  end.

Section Orchestrator.

Variable E : Env.

Lemma readable_typed (contracts : list Contract.t) :
  readable (Some <$> contracts) = Some contracts.
Proof.
  induction contracts as [|c contracts IH]; [done|].
  rewrite fmap_cons. cbn [readable]. by rewrite IH.
Qed.

Lemma readable_Some (records : list (option Contract.t))
    (contracts : list Contract.t) :
  readable records = Some contracts -> records = Some <$> contracts.
Proof.
  revert contracts. induction records as [|[c|] records IH];
    intros contracts; simpl; [by intros [= <-]| |discriminate].
  destruct (readable records) as [l|]; [|discriminate].
  intros [= <-]. by rewrite (IH l).
Qed.

(** The step [if (flagged.length > 0) await
    this.appendFlaggedContracts(flagged)], by the kind of value. *)
Lemma persist_array (results : list FlaggedContract.t) (w : World) :
  persist E (Flagged.Array results) w = appendFlaggedContracts E results w.
Proof.
  unfold persist. rewrite positive_array.
  destruct results; reflexivity.
Qed.

Lemma persist_not_array (length : Length.t) (w : World) :
  persist E (Flagged.NotArray length) w =
  if Length.positive length then (Threw TypeError, w) else (Ok tt, w).
Proof.
  unfold persist. simpl. by destruct (Length.positive length).
Qed.

Lemma persist_idle (flagged : Flagged.t) (w : World) :
  Length.positive (Flagged.length flagged) = false ->
  persist E flagged w = (Ok tt, w).
Proof. unfold persist. by intros ->. Qed.

(** One turn, case by case. *)
Lemma turn_cases (st : RunState) (w : World) :
  turn E st w =
  match getContractsWithRetry E (offset st) 0
          (emit (Console (ProcessingBatch (batchNumber st) (offset st))) w) with
  | (Threw e, w1) => (Threw e, emits (reported st e) w1)
  | (Ok data, w1) =>
      if last_page data
      then (Ok (Break st), emit (Console NoMoreContracts) w1)
      else
        let allContracts := ApiResponse.records (ApiResponse.result data) in
        match readable allContracts with
        | None => (Threw TypeError, emits (reported st TypeError) w1)
        | Some contracts =>
            let highValueContracts :=
              filterHighValueContracts (processedIds w1) contracts in
            match highValueContracts with
            | [] =>
                (Ok (Continue (skip st)),
                 emits [Console (NoNewHighValue (batchNumber st));
                        Sleep RATE_LIMIT_DELAY] w1)
            | _ :: _ =>
                match analyzeContractsWithGPT E highValueContracts 0 w1 with
                | (Threw e, w2) => (Threw e, emits (reported st e) w2)
                | (Ok flagged, w2) =>
                    match persist E flagged w2 with
                    | (Threw e, w3) => (Threw e, emits (reported st e) w3)
                    | (Ok _, w3) =>
                        (Ok (Continue
                               (advance st (count allContracts)
                                  (count highValueContracts)
                                  (Flagged.length flagged))),
                         emits
                           [Console (BatchResults (batchNumber st)
                                       (length allContracts)
                                       (length highValueContracts)
                                       (Flagged.length flagged));
                            Console (RunningTotals
                                       (plus (totalContracts st)
                                          (count allContracts))
                                       (plus (totalHighValue st)
                                          (count highValueContracts))
                                       (Total.add (totalFlagged st)
                                          (Flagged.length flagged)));
                            Sleep RATE_LIMIT_DELAY] w3)
                    end
                end
            end
        end
  end.
Proof.
  unfold turn, try_catch. unfold bind at 1. unfold log at 1.
  unfold bind at 1.
  destruct (getContractsWithRetry E (offset st) 0 _) as [[data|e] w1].
  2: { unfold bind, log, throw, emits, reported, emit. simpl.
       rewrite <- !app_assoc. reflexivity. }
  unfold last_page.
  destruct (negb (ApiResponse.success data)
            || (length (ApiResponse.records (ApiResponse.result data)) =? 0)%nat).
  { reflexivity. }
  cbv zeta. unfold bind at 1. unfold filterRecords at 1.
  destruct (readable (ApiResponse.records (ApiResponse.result data)))
    as [contracts|].
  2: { unfold bind, log, throw, emits, reported, emit. simpl.
       rewrite <- !app_assoc. reflexivity. }
  destruct (filterHighValueContracts (processedIds w1) contracts)
    as [|c high] eqn:Hhigh.
  { simpl. unfold bind, log, sleep, ret, emits, emit, skip. simpl.
    rewrite <- !app_assoc. reflexivity. }
  change (0 <? length (c :: high))%nat with true. cbv iota.
  unfold bind at 1. unfold bind at 1.
  destruct (analyzeContractsWithGPT E (c :: high) 0 w1) as [[flagged|e] w2].
  2: { unfold bind, log, throw, emits, reported, emit. simpl.
       rewrite <- !app_assoc. reflexivity. }
  unfold bind at 1. fold (persist E flagged).
  destruct (persist E flagged w2) as [[[]|e] w3].
  2: { unfold bind, log, throw, emits, reported, emit. simpl.
       rewrite <- !app_assoc. reflexivity. }
  unfold bind, log, sleep, ret, emits, emit, advance. simpl.
  rewrite <- !app_assoc. reflexivity.
Qed.

(** A turn that throws ends the loop, whatever threw. *)
Lemma loop_throws (fuel : nat) (st : RunState) (w w' : World) (e : Error) :
  turn E st w = (Threw e, w') ->
  loop E (S fuel) st w = (Finished (Threw e), w').
Proof. intros Hturn. simpl. by rewrite Hturn. Qed.

Lemma loop_continues (fuel : nat) (st st' : RunState) (w w' : World) :
  turn E st w = (Ok (Continue st'), w') ->
  loop E (S fuel) st w = loop E fuel st' w'.
Proof. intros Hturn. simpl. by rewrite Hturn. Qed.

Lemma loop_breaks (fuel : nat) (st st' : RunState) (w w' : World) :
  turn E st w = (Ok (Break st'), w') ->
  loop E (S fuel) st w = (Finished (Ok st'), w').
Proof. intros Hturn. simpl. by rewrite Hturn. Qed.

(** Turns add up: a loop that is still going after [k] turns goes on from
    where it is. *)
Lemma loop_app (k m : nat) (st0 st : RunState) (w0 w : World) :
  loop E k st0 w0 = (Looping st, w) ->
  loop E (k + m) st0 w0 = loop E m st w.
Proof.
  revert st0 w0. induction k as [|k IH]; intros st0 w0; simpl.
  { by intros [= -> ->]. }
  destruct (turn E st0 w0) as [[[st1|st1]|e] w1]; [|discriminate..].
  apply IH.
Qed.

(** What the [catch] of a turn prints, whatever threw. *)
Lemma turn_throws (st : RunState) (w w' : World) (e : Error) :
  turn E st w = (Threw e, w') ->
  exists tr, trace w' = tr ++ reported st e.
Proof.
  rewrite turn_cases.
  destruct (getContractsWithRetry E (offset st) 0 _) as [[data|e'] w1].
  2: { intros [= -> <-]. by eexists. }
  destruct (last_page data); [discriminate|]. cbv zeta.
  destruct (readable _) as [contracts|]; [|intros [= <- <-]; by eexists].
  destruct (filterHighValueContracts _ _) as [|c high]; [discriminate|].
  destruct (analyzeContractsWithGPT E (c :: high) 0 w1) as [[flagged|e'] w2].
  2: { intros [= -> <-]. by eexists. }
  destruct (persist E flagged w2) as [[[]|e'] w3]; [discriminate|].
  intros [= -> <-]. by eexists.
Qed.

(** C5, as the code has it.  A fetch whose four attempts fail makes the turn
    throw the last exception; the [catch] prints the offset of that batch as
    the last successful one and the loop ends with the exception, however
    many turns came before.  It is not the only fatal condition: the [try]
    of [analyze] holds the whole body of the loop, and every exception of a
    turn, whatever statement threw it, is printed in the same way and ends
    the loop. *)
Theorem fetch_failure_ends_the_run (fuel : nat) (st : RunState) (w : World)
    (e0 e1 e2 e3 : Error) :
  failure (fetch E (fetches w) (offset st)) = Some e0 ->
  failure (fetch E (1 + fetches w) (offset st)) = Some e1 ->
  failure (fetch E (2 + fetches w) (offset st)) = Some e2 ->
  failure (fetch E (3 + fetches w) (offset st)) = Some e3 ->
  (exists w' tr,
     turn E st w = (Threw e3, w')
     ∧ loop E (S fuel) st w = (Finished (Threw e3), w')
     ∧ trace w' =
         tr ++ [ Console (ErrorProcessingBatch (batchNumber st) e3);
                 Console (LastSuccessfulOffset (offset st));
                 Console UseThisOffset ]
     ∧ fetches w' = (4 + fetches w)%nat
     ∧ file w' = file w ∧ processedIds w' = processedIds w
     ∧ forall k st0 w0,
         loop E k st0 w0 = (Looping st, w) ->
         loop E (k + S fuel) st0 w0 = (Finished (Threw e3), w'))
  ∧ (forall st2 w2 w2' e,
       turn E st2 w2 = (Threw e, w2') ->
       loop E (S fuel) st2 w2 = (Finished (Threw e), w2')
       ∧ exists tr,
           trace w2' =
             tr ++ [ Console (ErrorProcessingBatch (batchNumber st2) e);
                     Console (LastSuccessfulOffset (offset st2));
                     Console UseThisOffset ]).
Proof.
  intros H0 H1 H2 H3. split.
  - assert (exists w', turn E st w = (Threw e3, w')
                       ∧ (exists tr, trace w' = tr ++ reported st e3)
                       ∧ fetches w' = (4 + fetches w)%nat
                       ∧ file w' = file w ∧ processedIds w' = processedIds w)
      as (w' & Hturn & [tr Htr] & Hrest).
    { destruct (getContractsWithRetry_gives_up E (offset st)
                  (emit (Console (ProcessingBatch (batchNumber st) (offset st)))
                     w) e0 e1 e2 e3)
        as (w1 & Hrun & Hfetches & _ & Hfile & Hids & _); [done..|].
      rewrite turn_cases, Hrun.
      eexists. split; [reflexivity|]. split; [by eexists|]. done. }
    exists w', tr. split; [done|]. split; [by apply loop_throws|].
    destruct Hrest as (? & ? & ?). do 4 (split; [done|]).
    intros k st0 w0 Hloop. rewrite (loop_app k (S fuel) st0 st w0 w Hloop).
    by apply loop_throws.
  - intros st2 w2 w2' e Hturn. split; [by apply loop_throws|].
    exact (turn_throws st2 w2 w2' e Hturn).
Qed.

(** C8, as the code has it.  Every turn that goes on adds [BATCH_SIZE] to
    [offset] and 1 to [batchNumber], as numbers add: the sum is the integer
    sum as long as it is below [2^53], and the nearest double beyond.  The
    totals are added to only in a turn that has candidates; in a turn
    without candidates the three of them stay as they were, the classifier
    is not called and nothing is appended.  With candidates the classifier
    is called, and [appendFlaggedContracts] exactly when the length of what
    it returned exceeds 0; what it returned is then an array. *)
Theorem turn_advances_offset (st st' : RunState) (w w' : World) :
  turn E st w = (Ok (Continue st'), w') ->
  offset st' = plus (offset st) BATCH_SIZE
  ∧ batchNumber st' = plus (batchNumber st) 1
  ∧ (forall z : Z,
       offset st = z -> Z.abs (z + BATCH_SIZE) < 2 ^ 53 ->
       offset st' = (z + BATCH_SIZE))
  ∧ exists data w1 contracts,
      getContractsWithRetry E (offset st) 0
        (emit (Console (ProcessingBatch (batchNumber st) (offset st))) w)
      = (Ok data, w1)
      ∧ last_page data = false
      ∧ readable (ApiResponse.records (ApiResponse.result data))
        = Some contracts
      ∧ let allContracts := ApiResponse.records (ApiResponse.result data) in
        let highValueContracts :=
          filterHighValueContracts (processedIds w1) contracts in
        match highValueContracts with
        | [] =>
            totalContracts st' = totalContracts st
            ∧ totalHighValue st' = totalHighValue st
            ∧ totalFlagged st' = totalFlagged st
            ∧ creates w' = creates w1 ∧ appends w' = appends w1
            ∧ file w' = file w1 ∧ processedIds w' = processedIds w1
        | _ :: _ =>
            exists flagged w2,
              analyzeContractsWithGPT E highValueContracts 0 w1
              = (Ok flagged, w2)
              ∧ (creates w1 < creates w2)%nat
              ∧ totalContracts st'
                = plus (totalContracts st) (count allContracts)
              ∧ totalHighValue st'
                = plus (totalHighValue st) (count highValueContracts)
              ∧ totalFlagged st'
                = Total.add (totalFlagged st) (Flagged.length flagged)
              ∧ if Length.positive (Flagged.length flagged)
                then
                  exists results w3,
                    flagged = Flagged.Array results
                    ∧ appendFlaggedContracts E results w2 = (Ok tt, w3)
                    ∧ appends w' = appends w3 ∧ file w' = file w3
                    ∧ processedIds w' = processedIds w3
                else
                  appends w' = appends w2 ∧ file w' = file w2
                  ∧ processedIds w' = processedIds w2
        end.
Proof.
  rewrite turn_cases.
  destruct (getContractsWithRetry E (offset st) 0 _) as [[data|e] w1];
    [|discriminate].
  destruct (last_page data) eqn:Hlast; [discriminate|]. cbv zeta.
  destruct (readable _) as [contracts|] eqn:Hread; [|discriminate].
  assert (forall s : RunState,
            offset s = plus (offset st) BATCH_SIZE ->
            forall z : Z,
              offset st = z -> Z.abs (z + BATCH_SIZE) < 2 ^ 53 ->
              offset s = (z + BATCH_SIZE)) as Hwhole.
  { intros s -> z -> Hz. by apply plus_whole. }
  destruct (filterHighValueContracts _ _) as [|c high] eqn:Hhigh.
  { intros [= <- <-]. split; [done|]. split; [done|].
    split; [by apply Hwhole|].
    exists data, w1, contracts. do 3 (split; [done|]). rewrite Hhigh.
    simpl. done. }
  destruct (analyzeContractsWithGPT_spec E (c :: high) 0 w1)
    as (flagged & w2 & n & Hrun & Honly & _).
  rewrite Hrun.
  assert (creates w1 < creates w2)%nat as Hcalled
    by (destruct Honly as (_ & _ & _ & _ & ->); lia).
  destruct (persist E flagged w2) as [[[]|e] w3] eqn:Hpersist; [|discriminate].
  intros [= <- <-]. split; [done|]. split; [done|].
  split; [by apply Hwhole|].
  exists data, w1, contracts. do 3 (split; [done|]). rewrite Hhigh.
  exists flagged, w2. do 5 (split; [done|]).
  destruct (Length.positive (Flagged.length flagged)) eqn:Hpos.
  - destruct flagged as [results|length].
    + rewrite persist_array in Hpersist. by exists results, w3.
    + rewrite persist_not_array in Hpersist. simpl in Hpos.
      rewrite Hpos in Hpersist. discriminate.
  - rewrite persist_idle in Hpersist by done. by injection Hpersist as <-.
Qed.

End Orchestrator.

(** ** Reading the log back *)

Section Reload.

Lemma strip_any_brace (l : list ascii) :
  strip_any white_space ("{"%char :: l) = None.
Proof. reflexivity. Qed.

Lemma strip_any_rev_brace (l : list ascii) :
  strip_any (reverse <$> white_space) ("}"%char :: l) = None.
Proof. reflexivity. Qed.

Lemma strip_any_rev_newline (l : list ascii) :
  strip_any (reverse <$> white_space) (newline :: l) = Some l.
Proof. reflexivity. Qed.

Lemma trimStart_brace (l : list ascii) :
  trimStart ("{"%char :: l) = "{"%char :: l.
Proof.
  unfold trimStart. cbn [length drop_space]. by rewrite strip_any_brace.
Qed.

Lemma trimEnd_brace_newline (k : list ascii) :
  trimEnd (k ++ ["}"%char; newline]) = k ++ ["}"%char].
Proof.
  unfold trimEnd. rewrite reverse_app, length_app.
  change (reverse ["}"%char; newline]) with [newline; "}"%char].
  replace (length k + length ["}"%char; newline])%nat
    with (S (S (length k))) by (simpl; lia).
  cbn [drop_space app]. rewrite strip_any_rev_newline.
  rewrite strip_any_rev_brace.
  by rewrite reverse_cons, reverse_involutive.
Qed.

(** [trim] removes the final line feed of an object's text and no more. *)
Lemma trim_object (body : string) :
  trim (String "{" (body +:+ "}") +:+ nl) = String "{" (body +:+ "}").
Proof.
  unfold trim.
  assert (list_ascii_of_string (String "{" (body +:+ "}") +:+ nl)
          = "{"%char :: (list_ascii_of_string body ++ ["}"%char; newline]))
    as ->.
  { rewrite append_cons. simpl. rewrite !chars_append. simpl.
    by rewrite <- app_assoc. }
  rewrite trimStart_brace.
  change ("{"%char :: list_ascii_of_string body ++ ["}"%char; newline])
    with (("{"%char :: list_ascii_of_string body) ++ ["}"%char; newline]).
  rewrite trimEnd_brace_newline. simpl.
  by rewrite string_of_chars_app, string_of_list_ascii_of_string.
Qed.

Lemma split_cons (line : string) (rest : string) :
  newline ∉ list_ascii_of_string line ->
  split newline (line +:+ nl +:+ rest) = line :: split newline rest.
Proof.
  induction line as [|a line IH]; intros Hno.
  - reflexivity.
  - rewrite append_cons. simpl in Hno. apply not_elem_of_cons in Hno as [Ha Hno].
    simpl. destruct (Ascii.eqb_spec a newline) as [->|_]; [done|].
    by rewrite IH.
Qed.

Lemma split_line (line : string) :
  newline ∉ list_ascii_of_string line -> split newline line = [line].
Proof.
  induction line as [|a line IH]; intros Hno; [done|].
  simpl in Hno. apply not_elem_of_cons in Hno as [Ha Hno].
  simpl. destruct (Ascii.eqb_spec a newline) as [->|_]; [done|].
  by rewrite IH.
Qed.

Lemma split_join (lines : list string) :
  lines ≠ [] ->
  Forall (fun line => newline ∉ list_ascii_of_string line) lines ->
  split newline (join nl lines) = lines.
Proof.
  induction lines as [|line [|line' lines] IH]; [done| |]; intros _ Hall.
  - simpl. apply split_line. by inversion Hall.
  - change (join nl (line :: line' :: lines))
      with (line +:+ nl +:+ join nl (line' :: lines)).
    inversion Hall as [|? ? Hline Hrest]; subst.
    rewrite split_cons by done. by rewrite IH.
Qed.

Lemma one_line_no_newline (s : string) :
  one_line s -> newline ∉ list_ascii_of_string s.
Proof.
  intros (body & -> & Hno). simpl. rewrite chars_append.
  rewrite not_elem_of_cons, not_elem_of_app. split; [done|].
  split; [done|]. simpl. rewrite not_elem_of_cons. split; [done|].
  apply not_elem_of_nil.
Qed.

(** Lines that are each an object's text, joined, are one text that begins
    and ends with a brace. *)
Lemma join_braces (lines : list string) :
  lines ≠ [] -> Forall one_line lines ->
  exists body, join nl lines = String "{" (body +:+ "}").
Proof.
  induction lines as [|line [|line' lines] IH]; [done| |]; intros _ Hall.
  - inversion Hall as [|? ? (body & -> & _) _]; subst. by exists body.
  - inversion Hall as [|? ? (body & -> & _) Hrest]; subst.
    destruct (IH ltac:(done) Hrest) as [body' Hjoin].
    change (join nl (String "{" (body +:+ "}") :: line' :: lines))
      with (String "{" (body +:+ "}") +:+ nl +:+ join nl (line' :: lines)).
    rewrite Hjoin.
    exists (body +:+ "}" +:+ nl +:+ String "{" body').
    rewrite !append_cons, !append_assoc. reflexivity.
Qed.

(** The lines [loadProcessedIds] reads from a log are the lines written. *)
Lemma lines_of_ndjson (lines : list string) :
  lines ≠ [] -> Forall one_line lines ->
  lines_of (ndjson lines) = lines.
Proof.
  intros Hne Hall. unfold lines_of. rewrite <- join_ndjson by done.
  destruct (join_braces lines Hne Hall) as [body Hjoin].
  rewrite Hjoin, trim_object, <- Hjoin.
  apply split_join; [done|].
  eapply Forall_impl; [exact Hall|]. apply one_line_no_newline.
Qed.

Variable E : Env.

Hypothesis stringify_one_line : forall c, one_line (JSON_stringify E c).
Hypothesis parse_stringify :
  forall c,
    FlaggedContract.contract_id <$> JSON_parse E (JSON_stringify E c)
    = Some (FlaggedContract.contract_id c).

Lemma parsed_prefix_stringify (entries : list FlaggedContract.t) :
  all_parse (JSON_parse E) (JSON_stringify E <$> entries) = true
  ∧ FlaggedContract.contract_id
      <$> parsed_prefix (JSON_parse E) (JSON_stringify E <$> entries)
    = FlaggedContract.contract_id <$> entries.
Proof.
  induction entries as [|c entries [IHall IHids]]; [done|]. simpl.
  pose proof (parse_stringify c) as Hc.
  destruct (JSON_parse E (JSON_stringify E c)) as [c'|]; [|discriminate].
  injection Hc as Hc. rewrite bool_decide_eq_true_2 by eauto.
  simpl. split; [exact IHall|]. f_equal; [exact Hc|exact IHids].
Qed.

(** A new process that finds a consistent file rebuilds the set it had. *)
Lemma reload_consistent (w : World) :
  consistent E w ->
  exists w',
    loadProcessedIds E (restart w) = (Ok tt, w')
    ∧ processedIds w' = processedIds w ∧ file w' = file w
    ∧ fetches w' = fetches w ∧ creates w' = creates w
    ∧ appends w' = appends w.
Proof.
  intros (entries & Hfile & Hids). rewrite loadProcessedIds_spec.
  simpl file. rewrite Hfile. destruct entries as [|c entries].
  - simpl. eexists. split; [reflexivity|]. simpl. by rewrite Hids.
  - unfold log_of. cbv zeta.
    rewrite lines_of_ndjson;
      [|done|by apply Forall_fmap, Forall_forall; intros; apply stringify_one_line].
    destruct (parsed_prefix_stringify (c :: entries)) as [-> ->].
    eexists. split; [reflexivity|]. simpl. rewrite Hids, Hfile. simpl.
    split; [set_solver|done].
Qed.

End Reload.

(** ** Two runs over the same source *)

Section Runs.

Variable E : Env.

Lemma request_frame (offset : number) (w w1 : World)
    (x : Result (Result ApiResponse.t)) :
  request E offset w = (x, w1) ->
  w1 = fetching offset w
  ∧ (forall p, x = Ok p ->
       exists response,
         fetch E (fetches w) offset = Ok response ∧ p = json response).
Proof.
  unfold request, bind, fetch_.
  destruct (fetch E (fetches w) offset) as [response|e].
  - destruct (ok response); simpl; intros [= <- <-]; (split; [done|]).
    + intros p [= <-]. eauto.
    + discriminate.
  - intros [= <- <-]. split; [done|]. discriminate.
Qed.

(** [getContractsWithRetry] only calls [fetch], waits and prints; a page it
    returns is the body of one of the responses. *)
Lemma getContractsWithRetry_from_frame (remaining : nat) (offset : number)
    (retries : nat) (w w' : World) (r : Result ApiResponse.t) :
  getContractsWithRetry_from E remaining offset retries w = (r, w') ->
  file w' = file w ∧ processedIds w' = processedIds w
  ∧ creates w' = creates w ∧ appends w' = appends w
  ∧ (forall data, r = Ok data ->
       exists k response,
         fetch E k offset = Ok response ∧ json response = Ok data).
Proof.
  revert retries w w' r.
  induction remaining as [|remaining IH]; intros retries w w' r;
    simpl; unfold bind at 1; unfold try_catch;
    destruct (request E offset w) as [[p|e] w1] eqn:Hreq;
    apply request_frame in Hreq as [-> Hbody].
  - unfold await. intros [= <- <-]. simpl. repeat split; try done.
    intros data ->. destruct (Hbody _ eq_refl) as (response & ? & ?). eauto.
  - destruct (retries <? MAX_RETRIES)%nat; unfold throw;
      intros [= <- <-]; simpl; repeat split; done.
  - unfold await. intros [= <- <-]. simpl. repeat split; try done.
    intros data ->. destruct (Hbody _ eq_refl) as (response & ? & ?). eauto.
  - destruct (retries <? MAX_RETRIES)%nat.
    + unfold bind, log, sleep, promise, await.
      match goal with
      | |- context [getContractsWithRetry_from E remaining offset ?n ?w1] =>
          destruct (getContractsWithRetry_from E remaining offset n w1)
            as [r1 w1'] eqn:Hrec
      end.
      apply IH in Hrec as (? & ? & ? & ? & Hpage).
      intros [= <- <-]. simpl in *. repeat split; done.
    + unfold throw. intros [= <- <-]; simpl; repeat split; done.
Qed.

Lemma getContractsWithRetry_frame (offset : number) (retries : nat)
    (w w' : World) (r : Result ApiResponse.t) :
  getContractsWithRetry E offset retries w = (r, w') ->
  file w' = file w ∧ processedIds w' = processedIds w
  ∧ creates w' = creates w ∧ appends w' = appends w
  ∧ (forall data, r = Ok data ->
       exists k response,
         fetch E k offset = Ok response ∧ json response = Ok data).
Proof. apply getContractsWithRetry_from_frame. Qed.

(** *** The first run keeps the file and the set in step *)

Hypothesis stringify_one_line : forall c, one_line (JSON_stringify E c).

Lemma stringify_not_empty (c : FlaggedContract.t) :
  JSON_stringify E c ≠ EmptyString.
Proof. destruct (stringify_one_line c) as (body & -> & _). discriminate. Qed.

Lemma ndjson_app (l k : list string) : ndjson (l ++ k) = ndjson l +:+ ndjson k.
Proof.
  induction l as [|line l IH]; [done|]. simpl.
  by rewrite IH, !append_assoc.
Qed.

Lemma appendFlaggedContracts_consistent (flagged : list FlaggedContract.t)
    (w w' : World) (r : Result unit) :
  consistent E w ->
  appendFlaggedContracts E flagged w = (r, w') ->
  consistent E w'.
Proof.
  intros (entries & Hfile & Hids). destruct flagged as [|f flagged].
  { intros [= <- <-]. by exists entries. }
  rewrite appendFlaggedContracts_cons
    by (done || intros; apply stringify_not_empty).
  destruct (appendFile E (appends w)) as [[]|e]; intros [= <- <-].
  - exists (entries ++ f :: flagged). simpl. split.
    + rewrite Hfile. destruct entries as [|c entries]; [done|].
      simpl. by rewrite !fmap_app, ndjson_app, !append_assoc.
    + rewrite Hids, fmap_app, list_to_set_app_L. set_solver.
  - by exists entries.
Qed.

Lemma persist_consistent (flagged : Flagged.t) (w w' : World)
    (r : Result unit) :
  consistent E w -> persist E flagged w = (r, w') -> consistent E w'.
Proof.
  intros Hw. destruct flagged as [results|length].
  - rewrite persist_array. by apply appendFlaggedContracts_consistent.
  - rewrite persist_not_array.
    by destruct (Length.positive length); intros [= <- <-].
Qed.

Lemma turn_consistent (st : RunState) (w w' : World) (r : Result Turn) :
  consistent E w -> turn E st w = (r, w') -> consistent E w'.
Proof.
  intros Hw. rewrite turn_cases.
  destruct (getContractsWithRetry E (offset st) 0 _) as [r1 w1] eqn:Hfetch.
  apply getContractsWithRetry_frame in Hfetch as (Hf1 & Hi1 & _).
  assert (consistent E w1) as Hw1.
  { destruct Hw as (entries & ? & ?). exists entries. simpl in *.
    split; congruence. }
  destruct r1 as [data|e].
  2: { intros [= <- <-]. destruct Hw1 as (entries & ? & ?). by exists entries. }
  destruct (last_page data).
  { intros [= <- <-]. destruct Hw1 as (entries & ? & ?). by exists entries. }
  cbv zeta. destruct (readable _) as [contracts|].
  2: { intros [= <- <-]. destruct Hw1 as (entries & ? & ?). by exists entries. }
  destruct (filterHighValueContracts _ _) as [|c high].
  { intros [= <- <-]. destruct Hw1 as (entries & ? & ?). by exists entries. }
  destruct (analyzeContractsWithGPT_spec E (c :: high) 0 w1)
    as (flagged & w2 & n & -> & (Hf2 & Hi2 & _) & _).
  assert (consistent E w2) as Hw2.
  { destruct Hw1 as (entries & ? & ?). exists entries. split; congruence. }
  destruct (persist E flagged w2) as [r3 w3] eqn:Hpersist.
  apply persist_consistent in Hpersist as (entries & ? & ?); [|done].
  destruct r3 as [[]|e]; intros [= <- <-]; by exists entries.
Qed.

Lemma loop_consistent (fuel : nat) (st : RunState) (w w' : World)
    (r : Run RunState) :
  consistent E w -> loop E fuel st w = (r, w') -> consistent E w'.
Proof.
  revert st w. induction fuel as [|fuel IH]; intros st w Hw; simpl.
  { by intros [= <- <-]. }
  destruct (turn E st w) as [[[st'|st']|e] w1] eqn:Hturn;
    pose proof (turn_consistent _ _ _ _ Hw Hturn) as Hw1.
  - by apply IH.
  - by intros [= <- <-].
  - by intros [= <- <-].
Qed.

(** A run that starts without a file ends with the file and the set in
    step. *)
Lemma analyze_consistent (fuel : nat) (startOffset : number) (w w' : World)
    (r : Run unit) :
  file w = None -> processedIds w = ∅ ->
  analyze E fuel startOffset w = (r, w') -> consistent E w'.
Proof.
  intros Hfile Hids. unfold analyze. unfold bind at 1.
  rewrite loadProcessedIds_spec, Hfile. unfold bind, log.
  case_loop r1 w1' Hloop.
  apply loop_consistent in Hloop as (entries & ? & ?).
  2: { exists []. simpl. split; [done|]. rewrite Hids. set_solver. }
  destruct r1 as [[st'|e]|st']; intros [= <- <-]; by exists entries.
Qed.

(** *** A run in which every valuable record is already processed *)

Variable source : number -> ApiResponse.t.

Lemma no_candidates (ids : gset string) (records : list Contract.t) :
  (forall c, c ∈ records -> isHighValue c = true ->
             Contract.procurement_id c ∈ ids) ->
  filterHighValueContracts ids records = [].
Proof.
  intros Hcov.
  destruct (filterHighValueContracts ids records) as [|c high] eqn:Hsel;
    [done|].
  assert (c ∈ filterHighValueContracts ids records) as Hc
    by (rewrite Hsel; left).
  apply filterHighValueContracts_elem in Hc as (Hin & Hhigh & Hnew).
  destruct Hnew. by apply Hcov.
Qed.

(** A turn over a page whose valuable records are all processed already
    neither calls the classifier nor touches the file; it goes on exactly
    when the page is not the last. *)
Lemma readable_elem (records : list (option Contract.t))
    (contracts : list Contract.t) (c : Contract.t) :
  readable records = Some contracts -> c ∈ contracts <-> Some c ∈ records.
Proof.
  intros ->%readable_Some. rewrite list_elem_of_fmap. split.
  - intros Hc. by exists c.
  - intros (c' & [= <-] & Hc). done.
Qed.

Lemma turn_idle (st : RunState) (w w' : World) (r : Result Turn) :
  stable E source ->
  (last_page (source (offset st)) = false ->
   forall c,
     Some c ∈ ApiResponse.records (ApiResponse.result (source (offset st))) ->
     isHighValue c = true -> Contract.procurement_id c ∈ processedIds w) ->
  turn E st w = (r, w') ->
  file w' = file w ∧ processedIds w' = processedIds w
  ∧ creates w' = creates w ∧ appends w' = appends w
  ∧ match r with
    | Ok (Continue st') =>
        st' = skip st ∧ last_page (source (offset st)) = false
    | Ok (Break _) => last_page (source (offset st)) = true
    | Threw _ => True
    end.
Proof.
  intros Hstable Hcov. rewrite turn_cases.
  destruct (getContractsWithRetry E (offset st) 0 _) as [r1 w1] eqn:Hfetch.
  apply getContractsWithRetry_frame in Hfetch as (Hf & Hi & Hc & Ha & Hbody).
  simpl in Hf, Hi, Hc, Ha.
  destruct r1 as [data|e]; [|by intros [= <- <-]].
  destruct (Hbody data eq_refl) as (k & response & Hk & Hjson).
  rewrite (Hstable _ _ _ _ Hk Hjson).
  destruct (last_page (source (offset st))) eqn:Hlast; [by intros [= <- <-]|].
  cbv zeta. destruct (readable _) as [contracts|] eqn:Hread;
    [|by intros [= <- <-]].
  rewrite Hi, no_candidates.
  2: { intros c Hin Hhigh. apply Hcov; [done| |done].
       by apply (readable_elem _ contracts). }
  by intros [= <- <-].
Qed.

Lemma page_offset_next (st : RunState) (j : nat) :
  offset st = page_offset j ->
  offset (skip st) = page_offset (S j).
Proof. intros Hoff. simpl. by rewrite Hoff. Qed.

(** A run over a finite source whose valuable records are all processed
    already: nothing is classified or appended, and the loop ends within the
    number of pages left. *)
Lemma loop_idle (n fuel j : nat) (st : RunState) (w w' : World)
    (r : Run RunState) :
  stable E source -> ends_at source n ->
  covered source n (processedIds w) ->
  offset st = page_offset j -> (j <= n)%nat ->
  loop E fuel st w = (r, w') ->
  file w' = file w ∧ processedIds w' = processedIds w
  ∧ creates w' = creates w ∧ appends w' = appends w
  ∧ ((n - j < fuel)%nat -> exists res, r = Finished res).
Proof.
  intros Hstable [Hbefore Hend]. revert j st w.
  induction fuel as [|fuel IH]; intros j st w Hcov Hoff Hj; simpl.
  { intros [= <- <-]. repeat split; try done. lia. }
  destruct (turn E st w) as [r1 w1] eqn:Hturn.
  apply turn_idle in Hturn as (Hf & Hi & Hc & Ha & Hr); [|done|].
  2: { intros Hlast c Hin Hhigh. rewrite Hoff in Hlast, Hin.
       destruct (decide (j = n)) as [->|Hne]; [congruence|].
       eapply Hcov; [|done..]. lia. }
  destruct r1 as [[st'|st']|e].
  - destruct Hr as [-> Hlast]. intros Hloop.
    assert (j < n)%nat as Hlt.
    { destruct (decide (j = n)) as [->|Hne]; [|lia].
      rewrite Hoff in Hlast. congruence. }
    apply (IH (S j)) in Hloop as (? & ? & ? & ? & Hends);
      [|by rewrite Hi|by apply page_offset_next|lia].
    repeat split; try congruence. intros Hfuel. apply Hends. lia.
  - intros [= <- <-]. repeat split; try done. eauto.
  - intros [= <- <-]. repeat split; try done. eauto.
Qed.

(** *** A run whose classifier flags every candidate *)

(** With such a classifier the first attempt is the answer. *)
Lemma analyzeContractsWithGPT_flags_all (candidates : list Contract.t)
    (w : World) :
  flags_all E ->
  exists flagged w',
    analyzeContractsWithGPT E candidates 0 w = (Ok (Flagged.Array flagged), w')
    ∧ file w' = file w ∧ processedIds w' = processedIds w
    ∧ (forall c, c ∈ candidates ->
         Contract.procurement_id c
           ∈ FlaggedContract.contract_id <$> flagged).
Proof.
  intros Hall. destruct (Hall (creates w) candidates) as (flagged & Hc & Hin).
  exists flagged. rewrite analyzeContractsWithGPT_eq. unfold try_catch.
  rewrite classify_spec, Hc. eexists. split; [reflexivity|]. done.
Qed.

(** A turn that goes on leaves every valuable record of its page
    processed. *)
Lemma turn_covers (st st' : RunState) (w w' : World) :
  stable E source -> flags_all E ->
  turn E st w = (Ok (Continue st'), w') ->
  offset st' = plus (offset st) BATCH_SIZE
  ∧ last_page (source (offset st)) = false
  ∧ processedIds w ⊆ processedIds w'
  ∧ (forall c,
       Some c
         ∈ ApiResponse.records (ApiResponse.result (source (offset st))) ->
       isHighValue c = true -> Contract.procurement_id c ∈ processedIds w').
Proof.
  intros Hstable Hall. rewrite turn_cases.
  destruct (getContractsWithRetry E (offset st) 0 _) as [r1 w1] eqn:Hfetch.
  apply getContractsWithRetry_frame in Hfetch as (_ & Hi & _ & _ & Hbody).
  simpl in Hi.
  destruct r1 as [data|e]; [|discriminate].
  destruct (Hbody data eq_refl) as (k & response & Hk & Hjson).
  rewrite (Hstable _ _ _ _ Hk Hjson).
  destruct (last_page (source (offset st))) eqn:Hlast; [discriminate|].
  cbv zeta.
  destruct (readable _) as [records|] eqn:Hread; [|discriminate].
  assert (forall c ids,
            Some c
              ∈ ApiResponse.records (ApiResponse.result (source (offset st))) ->
            isHighValue c = true ->
            c ∈ filterHighValueContracts ids records
            ∨ Contract.procurement_id c ∈ ids) as Hsplit.
  { intros c ids Hin Hhigh. rewrite filterHighValueContracts_elem.
    apply (readable_elem _ records) in Hin; [|done].
    destruct (decide (Contract.procurement_id c ∈ ids)); auto. }
  destruct (filterHighValueContracts (processedIds w1) records)
    as [|c0 high] eqn:Hsel.
  { intros [= <- <-]. simpl. rewrite Hi. repeat split; try done.
    intros c Hin Hhigh. destruct (Hsplit c (processedIds w) Hin Hhigh)
      as [Hc|Hc]; [|done]. rewrite <- Hi, Hsel in Hc. by apply elem_of_nil in Hc. }
  destruct (analyzeContractsWithGPT_flags_all (c0 :: high) w1 Hall)
    as (flagged & w2 & -> & _ & Hi2 & Hflag).
  rewrite persist_array.
  destruct flagged as [|f flagged].
  { specialize (Hflag c0 ltac:(left)). by apply elem_of_nil in Hflag. }
  rewrite appendFlaggedContracts_cons
    by (done || intros; apply stringify_not_empty).
  destruct (appendFile E (appends w2)) as [[]|e]; [|discriminate].
  intros [= <- <-]. simpl. rewrite Hi2, Hi. repeat split; try done.
  - set_solver.
  - intros c Hin Hhigh.
    change (Contract.procurement_id c
              ∈ list_to_set (FlaggedContract.contract_id <$> f :: flagged)
                ∪ processedIds w).
    rewrite elem_of_union, elem_of_list_to_set.
    destruct (Hsplit c (processedIds w) Hin Hhigh) as [Hc|Hc]; [|by right].
    left. apply (Hflag c). by rewrite <- Hsel, Hi.
Qed.

Lemma turn_breaks (st st' : RunState) (w w' : World) :
  stable E source ->
  turn E st w = (Ok (Break st'), w') ->
  last_page (source (offset st)) = true ∧ processedIds w' = processedIds w.
Proof.
  intros Hstable. rewrite turn_cases.
  destruct (getContractsWithRetry E (offset st) 0 _) as [r1 w1] eqn:Hfetch.
  apply getContractsWithRetry_frame in Hfetch as (_ & Hi & _ & _ & Hbody).
  simpl in Hi.
  destruct r1 as [data|e]; [|discriminate].
  destruct (Hbody data eq_refl) as (k & response & Hk & Hjson).
  rewrite (Hstable _ _ _ _ Hk Hjson).
  destruct (last_page (source (offset st))) eqn:Hlast.
  { by intros [= <- <-]. }
  cbv zeta. destruct (readable _) as [contracts|]; [|discriminate].
  destruct (filterHighValueContracts _ _) as [|c0 high]; [discriminate|].
  destruct (analyzeContractsWithGPT_spec E (c0 :: high) 0 w1)
    as (flagged & w2 & m & -> & _ & _).
  destruct (persist E flagged w2) as [[[]|e] w3]; discriminate.
Qed.

(** A loop that ends by [break] has walked the pages up to the first that
    is the last, and has left their valuable records processed. *)
Lemma loop_covers (fuel j : nat) (st st' : RunState) (w w' : World) :
  stable E source -> flags_all E ->
  offset st = page_offset j ->
  loop E fuel st w = (Finished (Ok st'), w') ->
  processedIds w ⊆ processedIds w'
  ∧ exists n,
      (j <= n)%nat
      ∧ last_page (source (page_offset n)) = true
      ∧ forall i,
          (j <= i < n)%nat ->
          last_page (source (page_offset i)) = false
          ∧ forall c,
              Some c
                ∈ ApiResponse.records
                    (ApiResponse.result (source (page_offset i))) ->
              isHighValue c = true ->
              Contract.procurement_id c ∈ processedIds w'.
Proof.
  intros Hstable Hall. revert j st w.
  induction fuel as [|fuel IH]; intros j st w Hoff; simpl; [discriminate|].
  destruct (turn E st w) as [[[st1|st1]|e] w1] eqn:Hturn; [| |discriminate].
  - apply turn_covers in Hturn as (Hnext & Hlast & Hsub & Hcov); [|done..].
    intros Hloop. apply (IH (S j)) in Hloop as (Hsub' & n & Hn & Hend & Hpages).
    2: { by rewrite Hnext, Hoff. }
    split; [set_solver|]. exists n. split; [lia|]. split; [done|].
    intros i Hi. destruct (decide (i = j)) as [->|Hne].
    + rewrite <- Hoff. split; [done|]. intros c Hin Hhigh.
      apply Hsub'. by apply Hcov.
    + apply Hpages. lia.
  - apply turn_breaks in Hturn as [Hlast Hids]; [|done].
    intros [= <- <-]. split; [by rewrite Hids|].
    exists j. split; [lia|]. rewrite <- Hoff. split; [done|]. intros i Hi. lia.
Qed.

(** A completed first run, with such a classifier, shows that the source is
    finite and leaves every valuable record of its pages processed. *)
Lemma first_run_covers (fuel : nat) (w w' : World) :
  stable E source -> flags_all E ->
  analyze E fuel 0 w = (Finished (Ok tt), w') ->
  exists n, ends_at source n ∧ covered source n (processedIds w').
Proof.
  intros Hstable Hall. unfold analyze. unfold bind at 1.
  destruct (loadProcessedIds E w) as [[[]|e] w0]; [|discriminate].
  unfold bind, log.
  case_loop r1 w1' Hloop.
  destruct r1 as [[st'|e]|st']; [|discriminate..].
  apply (loop_covers fuel 0) in Hloop as (_ & n & _ & Hend & Hpages);
    [|done|done|reflexivity].
  intros [= <-]. exists n. split.
  - split; [|done]. intros j Hj. apply Hpages. lia.
  - intros j c Hj Hin Hhigh. simpl. apply (Hpages j); [lia|done..].
Qed.

End Runs.

(** ** The codec [Demo] meets what is assumed of JSON *)

Section DemoCodec.

Import Demo.

Lemma after_append (p s : string) : after p (p +:+ s) = Some s.
Proof.
  induction p as [|a p IH]; [by destruct s|].
  rewrite append_cons. simpl. by rewrite Ascii.eqb_refl.
Qed.

Lemma escape_no_newline (s : string) :
  newline ∉ list_ascii_of_string (escape s).
Proof.
  induction s as [|a s IH]; simpl; [apply not_elem_of_nil|].
  destruct (Ascii.eqb a quote); [|destruct (Ascii.eqb a backslash);
    [|destruct (Ascii.eqb_spec a newline)]];
    simpl; rewrite ?not_elem_of_cons; repeat split; try done.
Qed.

Lemma unescape_escape (s rest : string) :
  unescape (escape s +:+ String quote rest) = Some (s, rest).
Proof.
  induction s as [|a s IH]; [reflexivity|]. simpl.
  destruct (Ascii.eqb a quote) eqn:Hq.
  { apply Ascii.eqb_eq in Hq as ->. rewrite !append_cons. simpl.
    by rewrite IH. }
  destruct (Ascii.eqb a backslash) eqn:Hb.
  { apply Ascii.eqb_eq in Hb as ->. rewrite !append_cons. simpl.
    by rewrite IH. }
  destruct (Ascii.eqb a newline) eqn:Hn.
  { apply Ascii.eqb_eq in Hn as ->. rewrite !append_cons. simpl.
    by rewrite IH. }
  rewrite append_cons. simpl. by rewrite Hq, Hn, Hb, IH.
Qed.

Lemma demo_one_line (c : FlaggedContract.t) : one_line (stringify c).
Proof.
  exists ((quoted "contract_id" +:+ ":")
          +:+ String quote
                (escape (FlaggedContract.contract_id c)
                 +:+ String quote EmptyString)).
  split.
  - unfold stringify, key. rewrite !append_cons, !append_assoc.
    by rewrite !append_cons, !append_assoc.
  - rewrite chars_append. simpl. rewrite chars_append.
    rewrite !not_elem_of_cons, not_elem_of_app. simpl.
    rewrite not_elem_of_cons.
    repeat split; try done;
      [apply escape_no_newline|apply not_elem_of_nil].
Qed.

Lemma demo_parse_stringify (c : FlaggedContract.t) :
  FlaggedContract.contract_id <$> parse (stringify c)
  = Some (FlaggedContract.contract_id c).
Proof.
  unfold parse, stringify.
  replace (key +:+ String quote
             (escape (FlaggedContract.contract_id c) +:+ String quote "}"))
    with ((key +:+ String quote EmptyString)
          +:+ (escape (FlaggedContract.contract_id c) +:+ String quote "}"))
    by (by rewrite append_assoc).
  by rewrite after_append, unescape_escape.
Qed.

Lemma demo_not_empty (c : FlaggedContract.t) : stringify c ≠ EmptyString.
Proof. discriminate. Qed.

Lemma stringify_shape (id rest : string) :
  stringify (flagged id) +:+ rest
  = (key +:+ String quote EmptyString)
    +:+ (escape id +:+ String quote (String "}" rest)).
Proof.
  unfold stringify. simpl FlaggedContract.contract_id.
  rewrite !append_assoc. f_equal. rewrite !append_cons. f_equal.
  rewrite append_assoc. f_equal.
Qed.

Lemma items_last (fuel : nat) (id : string) :
  items (S fuel) (stringify (flagged id) +:+ "]}") = Some [flagged id].
Proof.
  rewrite stringify_shape. cbn [items]. rewrite after_append, unescape_escape.
  reflexivity.
Qed.

Lemma items_more (fuel : nat) (id more : string) :
  items (S fuel) (stringify (flagged id) +:+ String "," more)
  = match items fuel more with
    | Some l => Some (flagged id :: l)
    | None => None
    end.
Proof.
  rewrite stringify_shape. cbn [items]. rewrite after_append, unescape_escape.
  reflexivity.
Qed.

Lemma length_append (s t : string) :
  String.length (s +:+ t) = (String.length s + String.length t)%nat.
Proof.
  induction s as [|a s IH]; [done|]. rewrite append_cons. simpl. by rewrite IH.
Qed.

Lemma join_cons_cons (x : string) (l : list string) :
  l ≠ [] -> join "," (x :: l) = x +:+ String "," (join "," l).
Proof. destruct l; [done|reflexivity]. Qed.

Lemma texts_cons (id : string) (ids : list string) :
  stringify <$> (flagged <$> id :: ids)
  = stringify (flagged id) :: (stringify <$> (flagged <$> ids)).
Proof. reflexivity. Qed.

Lemma texts_not_nil (id : string) (ids : list string) :
  stringify <$> (flagged <$> id :: ids) ≠ [].
Proof. discriminate. Qed.

Lemma items_join (fuel : nat) (id : string) (ids : list string) :
  (length ids < fuel)%nat ->
  items fuel (join "," (stringify <$> (flagged <$> id :: ids)) +:+ "]}")
  = Some (flagged <$> id :: ids).
Proof.
  revert fuel id. induction ids as [|id' ids IH]; intros fuel id Hfuel;
    (destruct fuel as [|fuel]; [simpl in Hfuel; lia|]).
  - apply items_last.
  - rewrite texts_cons, join_cons_cons by apply texts_not_nil.
    rewrite append_assoc, append_cons, items_more.
    rewrite IH by (simpl in Hfuel; lia). reflexivity.
Qed.

Lemma stringify_head (id rest : string) :
  exists tail, stringify (flagged id) +:+ rest = String "{" tail.
Proof. unfold stringify, key. rewrite !append_cons. eauto. Qed.

Lemma join_length (l : list string) :
  (length l
   <= String.length (join "," (stringify <$> (flagged <$> l))))%nat.
Proof.
  induction l as [|x l IH]; [simpl; lia|].
  destruct l as [|y l].
  - destruct (stringify_head x EmptyString) as [tail Htail].
    rewrite append_empty_r in Htail.
    change (join "," (stringify <$> (flagged <$> [x])))
      with (stringify (flagged x)).
    rewrite Htail. simpl. lia.
  - rewrite texts_cons, join_cons_cons by apply texts_not_nil.
    rewrite length_append.
    set (J := join "," (stringify <$> (flagged <$> y :: l))) in *.
    cbn [String.length length] in *. lia.
Qed.

Lemma parse_reply_reply (ids : list string) :
  parse_reply (reply ids)
  = Some (Reply.value (Some (Flagged.Array (flagged <$> ids)))).
Proof.
  unfold parse_reply, reply.
  assert (forall rest,
            String.eqb (String "{" (quoted "contracts" +:+ ":[") +:+ rest)
              "null" = false) as -> by reflexivity.
  assert (forall rest,
            String.eqb (String "{" (quoted "contracts" +:+ ":[") +:+ rest) "{}"
            = false) as -> by reflexivity.
  rewrite after_append.
  destruct ids as [|id ids]; [reflexivity|].
  assert (exists tail,
            join "," (stringify <$> (flagged <$> id :: ids)) +:+ "]}"
            = String "{" tail) as [tail Htail].
  { destruct ids as [|id' ids].
    - apply stringify_head.
    - rewrite texts_cons, join_cons_cons by apply texts_not_nil.
      rewrite append_assoc. apply stringify_head. }
  rewrite Htail. cbn match. rewrite <- Htail.
  rewrite items_join; [reflexivity|].
  rewrite length_append. pose proof (join_length (id :: ids)) as Hlen.
  set (J := join "," (stringify <$> (flagged <$> id :: ids))) in *.
  cbn [length] in Hlen. lia.
Qed.

Lemma flag_all_flags_all (fetch : nat -> number -> Result Response)
    (appendFile : nat -> Result unit) :
  flags_all (env fetch Examples.flag_all appendFile).
Proof.
  intros k candidates.
  exists (flagged <$> (Contract.procurement_id <$> candidates)). split.
  - unfold classified. simpl. unfold Examples.flag_all.
    assert (exists a text,
              reply (Contract.procurement_id <$> candidates) = String a text)
      as (a & text & Htext) by (unfold reply; rewrite !append_cons; eauto).
    rewrite Htext, <- Htext. by rewrite parse_reply_reply.
  - intros c Hc. rewrite <- list_fmap_compose.
    apply list_elem_of_fmap. exists (Contract.procurement_id c).
    split; [done|]. apply list_elem_of_fmap. eauto.
Qed.
End DemoCodec.

(** ** Running twice *)

Section Resume.

Variable E : Env.

(** A new process over a file that agrees with the set it had, a finite
    source and nothing left to select: the run reloads the set and is
    idle. *)
Lemma reloaded_run_idle (source : number -> ApiResponse.t) (n fuel : nat)
    (w1 w2 : World) (r2 : Run unit) :
  (forall c, one_line (JSON_stringify E c)) ->
  (forall c,
     FlaggedContract.contract_id <$> JSON_parse E (JSON_stringify E c)
     = Some (FlaggedContract.contract_id c)) ->
  stable E source -> ends_at source n ->
  consistent E w1 -> covered source n (processedIds w1) ->
  analyze E fuel 0 (restart w1) = (r2, w2) ->
  file w2 = file w1 ∧ appends w2 = appends w1 ∧ creates w2 = creates w1
  ∧ processedIds w2 = processedIds w1
  ∧ ((n < fuel)%nat -> exists res, r2 = Finished res).
Proof.
  intros Hline Hround Hstable Hends Hw1 Hcov.
  destruct (reload_consistent E Hline Hround w1 Hw1)
    as (w1' & Hload & Hids & Hfile & _ & Hcreates & Happends).
  unfold analyze. unfold bind at 1. rewrite Hload. unfold bind, log.
  case_loop r w2' Hloop.
  apply (loop_idle E source n fuel 0) in Hloop
    as (Hf & Hi & Hc & Ha & Hdone);
    [|done|done|simpl; by rewrite Hids|reflexivity|lia].
  simpl in Hf, Hi, Hc, Ha.
  destruct r as [[st'|e]|st']; intros [= <- <-]; simpl;
    (repeat split; [congruence..|]); intros Hfuel; eauto.
  destruct Hdone as [res Hres]; [lia|discriminate].
Qed.

(** *** A classifier that judges each record on its own *)

Variable source : number -> ApiResponse.t.
Variable judge : Contract.t -> option FlaggedContract.t.

Hypothesis stringify_one_line : forall c, one_line (JSON_stringify E c).
Hypothesis source_stable : stable E source.
Hypothesis judged : per_record E judge.

(** With such a classifier the first attempt is the answer. *)
Lemma analyzeContractsWithGPT_per_record (candidates : list Contract.t)
    (w : World) :
  exists w',
    analyzeContractsWithGPT E candidates 0 w
    = (Ok (Flagged.Array (omap judge candidates)), w')
    ∧ file w' = file w ∧ processedIds w' = processedIds w
    ∧ appends w' = appends w ∧ creates w' = S (creates w).
Proof.
  rewrite analyzeContractsWithGPT_eq. unfold try_catch.
  rewrite classify_spec, (proj2 judged). eexists. split; [reflexivity|]. done.
Qed.

Lemma appendFlaggedContracts_ids (results : list FlaggedContract.t)
    (w w' : World) :
  appendFlaggedContracts E results w = (Ok tt, w') ->
  processedIds w' =
    list_to_set (FlaggedContract.contract_id <$> results) ∪ processedIds w.
Proof.
  destruct results as [|f results].
  { intros [= <-]. set_solver. }
  rewrite appendFlaggedContracts_cons
    by (done || intros; apply (stringify_not_empty E stringify_one_line)).
  destruct (appendFile E (appends w)) as [[]|e]; [|discriminate].
  by intros [= <-].
Qed.

(** A turn that goes on leaves every valuable record of its page in the
    set, unless the classifier does not flag it. *)
Lemma turn_settles (st st' : RunState) (w w' : World) :
  turn E st w = (Ok (Continue st'), w') ->
  offset st' = plus (offset st) BATCH_SIZE
  ∧ last_page (source (offset st)) = false
  ∧ processedIds w ⊆ processedIds w'
  ∧ (forall c,
       Some c
         ∈ ApiResponse.records (ApiResponse.result (source (offset st))) ->
       isHighValue c = true ->
       Contract.procurement_id c ∈ processedIds w' ∨ judge c = None).
Proof.
  rewrite turn_cases.
  destruct (getContractsWithRetry E (offset st) 0 _) as [r1 w1] eqn:Hfetch.
  apply getContractsWithRetry_frame in Hfetch as (_ & Hi & _ & _ & Hbody).
  simpl in Hi.
  destruct r1 as [data|e]; [|discriminate].
  destruct (Hbody data eq_refl) as (k & response & Hk & Hjson).
  rewrite (source_stable _ _ _ _ Hk Hjson).
  destruct (last_page (source (offset st))) eqn:Hlast; [discriminate|].
  cbv zeta.
  destruct (readable _) as [records|] eqn:Hread; [|discriminate].
  assert (forall c,
            Some c
              ∈ ApiResponse.records (ApiResponse.result (source (offset st))) ->
            isHighValue c = true ->
            c ∈ filterHighValueContracts (processedIds w) records
            ∨ Contract.procurement_id c ∈ processedIds w) as Hsplit.
  { intros c Hin Hhigh. rewrite filterHighValueContracts_elem.
    apply (readable_elem _ records) in Hin; [|done].
    destruct (decide (Contract.procurement_id c ∈ processedIds w)); auto. }
  rewrite Hi.
  destruct (filterHighValueContracts (processedIds w) records)
    as [|c0 high] eqn:Hsel.
  { intros [= <- <-]. simpl. rewrite Hi. repeat split; try done.
    intros c Hin Hhigh. destruct (Hsplit c Hin Hhigh) as [Hc|Hc]; [|by left].
    by apply elem_of_nil in Hc. }
  destruct (analyzeContractsWithGPT_per_record (c0 :: high) w1)
    as (w2 & -> & _ & Hi2 & _).
  rewrite persist_array.
  destruct (appendFlaggedContracts E _ w2) as [[[]|e] w3] eqn:Happend;
    [|discriminate].
  apply appendFlaggedContracts_ids in Happend.
  intros [= <- <-]. simpl. rewrite Happend, Hi2, Hi.
  repeat split; try done; [set_solver|].
  intros c Hin Hhigh. destruct (Hsplit c Hin Hhigh) as [Hc|Hc];
    [|left; set_solver].
  destruct (judge c) as [f|] eqn:Hjudge; [left|by right].
  rewrite elem_of_union, elem_of_list_to_set. left.
  apply list_elem_of_fmap. exists f.
  split; [symmetry; by apply (proj1 judged)|].
  apply list_elem_of_omap. by exists c.
Qed.

(** A loop that ends by [break] has walked the pages up to the first that
    is the last, and has left their valuable records in the set or
    unflagged. *)
Lemma loop_settles (fuel j : nat) (st st' : RunState) (w w' : World) :
  offset st = page_offset j ->
  loop E fuel st w = (Finished (Ok st'), w') ->
  processedIds w ⊆ processedIds w'
  ∧ exists n,
      (j <= n)%nat
      ∧ last_page (source (page_offset n)) = true
      ∧ forall i,
          (j <= i < n)%nat ->
          last_page (source (page_offset i)) = false
          ∧ forall c,
              Some c
                ∈ ApiResponse.records
                    (ApiResponse.result (source (page_offset i))) ->
              isHighValue c = true ->
              Contract.procurement_id c ∈ processedIds w' ∨ judge c = None.
Proof.
  revert j st w.
  induction fuel as [|fuel IH]; intros j st w Hoff; simpl; [discriminate|].
  destruct (turn E st w) as [[[st1|st1]|e] w1] eqn:Hturn; [| |discriminate].
  - apply turn_settles in Hturn as (Hnext & Hlast & Hsub & Hcov).
    intros Hloop. apply (IH (S j)) in Hloop as (Hsub' & n & Hn & Hend & Hpages).
    2: { by rewrite Hnext, Hoff. }
    split; [set_solver|]. exists n. split; [lia|]. split; [done|].
    intros i Hi. destruct (decide (i = j)) as [->|Hne].
    + rewrite <- Hoff. split; [done|]. intros c Hin Hhigh.
      destruct (Hcov c Hin Hhigh) as [Hc|Hc]; [left; by apply Hsub'|by right].
    + apply Hpages. lia.
  - apply (turn_breaks E source) in Hturn as [Hlast Hids]; [|done].
    intros [= <- <-]. split; [by rewrite Hids|].
    exists j. split; [lia|]. rewrite <- Hoff. split; [done|]. intros i Hi. lia.
Qed.

Lemma first_run_settles (fuel : nat) (w w' : World) :
  analyze E fuel 0 w = (Finished (Ok tt), w') ->
  exists n, ends_at source n ∧ settled source n judge (processedIds w').
Proof.
  unfold analyze. unfold bind at 1.
  destruct (loadProcessedIds E w) as [[[]|e] w0]; [|discriminate].
  unfold bind, log.
  case_loop r1 w1' Hloop.
  destruct r1 as [[st'|e]|st']; [|discriminate..].
  apply (loop_settles fuel 0) in Hloop as (_ & n & _ & Hend & Hpages);
    [|reflexivity].
  intros [= <-]. exists n. split.
  - split; [|done]. intros j Hj. apply Hpages. lia.
  - intros j c Hj Hin Hhigh. simpl. apply (Hpages j); [lia|done..].
Qed.

Lemma omap_none (candidates : list Contract.t) :
  (forall c, c ∈ candidates -> judge c = None) -> omap judge candidates = [].
Proof.
  induction candidates as [|c candidates IH]; intros Hnone; [done|].
  cbn [omap list_omap]. rewrite (Hnone c) by left.
  apply IH. intros c' Hc'. apply Hnone. by right.
Qed.

(** A turn over a page whose valuable records are in the set or are not
    flagged appends nothing; the classifier may be called. *)
Lemma turn_settled (st : RunState) (w w' : World) (r : Result Turn) :
  (last_page (source (offset st)) = false ->
   forall c,
     Some c ∈ ApiResponse.records (ApiResponse.result (source (offset st))) ->
     isHighValue c = true ->
     Contract.procurement_id c ∈ processedIds w ∨ judge c = None) ->
  turn E st w = (r, w') ->
  file w' = file w ∧ processedIds w' = processedIds w
  ∧ appends w' = appends w ∧ (creates w <= creates w')%nat
  ∧ match r with
    | Ok (Continue st') =>
        offset st' = plus (offset st) BATCH_SIZE
        ∧ last_page (source (offset st)) = false
    | Ok (Break _) => last_page (source (offset st)) = true
    | Threw _ => True
    end.
Proof.
  intros Hcov. rewrite turn_cases.
  destruct (getContractsWithRetry E (offset st) 0 _) as [r1 w1] eqn:Hfetch.
  apply getContractsWithRetry_frame in Hfetch as (Hf & Hi & Hc & Ha & Hbody).
  simpl in Hf, Hi, Hc, Ha.
  destruct r1 as [data|e]; [|intros [= <- <-]; simpl; repeat split; (done || lia)].
  destruct (Hbody data eq_refl) as (k & response & Hk & Hjson).
  rewrite (source_stable _ _ _ _ Hk Hjson).
  destruct (last_page (source (offset st))) eqn:Hlast;
    [intros [= <- <-]; simpl; repeat split; (done || lia)|].
  cbv zeta. destruct (readable _) as [contracts|] eqn:Hread;
    [|intros [= <- <-]; simpl; repeat split; (done || lia)].
  destruct (filterHighValueContracts _ _) as [|c0 high] eqn:Hsel;
    [intros [= <- <-]; simpl; repeat split; (done || lia)|].
  destruct (analyzeContractsWithGPT_per_record (c0 :: high) w1)
    as (w2 & -> & Hf2 & Hi2 & Ha2 & Hc2).
  rewrite omap_none, persist_array.
  2: { intros c Hin. rewrite <- Hsel in Hin.
       apply filterHighValueContracts_elem in Hin as (Hin & Hhigh & Hnew).
       apply (readable_elem _ contracts c Hread) in Hin.
       destruct (Hcov eq_refl c Hin Hhigh) as [Hc'|Hc']; [|done].
       rewrite Hi in Hnew. done. }
  intros [= <- <-]. simpl. repeat split; (congruence || lia).
Qed.

(** A run over a finite source whose valuable records are in the set or not
    flagged: nothing is appended, and the loop ends within the number of
    pages left. *)
Lemma loop_settled (n fuel j : nat) (st : RunState) (w w' : World)
    (r : Run RunState) :
  ends_at source n ->
  settled source n judge (processedIds w) ->
  offset st = page_offset j -> (j <= n)%nat ->
  loop E fuel st w = (r, w') ->
  file w' = file w ∧ processedIds w' = processedIds w
  ∧ appends w' = appends w ∧ (creates w <= creates w')%nat
  ∧ ((n - j < fuel)%nat -> exists res, r = Finished res).
Proof.
  intros [Hbefore Hend]. revert j st w.
  induction fuel as [|fuel IH]; intros j st w Hcov Hoff Hj; simpl.
  { intros [= <- <-]. repeat split; try done. lia. }
  destruct (turn E st w) as [r1 w1] eqn:Hturn.
  apply turn_settled in Hturn as (Hf & Hi & Ha & Hc & Hr).
  2: { intros Hlast c Hin Hhigh. rewrite Hoff in Hlast, Hin.
       destruct (decide (j = n)) as [->|Hne]; [congruence|].
       eapply Hcov; [|done..]. lia. }
  destruct r1 as [[st'|st']|e].
  - destruct Hr as [Hnext Hlast]. intros Hloop.
    assert (j < n)%nat as Hlt.
    { destruct (decide (j = n)) as [->|Hne]; [|lia].
      rewrite Hoff in Hlast. congruence. }
    apply (IH (S j)) in Hloop as (? & ? & ? & ? & Hends);
      [|by rewrite Hi|by rewrite Hnext, Hoff|lia].
    repeat split; try congruence; [lia|]. intros Hfuel. apply Hends. lia.
  - intros [= <- <-]. repeat split; try done. eauto.
  - intros [= <- <-]. repeat split; try done. eauto.
Qed.

Hypothesis parse_stringify :
  forall c,
    FlaggedContract.contract_id <$> JSON_parse E (JSON_stringify E c)
    = Some (FlaggedContract.contract_id c).

Lemma reloaded_run_settled (n fuel : nat) (w1 w2 : World) (r2 : Run unit) :
  ends_at source n ->
  consistent E w1 -> settled source n judge (processedIds w1) ->
  analyze E fuel 0 (restart w1) = (r2, w2) ->
  file w2 = file w1 ∧ appends w2 = appends w1
  ∧ processedIds w2 = processedIds w1
  ∧ (creates w1 <= creates w2)%nat
  ∧ ((n < fuel)%nat -> exists res, r2 = Finished res).
Proof.
  intros Hends Hw1 Hcov.
  destruct (reload_consistent E stringify_one_line parse_stringify w1 Hw1)
    as (w1' & Hload & Hids & Hfile & _ & Hcreates & Happends).
  unfold analyze. unfold bind at 1. rewrite Hload. unfold bind, log.
  case_loop r w2' Hloop.
  apply (loop_settled n fuel 0) in Hloop
    as (Hf & Hi & Ha & Hc & Hdone);
    [|done|simpl; by rewrite Hids|reflexivity|lia].
  simpl in Hf, Hi, Hc, Ha.
  destruct r as [[st'|e]|st']; intros [= <- <-]; simpl;
    (split; [congruence|]); (split; [congruence|]); (split; [congruence|]);
    (split; [lia|]); intros Hfuel; eauto.
  destruct Hdone as [res Hres]; [lia|discriminate].
Qed.

End Resume.

Section Twice.

Variable E : Env.


(** The condition of the theorem above is met when the classifier flags
    every candidate under the candidate's own identifier: then a completed
    first run makes the second one idle. *)
Lemma all_flagged_second_run_idle (source : number -> ApiResponse.t)
    (fuel1 fuel2 : nat) (w0 w1 w2 : World) (r2 : Run unit) :
  (forall c, one_line (JSON_stringify E c)) ->
  (forall c,
     FlaggedContract.contract_id <$> JSON_parse E (JSON_stringify E c)
     = Some (FlaggedContract.contract_id c)) ->
  stable E source -> flags_all E ->
  file w0 = None -> processedIds w0 = ∅ ->
  analyze E fuel1 0 w0 = (Finished (Ok tt), w1) ->
  analyze E fuel2 0 (restart w1) = (r2, w2) ->
  file w2 = file w1 ∧ appends w2 = appends w1 ∧ creates w2 = creates w1
  ∧ processedIds w2 = processedIds w1.
Proof.
  intros Hline Hround Hstable Hall Hfile0 Hids0 Hrun1 Hrun2.
  pose proof (analyze_consistent E Hline fuel1 0 w0 w1 _ Hfile0 Hids0 Hrun1)
    as Hw1.
  destruct (first_run_covers E Hline source fuel1 w0 w1 Hstable Hall Hrun1)
    as (n & Hends & Hcov).
  destruct (reloaded_run_idle E source n fuel2 w1 w2 r2 Hline Hround Hstable
              Hends Hw1 Hcov Hrun2) as (? & ? & ? & ? & _).
  done.
Qed.


End Twice.

(** ** The two retrying calls, for every behaviour of the other side *)

Section Schedules.

Variable E : Env.

Lemma failure_none (r : Result Response) :
  failure r = None -> exists response, r = Ok response ∧ ok response = true.
Proof.
  destruct r as [response|e]; [|discriminate]. simpl.
  destruct (ok response) eqn:Hok; [|discriminate]. eauto.
Qed.

(** [getContractsWithRetry] in full: the attempts that failed, each followed
    by its message and its wait, then the attempt that ends the call. *)
Lemma getContractsWithRetry_from_schedule (remaining : nat) (offset : number)
    (retries : nat) (w : World) :
  exists errors r w',
    getContractsWithRetry_from E remaining offset retries w = (r, w')
    ∧ (length errors <= remaining)%nat
    ∧ (length errors <= MAX_RETRIES - retries)%nat
    ∧ (forall i e,
         errors !! i = Some e ->
         failure (fetch E (i + fetches w) offset) = Some e)
    ∧ trace w' =
        trace w ++ backoff [Fetch offset] RetryFetch retries errors
        ++ [Fetch offset]
    ∧ fetches w' = S (length errors + fetches w)
    ∧ file w' = file w ∧ processedIds w' = processedIds w
    ∧ creates w' = creates w ∧ appends w' = appends w
    ∧ match failure (fetch E (length errors + fetches w) offset) with
      | None =>
          exists response,
            fetch E (length errors + fetches w) offset = Ok response
            ∧ r = json response
      | Some e =>
          r = Threw e
          ∧ (length errors = remaining
             ∨ MAX_RETRIES <= retries + length errors)%nat
      end.
Proof.
  revert retries w. induction remaining as [|remaining IH]; intros retries w;
    simpl; unfold bind at 1; unfold try_catch;
    destruct (failure (fetch E (fetches w) offset)) as [e|] eqn:Hf.
  - rewrite (request_failure _ _ _ _ Hf).
    exists []. simpl. rewrite Hf.
    destruct (retries <? MAX_RETRIES)%nat; unfold throw;
      (eexists _, _; split; [reflexivity|]); simpl;
      repeat split; try done; try lia; auto.
  - destruct (failure_none _ Hf) as (response & Hfetch & Hok).
    rewrite (request_success _ _ _ _ Hfetch Hok). unfold await.
    exists []. simpl. rewrite Hf.
    eexists _, _. split; [reflexivity|]. simpl.
    repeat split; try done; try lia. eauto.
  - rewrite (request_failure _ _ _ _ Hf).
    destruct (retries <? MAX_RETRIES)%nat eqn:Hlt.
    + apply Nat.ltb_lt in Hlt.
      unfold bind, log, sleep, promise, await.
      match goal with
      | |- context [getContractsWithRetry_from E remaining offset ?n ?w1] =>
          destruct (IH n w1)
            as (errors & r & w' & -> & Hlen & Hmax & Herr & Htr & Hfetches
                & Hfile & Hids & Hcreates & Happends & Hend)
      end.
      simpl in Herr, Htr, Hfetches, Hfile, Hids, Hcreates, Happends, Hend.
      exists (e :: errors), r, w'. split; [reflexivity|]. simpl.
      split; [lia|]. split; [lia|]. split.
      { intros [|i] e'; simpl.
        - by intros [= <-].
        - intros Hi. rewrite <- Nat.add_succ_r. by apply Herr. }
      split; [rewrite Htr, <- !app_assoc; reflexivity|].
      split; [rewrite Hfetches; lia|].
      do 4 (split; [done|]).
      rewrite Nat.add_succ_r in Hend.
      destruct (failure (fetch E (S (length errors + fetches w)) offset));
        [|done].
      destruct Hend as [-> Hend]. split; [done|]. lia.
    + unfold throw. exists []. simpl. rewrite Hf.
      apply Nat.ltb_ge in Hlt.
      eexists _, _; split; [reflexivity|]. simpl.
      repeat split; try done; try lia.
  - destruct (failure_none _ Hf) as (response & Hfetch & Hok).
    rewrite (request_success _ _ _ _ Hfetch Hok). unfold await.
    exists []. simpl. rewrite Hf.
    eexists _, _. split; [reflexivity|]. simpl.
    repeat split; try done; try lia. eauto.
Qed.

(** [analyzeContractsWithGPT] in full. *)
Lemma analyzeContractsWithGPT_from_schedule (remaining : nat)
    (contracts : list Contract.t) (retries : nat) (w : World) :
  exists errors flagged w',
    analyzeContractsWithGPT_from E remaining contracts retries w
    = (Ok flagged, w')
    ∧ (length errors <= remaining)%nat
    ∧ (length errors <= MAX_RETRIES - retries)%nat
    ∧ (forall i e,
         errors !! i = Some e ->
         classified E (create E (i + creates w) contracts) = Threw e)
    ∧ creates w' = S (length errors + creates w)
    ∧ file w' = file w ∧ processedIds w' = processedIds w
    ∧ fetches w' = fetches w ∧ appends w' = appends w
    ∧ match classified E (create E (length errors + creates w) contracts) with
      | Ok reply =>
          flagged = reply
          ∧ trace w' =
              trace w
              ++ backoff (submitted contracts) RetryOpenAI retries errors
              ++ submitted contracts
      | Threw e =>
          flagged = Flagged.Array []
          ∧ (length errors = remaining
             ∨ MAX_RETRIES <= retries + length errors)%nat
          ∧ trace w' =
              trace w
              ++ backoff (submitted contracts) RetryOpenAI retries errors
              ++ submitted contracts ++ [Console (ErrorAnalyzing e)]
      end.
Proof.
  revert retries w. induction remaining as [|remaining IH]; intros retries w;
    simpl; unfold try_catch; rewrite classify_spec;
    destruct (classified E (create E (creates w) contracts)) as [l|e] eqn:Hc.
  - exists []. simpl. rewrite Hc. eexists _, _. split; [reflexivity|]. simpl.
    rewrite <- !app_assoc. repeat split; try done; lia.
  - exists []. simpl. rewrite Hc.
    destruct (retries <? MAX_RETRIES)%nat;
      (eexists _, _; split; [reflexivity|]); simpl; rewrite <- !app_assoc;
      repeat split; try done; try lia; auto.
  - exists []. simpl. rewrite Hc. eexists _, _. split; [reflexivity|]. simpl.
    rewrite <- !app_assoc. repeat split; try done; lia.
  - destruct (retries <? MAX_RETRIES)%nat eqn:Hlt.
    + apply Nat.ltb_lt in Hlt. unfold bind, log, sleep.
      match goal with
      | |- context [analyzeContractsWithGPT_from E remaining contracts ?n ?w1] =>
          destruct (IH n w1)
            as (errors & flagged & w' & -> & Hlen & Hmax & Herr & Hcreates
                & Hfile & Hids & Hfetches & Happends & Hend)
      end.
      simpl in Herr, Hcreates, Hfile, Hids, Hfetches, Happends, Hend.
      exists (e :: errors), flagged, w'. split; [reflexivity|]. simpl.
      split; [lia|]. split; [lia|]. split.
      { intros [|i] e'; simpl.
        - by intros [= <-].
        - intros Hi. rewrite <- Nat.add_succ_r. by apply Herr. }
      split; [rewrite Hcreates; lia|].
      do 4 (split; [done|]).
      rewrite Nat.add_succ_r in Hend.
      destruct (classified E (create E (S (length errors + creates w))
                                contracts)).
      * destruct Hend as [-> ->]. split; [done|].
        rewrite <- !app_assoc. reflexivity.
      * destruct Hend as (-> & Hend & ->). split; [done|]. split; [lia|].
        rewrite <- !app_assoc. reflexivity.
    + apply Nat.ltb_ge in Hlt. exists []. simpl. rewrite Hc.
      eexists _, _; split; [reflexivity|]. simpl. rewrite <- !app_assoc.
      repeat split; try done; try lia.
Qed.

(** Whatever the network does, [getContractsWithRetry] makes one attempt
    more than the number of attempts that failed before it, and at most
    [MAX_RETRIES] of them are retried; the wait after the failure number
    [i] is [i] times [RATE_LIMIT_DELAY]; every attempt asks for the same
    offset; the call ends with the body of the first response whose status
    is ok, or with the exception of the attempt made when no retry is left;
    the file, the set and the other calls are not touched. *)
Theorem fetch_retry_schedule (offset : number) (retries : nat) (w : World) :
  exists errors r w',
    getContractsWithRetry E offset retries w = (r, w')
    ∧ (length errors <= MAX_RETRIES - retries)%nat
    ∧ (forall i e,
         errors !! i = Some e ->
         failure (fetch E (i + fetches w) offset) = Some e)
    ∧ trace w' =
        trace w ++ backoff [Fetch offset] RetryFetch retries errors
        ++ [Fetch offset]
    ∧ fetches w' = S (length errors + fetches w)
    ∧ file w' = file w ∧ processedIds w' = processedIds w
    ∧ creates w' = creates w ∧ appends w' = appends w
    ∧ match failure (fetch E (length errors + fetches w) offset) with
      | None =>
          exists response,
            fetch E (length errors + fetches w) offset = Ok response
            ∧ r = json response
      | Some e =>
          r = Threw e ∧ length errors = (MAX_RETRIES - retries)%nat
      end.
Proof.
  destruct (getContractsWithRetry_from_schedule (MAX_RETRIES - retries) offset
              retries w)
    as (errors & r & w' & Hrun & Hlen & _ & Herr & Htr & Hfetches & Hfile
        & Hids & Hcreates & Happends & Hend).
  exists errors, r, w'. do 9 (split; [done|]).
  destruct (failure (fetch E (length errors + fetches w) offset)); [|done].
  destruct Hend as [-> Hend]. split; [done|]. lia.
Qed.

(** Whatever the classifier does, [analyzeContractsWithGPT] returns
    without an exception, after one call more than the number of attempts
    that failed (by an exception of the call, by a reply that does not
    parse or by a reply that is [null]), of which at most [MAX_RETRIES] are
    retried, with waits of one, two and three times [RATE_LIMIT_DELAY]; what
    it returns is what the last attempt read, array or not, or the empty
    array, with the error printed, when the last attempt failed too; the
    file, the set and the other calls are not touched. *)
Theorem classifier_retry_schedule (contracts : list Contract.t)
    (retries : nat) (w : World) :
  exists errors flagged w',
    analyzeContractsWithGPT E contracts retries w = (Ok flagged, w')
    ∧ (length errors <= MAX_RETRIES - retries)%nat
    ∧ (forall i e,
         errors !! i = Some e ->
         classified E (create E (i + creates w) contracts) = Threw e)
    ∧ creates w' = S (length errors + creates w)
    ∧ file w' = file w ∧ processedIds w' = processedIds w
    ∧ fetches w' = fetches w ∧ appends w' = appends w
    ∧ match classified E (create E (length errors + creates w) contracts) with
      | Ok reply =>
          flagged = reply
          ∧ trace w' =
              trace w
              ++ backoff (submitted contracts) RetryOpenAI retries errors
              ++ submitted contracts
      | Threw e =>
          flagged = Flagged.Array []
          ∧ length errors = (MAX_RETRIES - retries)%nat
          ∧ trace w' =
              trace w
              ++ backoff (submitted contracts) RetryOpenAI retries errors
              ++ submitted contracts ++ [Console (ErrorAnalyzing e)]
      end.
Proof.
  destruct (analyzeContractsWithGPT_from_schedule (MAX_RETRIES - retries)
              contracts retries w)
    as (errors & flagged & w' & Hrun & Hlen & _ & Herr & Hcreates & Hfile
        & Hids & Hfetches & Happends & Hend).
  exists errors, flagged, w'. do 8 (split; [done|]).
  destruct (classified E (create E (length errors + creates w) contracts));
    [done|].
  destruct Hend as (-> & Hend & ->). split; [done|]. split; [lia|done].
Qed.

End Schedules.

(** ** The classifier within a turn *)

Section ClassifierInTurn.

Variable E : Env.

(** C6, as the code has it.  In a turn that has candidates,
    [analyzeContractsWithGPT] never throws.  An attempt fails when the call
    throws, when the reply does not parse or when it is [null]; a failed
    attempt is retried, at most [MAX_RETRIES] times, and what the first
    attempt that does not fail read is returned and used as any reply is.
    When the four attempts all fail the result is the empty array.  Whenever
    the length of the result does not exceed 0, as for the empty array, the
    turn appends nothing, leaves the set alone and adds [BATCH_SIZE] to
    [offset], and the loop goes on.  A result that is an array is handed to
    [appendFlaggedContracts], and the turn ends as that call does.  A result
    that is no array and whose length exceeds 0, as a string has, makes the
    turn throw a [TypeError], which ends the loop; nothing was written. *)
Theorem classifier_failure_is_not_fatal (fuel : nat) (st : RunState)
    (w w1 : World) (data : ApiResponse.t) (contracts : list Contract.t) :
  let high := filterHighValueContracts (processedIds w1) contracts in
  getContractsWithRetry E (offset st) 0
    (emit (Console (ProcessingBatch (batchNumber st) (offset st))) w)
  = (Ok data, w1) ->
  last_page data = false ->
  readable (ApiResponse.records (ApiResponse.result data)) = Some contracts ->
  high ≠ [] ->
  exists errors flagged w2,
    analyzeContractsWithGPT E high 0 w1 = (Ok flagged, w2)
    ∧ (length errors <= MAX_RETRIES)%nat
    ∧ (forall i e,
         errors !! i = Some e ->
         classified E (create E (i + creates w1) high) = Threw e)
    ∧ match classified E (create E (length errors + creates w1) high) with
      | Ok reply => flagged = reply
      | Threw _ => length errors = MAX_RETRIES ∧ flagged = Flagged.Array []
      end
    ∧ creates w2 = S (length errors + creates w1)
    ∧ file w2 = file w1 ∧ appends w2 = appends w1
    ∧ processedIds w2 = processedIds w1
    ∧ (Length.positive (Flagged.length flagged) = false ->
       exists st' w',
         turn E st w = (Ok (Continue st'), w')
         ∧ loop E (S fuel) st w = loop E fuel st' w'
         ∧ offset st' = plus (offset st) BATCH_SIZE
         ∧ file w' = file w1 ∧ appends w' = appends w1
         ∧ processedIds w' = processedIds w1)
    ∧ (forall results,
         flagged = Flagged.Array results ->
         match appendFlaggedContracts E results w2 with
         | (Ok _, w3) =>
             exists st' w',
               turn E st w = (Ok (Continue st'), w')
               ∧ offset st' = plus (offset st) BATCH_SIZE
               ∧ file w' = file w3 ∧ appends w' = appends w3
               ∧ processedIds w' = processedIds w3
         | (Threw e, w3) =>
             exists w',
               turn E st w = (Threw e, w')
               ∧ file w' = file w3 ∧ appends w' = appends w3
               ∧ processedIds w' = processedIds w3
         end)
    ∧ (forall len,
         flagged = Flagged.NotArray len ->
         Length.positive len = true ->
         exists w',
           turn E st w = (Threw TypeError, w')
           ∧ loop E (S fuel) st w = (Finished (Threw TypeError), w')
           ∧ file w' = file w1 ∧ appends w' = appends w1
           ∧ processedIds w' = processedIds w1).
Proof.
  intros high Hfetch Hlast Hread Hhigh.
  destruct (analyzeContractsWithGPT_from_schedule E (MAX_RETRIES - 0) high 0
              w1)
    as (errors & flagged & w2 & Hrun & Hlen & _ & Herr & Hcreates & Hfile
        & Hids & _ & Happends & Hend).
  change (analyzeContractsWithGPT E high 0 w1 = (Ok flagged, w2)) in Hrun.
  exists errors, flagged, w2. split; [done|].
  split; [unfold MAX_RETRIES in *; lia|]. split; [done|]. split.
  { destruct (classified E (create E (length errors + creates w1) high));
      [tauto|].
    destruct Hend as (-> & [Hn|Hn] & _);
      (split; [unfold MAX_RETRIES in *; lia|done]). }
  do 4 (split; [done|]).
  assert (turn E st w =
          match persist E flagged w2 with
          | (Threw e, w3) => (Threw e, emits (reported st e) w3)
          | (Ok _, w3) =>
              (Ok (Continue
                     (advance st
                        (count (ApiResponse.records (ApiResponse.result data)))
                        (count high) (Flagged.length flagged))),
               emits
                 [Console (BatchResults (batchNumber st)
                             (length (ApiResponse.records
                                        (ApiResponse.result data)))
                             (length high) (Flagged.length flagged));
                  Console (RunningTotals
                             (plus (totalContracts st)
                                (count (ApiResponse.records
                                          (ApiResponse.result data))))
                             (plus (totalHighValue st) (count high))
                             (Total.add (totalFlagged st)
                                (Flagged.length flagged)));
                  Sleep RATE_LIMIT_DELAY] w3)
          end) as Hturn.
  { rewrite turn_cases, Hfetch, Hlast. cbv zeta. rewrite Hread. fold high.
    destruct high as [|c high']; [done|]. by rewrite Hrun. }
  split; [|split].
  - intros Hpos. rewrite persist_idle in Hturn by done.
    eexists _, _. split; [exact Hturn|].
    split; [by apply loop_continues|]. simpl. done.
  - intros results ->. rewrite persist_array in Hturn.
    destruct (appendFlaggedContracts E results w2) as [[[]|e] w3].
    + eexists _, _. split; [exact Hturn|]. simpl. done.
    + eexists. split; [exact Hturn|]. simpl. done.
  - intros len -> Hpos. rewrite persist_not_array, Hpos in Hturn.
    eexists. split; [exact Hturn|]. split; [by apply loop_throws|].
    simpl. done.
Qed.

(** A reply without an array spoils the total.  When what
    [analyzeContractsWithGPT] returns has no [length], as a number, [true]
    or an object without such a member has none, the turn goes on and
    nothing is written, and [totalFlagged], if it was a number, is NaN from
    then on, whatever arrays later turns add to it. *)
Theorem reply_without_length_spoils_the_total (st : RunState)
    (w w1 w2 : World) (data : ApiResponse.t) (contracts : list Contract.t)
    (x : number) :
  let high := filterHighValueContracts (processedIds w1) contracts in
  getContractsWithRetry E (offset st) 0
    (emit (Console (ProcessingBatch (batchNumber st) (offset st))) w)
  = (Ok data, w1) ->
  last_page data = false ->
  readable (ApiResponse.records (ApiResponse.result data)) = Some contracts ->
  high ≠ [] ->
  analyzeContractsWithGPT E high 0 w1
  = (Ok (Flagged.NotArray Length.undefined), w2) ->
  totalFlagged st = Total.sum x ->
  exists st' w',
    turn E st w = (Ok (Continue st'), w')
    ∧ totalFlagged st' = Total.sum NaN
    ∧ file w' = file w2 ∧ appends w' = appends w2
    ∧ processedIds w' = processedIds w2
    ∧ forall results,
        Total.add (totalFlagged st')
          (Flagged.length (Flagged.Array results))
        = Total.sum NaN.
Proof.
  intros high Hfetch Hlast Hread Hhigh Hrun Htotal.
  assert (plus x NaN = NaN) as Hnan by (by destruct x as [|[]|]).
  assert (exists evs,
            turn E st w =
            (Ok (Continue
                   (advance st
                      (count (ApiResponse.records (ApiResponse.result data)))
                      (count high) Length.undefined)),
             emits evs w2)) as [evs Hturn].
  { rewrite turn_cases, Hfetch, Hlast. cbv zeta. rewrite Hread. fold high.
    destruct high as [|c high']; [done|]. rewrite Hrun.
    rewrite persist_not_array. by eexists. }
  eexists _, _. split; [exact Hturn|].
  cbn [advance totalFlagged Flagged.length emits file appends processedIds].
  rewrite Htotal. cbn [Total.add]. rewrite Hnan. done.
Qed.

End ClassifierInTurn.

(** ** Edges of the fetch and of the load *)

Section Edges.

Variable E : Env.

(** A response whose status is ok and whose body cannot be read ends the
    run at once: [response.json()] is returned without [await], its
    rejection passes by the [catch] of [getContractsWithRetry], and so there
    is no retry and no wait; the turn has made one call of [fetch], prints
    the three lines of its own [catch] and throws, and the loop ends. *)
Theorem unreadable_body_ends_the_run (fuel : nat) (st : RunState) (w : World)
    (response : Response) (e : Error) :
  fetch E (fetches w) (offset st) = Ok response ->
  ok response = true ->
  json response = Threw e ->
  exists w',
    turn E st w = (Threw e, w')
    ∧ loop E (S fuel) st w = (Finished (Threw e), w')
    ∧ trace w' =
        trace w
        ++ [ Console (ProcessingBatch (batchNumber st) (offset st));
             Fetch (offset st);
             Console (ErrorProcessingBatch (batchNumber st) e);
             Console (LastSuccessfulOffset (offset st));
             Console UseThisOffset ]
    ∧ fetches w' = S (fetches w)
    ∧ file w' = file w ∧ processedIds w' = processedIds w
    ∧ creates w' = creates w ∧ appends w' = appends w.
Proof.
  intros Hfetch Hok Hjson.
  assert (exists w',
            turn E st w = (Threw e, w')
            ∧ trace w' =
                trace w
                ++ [ Console (ProcessingBatch (batchNumber st) (offset st));
                     Fetch (offset st);
                     Console (ErrorProcessingBatch (batchNumber st) e);
                     Console (LastSuccessfulOffset (offset st));
                     Console UseThisOffset ]
            ∧ fetches w' = S (fetches w)
            ∧ file w' = file w ∧ processedIds w' = processedIds w
            ∧ creates w' = creates w ∧ appends w' = appends w)
    as (w' & Hturn & Hrest).
  { rewrite turn_cases.
    rewrite (getContractsWithRetry_response E (offset st) 0 _ response)
      by done.
    rewrite Hjson. eexists. split; [reflexivity|]. simpl.
    rewrite <- !app_assoc. done. }
  exists w'. split; [done|]. split; [by apply loop_throws|]. done.
Qed.

(** A record that cannot be read ends the run.  When a page that is
    not the last holds a record whose [contract_value] is not a string, as
    [null] is not, the filter throws a [TypeError] on it: the classifier is
    not called, nothing is written, the turn prints the three lines of its
    [catch] and throws, and the loop ends. *)
Theorem unreadable_record_ends_the_run (fuel : nat) (st : RunState)
    (w : World) (response : Response) (data : ApiResponse.t) :
  fetch E (fetches w) (offset st) = Ok response ->
  ok response = true ->
  json response = Ok data ->
  last_page data = false ->
  readable (ApiResponse.records (ApiResponse.result data)) = None ->
  exists w',
    turn E st w = (Threw TypeError, w')
    ∧ loop E (S fuel) st w = (Finished (Threw TypeError), w')
    ∧ trace w' =
        trace w
        ++ [ Console (ProcessingBatch (batchNumber st) (offset st));
             Fetch (offset st);
             Console (ErrorProcessingBatch (batchNumber st) TypeError);
             Console (LastSuccessfulOffset (offset st));
             Console UseThisOffset ]
    ∧ fetches w' = S (fetches w)
    ∧ file w' = file w ∧ processedIds w' = processedIds w
    ∧ creates w' = creates w ∧ appends w' = appends w.
Proof.
  intros Hfetch Hok Hjson Hlast Hread.
  assert (exists w',
            turn E st w = (Threw TypeError, w')
            ∧ trace w' =
                trace w
                ++ [ Console (ProcessingBatch (batchNumber st) (offset st));
                     Fetch (offset st);
                     Console (ErrorProcessingBatch (batchNumber st) TypeError);
                     Console (LastSuccessfulOffset (offset st));
                     Console UseThisOffset ]
            ∧ fetches w' = S (fetches w)
            ∧ file w' = file w ∧ processedIds w' = processedIds w
            ∧ creates w' = creates w ∧ appends w' = appends w)
    as (w' & Hturn & Hrest).
  { rewrite turn_cases.
    rewrite (getContractsWithRetry_response E (offset st) 0 _ response)
      by done.
    rewrite Hjson, Hlast. cbv zeta. rewrite Hread.
    eexists. split; [reflexivity|]. simpl.
    rewrite <- !app_assoc. done. }
  exists w'. split; [done|]. split; [by apply loop_throws|]. done.
Qed.

(** [loadProcessedIds] never throws and only reads: it prints one line,
    leaves the file as it is and makes no call, and the set can only grow.
    Without a file, or with a file that holds nothing but white space, the
    set is left as it was and the analysis starts fresh. *)
Theorem load_never_fails (w : World) :
  exists w' m,
    loadProcessedIds E w = (Ok tt, w')
    ∧ trace w' = trace w ++ [Console m]
    ∧ (m = StartingFresh ∨ m = LoadedProcessed (size (processedIds w')))
    ∧ file w' = file w ∧ fetches w' = fetches w
    ∧ creates w' = creates w ∧ appends w' = appends w
    ∧ processedIds w ⊆ processedIds w'
    ∧ (file w = None
       ∨ (exists content,
            file w = Some content ∧ trim content = EmptyString
            ∧ JSON_parse E EmptyString = None) ->
       processedIds w' = processedIds w ∧ m = StartingFresh).
Proof.
  rewrite loadProcessedIds_spec.
  destruct (file w) as [content|] eqn:Hfile.
  - cbv zeta.
    destruct (all_parse (JSON_parse E) (lines_of content)) eqn:Hall;
      eexists _, _; (split; [reflexivity|]); simpl;
      (split; [reflexivity|]); (split; [auto|]);
      do 4 (split; [done|]); (split; [set_solver|]).
    + intros [?|(content' & [= <-] & Hblank & Hempty)]; [done|].
      unfold lines_of in Hall. rewrite Hblank in Hall. simpl in Hall.
      rewrite Hempty in Hall. simpl in Hall. discriminate.
    + intros [?|(content' & [= <-] & Hblank & Hempty)]; [done|].
      unfold lines_of. rewrite Hblank. simpl. rewrite Hempty. simpl.
      split; [set_solver|done].
  - eexists _, _. split; [reflexivity|]. simpl.
    split; [reflexivity|]. split; [auto|]. do 4 (split; [done|]).
    split; [done|]. done.
Qed.

End Edges.

(** ** The log over one run and over the next *)

Section Logged.

Variable E : Env.

Lemma loadProcessedIds_trace (w : World) :
  exists m, trace (snd (loadProcessedIds E w)) = trace w ++ [Console m].
Proof.
  rewrite loadProcessedIds_spec. destruct (file w) as [content|].
  - cbv zeta. destruct (all_parse _ _); by eexists.
  - by eexists.
Qed.

Lemma loadProcessedIds_calls (w : World) :
  fetches (snd (loadProcessedIds E w)) = fetches w
  ∧ creates (snd (loadProcessedIds E w)) = creates w
  ∧ appends (snd (loadProcessedIds E w)) = appends w
  ∧ file (snd (loadProcessedIds E w)) = file w.
Proof.
  rewrite loadProcessedIds_spec. destruct (file w) as [content|] eqn:Hfile.
  - cbv zeta. by destruct (all_parse _ _).
  - done.
Qed.

Lemma loadProcessedIds_ok (w : World) :
  exists w', loadProcessedIds E w = (Ok tt, w').
Proof.
  rewrite loadProcessedIds_spec. destruct (file w) as [content|].
  - cbv zeta. destruct (all_parse _ _); by eexists.
  - by eexists.
Qed.

Hypothesis stringify_one_line : forall c, one_line (JSON_stringify E c).

Lemma logged_frame (entries : list FlaggedContract.t) (w w' : World) :
  file w' = file w -> processedIds w' = processedIds w ->
  logged E entries w -> logged E entries w'.
Proof. intros Hf Hi [? ?]. split; congruence. Qed.

Lemma appendFlaggedContracts_logged (entries flagged : list FlaggedContract.t)
    (w w' : World) (r : Result unit) :
  logged E entries w ->
  appendFlaggedContracts E flagged w = (r, w') ->
  (r = Ok tt ∧ logged E (entries ++ flagged) w')
  ∨ (exists e, r = Threw e) ∧ logged E entries w'.
Proof.
  intros [Hfile Hids]. destruct flagged as [|f flagged].
  { intros [= <- <-]. left. by rewrite app_nil_r. }
  rewrite appendFlaggedContracts_cons
    by (done || intros; apply (stringify_not_empty E stringify_one_line)).
  destruct (appendFile E (appends w)) as [[]|e]; intros [= <- <-].
  - left. split; [done|]. split; simpl.
    + rewrite Hfile. destruct entries as [|c entries]; [done|].
      simpl. by rewrite !fmap_app, ndjson_app, !append_assoc.
    + rewrite Hids, fmap_app, list_to_set_app_L. set_solver.
  - right. split; [by eexists|]. by split.
Qed.

Lemma persist_logged (entries : list FlaggedContract.t) (flagged : Flagged.t)
    (w w' : World) (r : Result unit) :
  logged E entries w ->
  persist E flagged w = (r, w') ->
  exists more,
    logged E (entries ++ more) w'
    ∧ (r = Ok tt -> forall results, flagged = Flagged.Array results ->
       more = results).
Proof.
  intros Hw. destruct flagged as [results|length].
  - rewrite persist_array. intros Happend.
    eapply appendFlaggedContracts_logged in Happend
      as [[-> Hw']|[[e ->] Hw']]; [| |exact Hw].
    + exists results. split; [done|]. by intros _ ? [= <-].
    + exists []. rewrite app_nil_r. split; [done|]. discriminate.
  - rewrite persist_not_array.
    destruct (Length.positive length); intros [= <- <-]; exists [];
      rewrite app_nil_r; (split; [done|]); discriminate.
Qed.

Lemma counts_same (x : number) (a : Z) : counts x a -> counts x (a + 0).
Proof. by rewrite Z.add_0_r. Qed.

Lemma counts_total_same (total : Total.t) (c : Z) :
  counts_total total c -> counts_total total (c + Z.of_nat 0).
Proof. simpl. by rewrite Z.add_0_r. Qed.

(** One turn: what it adds to the log and, when every reply holds an array,
    to the totals. *)
Lemma turn_logged (entries : list FlaggedContract.t) (st : RunState)
    (w w' : World) (r : Result Turn) :
  logged E entries w ->
  turn E st w = (r, w') ->
  exists more,
    logged E (entries ++ more) w'
    ∧ match r with
      | Ok (Continue st') =>
          arrays E ->
          exists inBatch highValue,
            0 <= highValue <= inBatch
            ∧ forall a b c,
                0 <= a -> 0 <= b -> 0 <= c ->
                counts (totalContracts st) a ->
                counts (totalHighValue st) b ->
                counts_total (totalFlagged st) c ->
                counts (totalContracts st') (a + inBatch)
                ∧ counts (totalHighValue st') (b + highValue)
                ∧ counts_total (totalFlagged st')
                    (c + Z.of_nat (length more))
      | Ok (Break st') => st' = st ∧ more = []
      | Threw _ => True
      end.
Proof.
  intros Hw. rewrite turn_cases.
  destruct (getContractsWithRetry E (offset st) 0 _) as [r1 w1] eqn:Hfetch.
  apply getContractsWithRetry_frame in Hfetch as (Hf1 & Hi1 & _).
  assert (logged E entries w1) as Hw1 by (by apply (logged_frame _ w)).
  assert (forall evs w2 r,
            logged E entries w2 ->
            match r with
            | Ok (Continue _) => False
            | Ok (Break st') => st' = st
            | Threw _ => True
            end ->
            exists more,
              logged E (entries ++ more) (emits evs w2)
              ∧ match r with
                | Ok (Continue st') =>
                    arrays E ->
                    exists inBatch highValue,
                      0 <= highValue <= inBatch
                      ∧ forall a b c,
                          0 <= a -> 0 <= b -> 0 <= c ->
                          counts (totalContracts st) a ->
                          counts (totalHighValue st) b ->
                          counts_total (totalFlagged st) c ->
                          counts (totalContracts st') (a + inBatch)
                          ∧ counts (totalHighValue st') (b + highValue)
                          ∧ counts_total (totalFlagged st')
                              (c + Z.of_nat (length more))
                | Ok (Break st') => st' = st ∧ more = []
                | Threw _ => True
                end) as Hstops.
  { intros evs w2 r0 Hw2 Hr. exists []. rewrite app_nil_r.
    split; [by apply (logged_frame _ w2)|].
    by destruct r0 as [[st'|st']|e]. }
  destruct r1 as [data|e];
    [|intros [= <- <-]; by apply (Hstops _ w1 (Threw e))].
  destruct (last_page data);
    [intros [= <- <-]; by apply (Hstops [_] w1 (Ok (Break st)))|].
  cbv zeta.
  destruct (readable _) as [contracts|] eqn:Hread;
    [|intros [= <- <-]; by apply (Hstops _ w1 (Threw TypeError))].
  pose proof (filter_length_le
                (fun contract => isHighValue contract
                                 && isNew (processedIds w1) contract)
                contracts) as Hle.
  fold (filterHighValueContracts (processedIds w1) contracts) in Hle.
  apply readable_Some in Hread.
  assert (length (ApiResponse.records (ApiResponse.result data))
          = length contracts) as Hall by (by rewrite Hread, length_fmap).
  destruct (filterHighValueContracts _ _) as [|c high].
  { intros [= <- <-]. exists []. rewrite app_nil_r. split.
    - by apply (logged_frame _ w1).
    - intros _. exists 0, 0. split; [lia|].
      intros a b c0 _ _ _ Ha Hb Hc. simpl.
      split; [by apply counts_same|]. split; [by apply counts_same|].
      by apply counts_total_same. }
  destruct (analyzeContractsWithGPT_spec E (c :: high) 0 w1)
    as (flagged & w2 & n & -> & (Hf2 & Hi2 & _) & Hreply).
  assert (logged E entries w2) as Hw2 by (by apply (logged_frame _ w1)).
  destruct (persist E flagged w2) as [r3 w3] eqn:Hpersist.
  destruct (persist_logged entries flagged w2 w3 r3 Hw2 Hpersist)
    as (more & Hw3 & Hmore).
  destruct r3 as [[]|e]; intros [= <- <-]; exists more;
    (split; [by apply (logged_frame _ w3)|]); [|done].
  intros Harrays.
  assert (exists results, flagged = Flagged.Array results) as [results ->].
  { destruct Hreply as [->|Hreply]; [by eexists|]. by eapply Harrays. }
  rewrite (Hmore eq_refl results eq_refl).
  exists (count (ApiResponse.records (ApiResponse.result data))),
    (count (c :: high)).
  split; [unfold count; lia|].
  intros a b c0 Ha Hb Hc Hta Htb Htc. cbn [advance totalContracts
    totalHighValue totalFlagged].
  split; [apply counts_plus; (done || unfold count; lia)|].
  split; [apply counts_plus; (done || unfold count; lia)|].
  by apply counts_total_add.
Qed.

(** The loop: what it adds to the log, and what the totals count. *)
Lemma loop_logged (fuel : nat) (entries : list FlaggedContract.t)
    (st : RunState) (w w' : World) (r : Run RunState) :
  logged E entries w ->
  loop E fuel st w = (r, w') ->
  exists more,
    logged E (entries ++ more) w'
    ∧ (arrays E ->
       exists inAll highValue,
         0 <= highValue <= inAll
         ∧ forall st',
             r = Finished (Ok st') ∨ r = Looping st' ->
             forall a b c,
               0 <= a -> 0 <= b -> 0 <= c ->
               counts (totalContracts st) a ->
               counts (totalHighValue st) b ->
               counts_total (totalFlagged st) c ->
               counts (totalContracts st') (a + inAll)
               ∧ counts (totalHighValue st') (b + highValue)
               ∧ counts_total (totalFlagged st')
                   (c + Z.of_nat (length more))).
Proof.
  revert entries st w. induction fuel as [|fuel IH]; intros entries st w Hw.
  { simpl. intros [= <- <-]. exists []. rewrite app_nil_r. split; [done|].
    intros _. exists 0, 0. split; [lia|].
    intros st' [[=]|[= <-]] a b c _ _ _ Ha Hb Hc.
    split; [by apply counts_same|]. split; [by apply counts_same|].
    by apply counts_total_same. }
  cbn [loop]. destruct (turn E st w) as [r1 w1] eqn:Hturn.
  destruct (turn_logged entries st w w1 r1 Hw Hturn) as (more1 & Hw1 & Hr1).
  destruct r1 as [[st1|st1]|e].
  - intros Hloop.
    destruct (IH _ _ _ Hw1 Hloop) as (more2 & Hw' & Hst).
    exists (more1 ++ more2). rewrite app_assoc. split; [done|].
    intros Harrays.
    destruct (Hr1 Harrays) as (in1 & high1 & Hle1 & Hstep).
    destruct (Hst Harrays) as (in2 & high2 & Hle2 & Hrest).
    exists (in1 + in2), (high1 + high2). split; [lia|].
    intros st' Hr a b c Ha Hb Hc Hta Htb Htc.
    destruct (Hstep a b c Ha Hb Hc Hta Htb Htc) as (Hta1 & Htb1 & Htc1).
    destruct (Hrest st' Hr (a + in1) (b + high1)
                (c + Z.of_nat (length more1)) ltac:(lia) ltac:(lia)
                ltac:(lia) Hta1 Htb1 Htc1) as (Hta' & Htb' & Htc').
    rewrite length_app, Nat2Z.inj_add, !Z.add_assoc. done.
  - intros [= <- <-]. destruct Hr1 as [-> ->].
    exists []. split; [done|]. intros _. exists 0, 0. split; [lia|].
    intros st' [[= <-]|[=]] a b c _ _ _ Ha Hb Hc.
    split; [by apply counts_same|]. split; [by apply counts_same|].
    by apply counts_total_same.
  - intros [= <- <-]. exists more1. split; [done|].
    intros _. exists 0, 0. split; [lia|]. intros st' [[=]|[=]].
Qed.

Hypothesis parse_stringify :
  forall c,
    FlaggedContract.contract_id <$> JSON_parse E (JSON_stringify E c)
    = Some (FlaggedContract.contract_id c).

(** A new process over a log loads the identifiers of its entries. *)
Lemma load_logged (entries : list FlaggedContract.t) (w : World) :
  file w = log_of E entries -> processedIds w = ∅ ->
  exists w1,
    loadProcessedIds E w = (Ok tt, w1) ∧ logged E entries w1
    ∧ exists m, trace w1 = trace w ++ [Console m].
Proof.
  intros Hfile Hids.
  set (w0 := marked (FlaggedContract.contract_id <$> entries) w).
  assert (restart w0 = w) as Hw0.
  { destruct w. unfold restart, w0, marked. simpl in *. by subst. }
  assert (logged E entries w0) as Hlogged.
  { split; [done|]. simpl. rewrite Hids. set_solver. }
  destruct (reload_consistent E stringify_one_line parse_stringify w0)
    as (w1 & Hload & Hi & Hf & _); [by exists entries|].
  rewrite Hw0 in Hload. exists w1. split; [done|].
  split; [by apply (logged_frame _ w0)|].
  destruct (loadProcessedIds_trace w) as (m & Htr).
  rewrite Hload in Htr. by exists m.
Qed.

End Logged.

(** ** Runs that follow one another *)

Section Restarts.

Variable E : Env.

(** A run over a log left by earlier runs: what it leaves, and what its
    last line says when it completes. *)
Lemma analyze_logged (fuel : nat) (startOffset : number)
    (entries : list FlaggedContract.t) (w w' : World) (r : Run unit) :
  (forall c, one_line (JSON_stringify E c)) ->
  (forall c,
     FlaggedContract.contract_id <$> JSON_parse E (JSON_stringify E c)
     = Some (FlaggedContract.contract_id c)) ->
  file w = log_of E entries -> processedIds w = ∅ ->
  analyze E fuel startOffset w = (r, w') ->
  exists more,
    logged E (entries ++ more) w'
    ∧ (arrays E -> r = Finished (Ok tt) ->
       exists tr totalContracts totalHighValue totalFlagged inAll highValue,
         trace w' =
           tr ++ [Console (AnalysisComplete totalContracts totalHighValue
                             totalFlagged)]
         ∧ 0 <= highValue <= inAll
         ∧ counts totalContracts inAll
         ∧ counts totalHighValue highValue
         ∧ counts_total totalFlagged (Z.of_nat (length more))).
Proof.
  intros Hline Hround Hfile Hids.
  destruct (load_logged E Hline Hround entries w Hfile Hids)
    as (w1 & Hload & Hw1 & _).
  unfold analyze. unfold bind at 1. rewrite Hload. unfold bind, log.
  case_loop r1 w2 Hloop.
  eapply (loop_logged E Hline) in Hloop as (more & Hw2 & Hst).
  2: { eapply logged_frame; [| |exact Hw1]; reflexivity. }
  destruct r1 as [[st'|e]|st']; intros [= <- <-]; exists more.
  - split; [by apply (logged_frame _ _ w2)|]. intros Harrays _.
    destruct (Hst Harrays) as (inAll & highValue & Hle & Hcount).
    destruct (Hcount st' ltac:(by left) 0 0 0 ltac:(done) ltac:(done)
                ltac:(done) ltac:(by intros _) ltac:(by intros _)
                ltac:(by intros _)) as (Hta & Htb & Htc).
    rewrite !Z.add_0_l in *.
    by exists (trace w2), (totalContracts st'), (totalHighValue st'),
      (totalFlagged st'), inAll, highValue.
  - split; [done|]. discriminate.
  - split; [done|]. discriminate.
Qed.



(** A turn that goes on moves to the next batch. *)
Lemma turn_next (st st' : RunState) (w w' : World) :
  turn E st w = (Ok (Continue st'), w') ->
  offset st' = plus (offset st) BATCH_SIZE
  ∧ batchNumber st' = plus (batchNumber st) 1.
Proof.
  rewrite turn_cases.
  destruct (getContractsWithRetry E (offset st) 0 _) as [[data|e] w1];
    [|discriminate].
  destruct (last_page data); [discriminate|]. cbv zeta.
  destruct (readable _) as [contracts|]; [|discriminate].
  destruct (filterHighValueContracts _ _) as [|c high].
  { by intros [= <- <-]. }
  destruct (analyzeContractsWithGPT_spec E (c :: high) 0 w1)
    as (flagged & w2 & n & -> & _ & _).
  destruct (persist E flagged w2) as [[[]|e] w3]; [|discriminate].
  by intros [= <- <-].
Qed.

(** The loop that ends with an exception: the batch that threw. *)
Lemma loop_thrown (fuel : nat) (st : RunState) (w w' : World) (e : Error) :
  loop E fuel st w = (Finished (Threw e), w') ->
  exists k tr,
    (k < fuel)%nat
    ∧ trace w' =
        tr ++ [ Console (ErrorProcessingBatch
                           (Nat.iter k (fun batchNumber => plus batchNumber 1)
                              (batchNumber st)) e);
                Console (LastSuccessfulOffset (offset_after k (offset st)));
                Console UseThisOffset ]
    ∧ exists stk wk,
        loop E k st w = (Looping stk, wk)
        ∧ offset stk = offset_after k (offset st)
        ∧ turn E stk wk = (Threw e, w').
Proof.
  revert st w. induction fuel as [|fuel IH]; intros st w; [discriminate|].
  cbn [loop]. destruct (turn E st w) as [[[st1|st1]|e1] w1] eqn:Hturn.
  - intros Hloop. apply IH in Hloop
      as (k & tr & Hk & Htr & stk & wk & Hloop & Hoff & Hlast).
    apply turn_next in Hturn as Hnext. destruct Hnext as [Hoff1 Hbatch1].
    exists (S k), tr. split; [lia|]. split.
    { rewrite Htr, offset_after_next, Nat.iter_succ_r.
      by rewrite Hoff1, Hbatch1. }
    exists stk, wk. cbn [loop]. rewrite Hturn. split; [done|].
    split; [|done]. by rewrite Hoff, offset_after_next, Hoff1.
  - discriminate.
  - intros [= <- <-]. apply turn_throws in Hturn as Hthrown.
    destruct Hthrown as [tr Htr].
    exists 0%nat, tr. split; [lia|]. split; [exact Htr|].
    exists st, w. split; [done|]. split; [reflexivity|done].
Qed.

(** A run that ends with an exception names the batch that threw.  The
    three lines its [catch] prints are the last of the output; the batch
    number they give is 1 with 1 added for each turn completed, and the
    offset they call the last successful one is the offset of the turn that
    threw: [startOffset] with [BATCH_SIZE] added for each turn completed.
    The additions are those of numbers: for a whole [startOffset] they give
    [1 + k] and [startOffset + BATCH_SIZE * k] as long as the latter is
    below [2^53]. *)
Theorem failure_names_the_batch (fuel : nat) (startOffset : number)
    (w w' : World) (e : Error) :
  analyze E fuel startOffset w = (Finished (Threw e), w') ->
  exists k tr,
    (k < fuel)%nat
    ∧ trace w' =
        tr ++ [ Console (ErrorProcessingBatch (batch_after k) e);
                Console (LastSuccessfulOffset (offset_after k startOffset));
                Console UseThisOffset ]
    ∧ (forall z : Z,
         startOffset = z -> 0 <= z ->
         z + BATCH_SIZE * Z.of_nat k < 2 ^ 53 ->
         batch_after k = (1 + Z.of_nat k)
         ∧ offset_after k startOffset = (z + BATCH_SIZE * Z.of_nat k))
    ∧ exists w0 stk wk,
        loop E k (start startOffset) w0 = (Looping stk, wk)
        ∧ offset stk = offset_after k startOffset
        ∧ turn E stk wk = (Threw e, w').
Proof.
  unfold analyze. unfold bind at 1.
  destruct (loadProcessedIds_ok E w) as [w0 ->]. unfold bind, log.
  case_loop r1 w2 Hloop.
  destruct r1 as [[st'|e']|st']; [discriminate| |discriminate].
  intros [= <- <-].
  apply loop_thrown in Hloop as (k & tr & Hk & Htr & stk & wk & Hrest).
  exists k, tr. split; [done|]. split; [done|]. split; [|eauto].
  intros z -> Hz Hbound. split.
  - apply batch_after_whole. unfold BATCH_SIZE in *. lia.
  - by apply offset_after_whole.
Qed.

End Restarts.

(** ** The statements on the examples *)

Section OnExamples.

Import Demo Examples.

(** [append_then_mark] on two results and a disk that takes them. *)
Lemma append_then_mark_witness :
  exists w',
    appendFlaggedContracts thorough [flagged "A"; flagged "B"] fresh = (Ok tt, w')
    ∧ file w' =
        Some (default EmptyString (file fresh)
              +:+ ndjson (stringify <$> [flagged "A"; flagged "B"]))
    ∧ processedIds w' =
        list_to_set (FlaggedContract.contract_id
                       <$> [flagged "A"; flagged "B"])
        ∪ processedIds fresh
    ∧ appends w' = S (appends fresh)
    ∧ trace w' =
        trace fresh
        ++ [AppendFile (ndjson (stringify <$> [flagged "A"; flagged "B"]))]
    ∧ fetches w' = fetches fresh ∧ creates w' = creates fresh.
Proof.
  exact (append_then_mark thorough [flagged "A"; flagged "B"] fresh
           (fun c _ => demo_not_empty c)).
Defined.

(** [backoff_two_failures_then_success] on the network that fails twice. *)
Lemma backoff_witness :
  exists w',
    getContractsWithRetry flaky 0 0 fresh = (Ok (page [recA]), w')
    ∧ fetches w' = 3%nat
    ∧ trace w' =
        [ Fetch 0;
          Console (RetryFetch 1 (Rejected "ECONNRESET")); Sleep 1000;
          Fetch 0;
          Console (RetryFetch 2 (HttpError 503)); Sleep 2000;
          Fetch 0 ]
    ∧ file w' = None ∧ processedIds w' = ∅
    ∧ creates w' = 0%nat ∧ appends w' = 0%nat.
Proof.
  exact (backoff_two_failures_then_success flaky 0 fresh
           (Rejected "ECONNRESET") (HttpError 503)
           {| ok := true; status := 200; json := Ok (page [recA]) |}
           (page [recA]) eq_refl eq_refl eq_refl eq_refl eq_refl).
Defined.

(** Against C5: the only fetch succeeds at once, the classifier flags the
    record, [appendFile] fails, and the run ends with that exception. *)
Lemma failed_append_ends_the_run :
  failure (fetch full_disk 0 0) = None
  ∧ exists w',
      analyze full_disk 5 0 fresh = (Finished (Threw (Rejected "ENOSPC")), w')
      ∧ fetches w' = 1%nat
      ∧ trace w' =
          [ Console StartingFresh; Console (StartingAnalysis 0);
            Console MinimumContractValue; Console (ProcessingBatch 1 0);
            Fetch 0; Console (Analyzing 1 "A"); Create 1;
            AppendFile (ndjson [stringify (flagged "A")]);
            Console (ErrorProcessingBatch 1 (Rejected "ENOSPC"));
            Console (LastSuccessfulOffset 0); Console UseThisOffset ].
Proof.
  split; [reflexivity|]. eexists. split; [vm_compute; reflexivity|].
  split; reflexivity.
Qed.

(** [fetch_failure_ends_the_run] on the network that never answers. *)
Lemma fetch_failure_witness :
  exists w' tr,
    turn offline (start 0) fresh = (Threw (Rejected "ENOTFOUND"), w')
    ∧ loop offline 1 (start 0) fresh
      = (Finished (Threw (Rejected "ENOTFOUND")), w')
    ∧ trace w' =
        tr ++ [ Console (ErrorProcessingBatch 1 (Rejected "ENOTFOUND"));
                Console (LastSuccessfulOffset 0);
                Console UseThisOffset ]
    ∧ fetches w' = 4%nat
    ∧ file w' = None ∧ processedIds w' = ∅
    ∧ forall k st0 w0,
        loop offline k st0 w0 = (Looping (start 0), fresh) ->
        loop offline (k + 1) st0 w0
        = (Finished (Threw (Rejected "ENOTFOUND")), w').
Proof.
  exact (proj1 (fetch_failure_ends_the_run offline 0 (start 0) fresh
                  (Rejected "ENOTFOUND") (Rejected "ENOTFOUND")
                  (Rejected "ENOTFOUND") (Rejected "ENOTFOUND")
                  eq_refl eq_refl eq_refl eq_refl)).
Defined.

(** [classifier_failure_is_not_fatal] on the classifier that always
    fails: four attempts, the empty array, and the turn goes on. *)
Lemma classifier_failure_witness :
  exists (errors : list Error) w2 st' w',
    analyzeContractsWithGPT mute
      (filterHighValueContracts (processedIds mute_fetched) [recA])
      0 mute_fetched = (Ok (Flagged.Array []), w2)
    ∧ length errors = MAX_RETRIES
    ∧ creates w2 = S (length errors + creates mute_fetched)
    ∧ turn mute (start 0) fresh = (Ok (Continue st'), w')
    ∧ loop mute 1 (start 0) fresh = loop mute 0 st' w'
    ∧ offset st' = plus (offset (start 0)) BATCH_SIZE
    ∧ file w' = file mute_fetched ∧ appends w' = appends mute_fetched
    ∧ processedIds w' = processedIds mute_fetched.
Proof.
  destruct (classifier_failure_is_not_fatal mute 0 (start 0) fresh
              mute_fetched (page [recA]) [recA])
    as (errors & flagged & w2 & Hrun & _ & _ & Hend & Hcreates & _ & _ & _
        & Hidle & _).
  - vm_compute. reflexivity.
  - reflexivity.
  - reflexivity.
  - vm_compute. discriminate.
  - assert (flagged = Flagged.Array []
            ∧ length errors = MAX_RETRIES) as [-> Hlen].
    { destruct (classified mute _) as [reply|e] eqn:Hreply;
        [discriminate|]. by destruct Hend as [-> ->]. }
    destruct (Hidle eq_refl) as (st' & w' & Hturn & Hloop & Hoff & Hrest).
    exists errors, w2, st', w'.
    exact (conj Hrun (conj Hlen (conj Hcreates (conj Hturn
             (conj Hloop (conj Hoff Hrest)))))).
Defined.

(** Against C6: a reply whose [contracts] is a sentence is returned as it
    is, it has a length, and the run ends on a [TypeError] with nothing
    written; and a reply that is not JSON is one failed attempt, after which
    the next reply is used and its result appended. *)
Lemma malformed_reply_is_not_empty :
  classified Scenarios.vague (create Scenarios.vague 0 [recA])
  = Ok (Flagged.NotArray 12)
  ∧ (exists w',
       analyze Scenarios.vague 5 0 fresh = (Finished (Threw TypeError), w')
       ∧ creates w' = 1%nat ∧ appends w' = 0%nat ∧ file w' = None
       ∧ trace w' =
           [ Console StartingFresh; Console (StartingAnalysis 0);
             Console MinimumContractValue; Console (ProcessingBatch 1 0);
             Fetch 0; Console (Analyzing 1 "A"); Create 1;
             Console (ErrorProcessingBatch 1 TypeError);
             Console (LastSuccessfulOffset 0); Console UseThisOffset ])
  ∧ classified Scenarios.stutter (create Scenarios.stutter 0 [recA])
    = Threw SyntaxError
  ∧ exists w',
      analyze Scenarios.stutter 5 0 fresh = (Finished (Ok tt), w')
      ∧ creates w' = 2%nat
      ∧ file w' = Some (ndjson [stringify (flagged "A")]).
Proof.
  split; [vm_compute; reflexivity|]. split.
  { eexists. split; [vm_compute; reflexivity|]. repeat split. }
  split; [vm_compute; reflexivity|].
  eexists. split; [vm_compute; reflexivity|]. split; reflexivity.
Qed.

(** Against C7: the third line of the log is well formed, and its
    identifier is not loaded, because the second line is not. *)
Lemma load_misses_lines_after_corrupt_one :
  lines_of (default EmptyString (file damaged))
  = [stringify (flagged "A"); "oops"; stringify (flagged "B")]
  ∧ FlaggedContract.contract_id
      <$> JSON_parse thorough (stringify (flagged "B")) = Some "B"
  ∧ exists w',
      loadProcessedIds thorough damaged = (Ok tt, w')
      ∧ "A" ∈ processedIds w' ∧ "B" ∉ processedIds w'.
Proof.
  split; [vm_compute; reflexivity|]. split; [reflexivity|].
  eexists. split; [vm_compute; reflexivity|].
  split; apply (bool_decide_unpack _); vm_compute; exact I.
Qed.

(** [load_stops_at_corrupt_line] on the same log. *)
Lemma load_stops_witness :
  exists w',
    loadProcessedIds thorough damaged = (Ok tt, w')
    ∧ processedIds w' =
        list_to_set (FlaggedContract.contract_id
                       <$> parsed_prefix (JSON_parse thorough)
                             [stringify (flagged "A")])
        ∪ processedIds damaged
    ∧ length (parsed_prefix (JSON_parse thorough) [stringify (flagged "A")])
      = length [stringify (flagged "A")]
    ∧ file w' = file damaged
    ∧ trace w' = trace damaged ++ [Console StartingFresh].
Proof.
  apply (load_stops_at_corrupt_line thorough damaged
           (ndjson [stringify (flagged "A"); "oops"; stringify (flagged "B")])
           "oops" [stringify (flagged "A")] [stringify (flagged "B")]).
  - reflexivity.
  - vm_compute. reflexivity.
  - vm_compute. reflexivity.
  - reflexivity.
Defined.

(** Against C8: a turn over a page of one record, under the threshold, goes
    on and leaves the count of fetched records at zero; and from offset
    4000000000000000000 the sum with [BATCH_SIZE] is the same number again,
    so that three turns later the loop is where it was and has asked for the
    same page three times. *)
Lemma counters_and_offset_stall :
  fetch cheap 0 0 = answer [recL]
  ∧ (exists w',
       turn cheap (start 0) fresh
       = (Ok (Continue {| offset := 100; totalContracts := 0;
                          totalHighValue := 0; totalFlagged := 0;
                          batchNumber := 2 |}), w')
       ∧ trace w' =
           [ Console (ProcessingBatch 1 0); Fetch 0;
             Console (NoNewHighValue 1); Sleep 1000 ])
  ∧ Number.same Scenarios.far 4000000000000000000 = true
  ∧ plus Scenarios.far BATCH_SIZE = Scenarios.far
  ∧ exists st' w',
      loop Scenarios.endless 3 (start Scenarios.far) fresh = (Looping st', w')
      ∧ offset st' = Scenarios.far
      ∧ fetched (trace w')
        = [Scenarios.far; Scenarios.far; Scenarios.far].
Proof.
  split; [reflexivity|]. split.
  { eexists. split; [vm_compute; reflexivity|]. reflexivity. }
  split; [vm_compute; reflexivity|]. split; [vm_compute; reflexivity|].
  eexists _, _. split; [vm_compute; reflexivity|].
  split; vm_compute; reflexivity.
Qed.

(** [turn_advances_offset] on a turn with two candidates, both flagged. *)
Lemma turn_advances_witness :
  let st' :=
    advance (start 0) 3 2
      (Flagged.length (Flagged.Array [flagged "A"; flagged "B"])) in
  offset st' = plus (offset (start 0)) BATCH_SIZE
  ∧ batchNumber st' = plus (batchNumber (start 0)) 1
  ∧ offset st' = (0 + BATCH_SIZE).
Proof.
  pose proof (turn_advances_offset thorough (start 0)
                (advance (start 0) 3 2
                   (Flagged.length (Flagged.Array [flagged "A"; flagged "B"])))
                fresh
                (snd (turn thorough (start 0) fresh))
                ltac:(vm_compute; reflexivity)) as H.
  exact (conj (proj1 H)
           (conj (proj1 (proj2 H))
              (proj1 (proj2 (proj2 H)) 0 eq_refl eq_refl))).
Defined.

(** Against C9: one candidate is submitted and two results come back. *)
Lemma classifier_returns_more_than_submitted :
  exists flagged w',
    analyzeContractsWithGPT eager [recA] 0 fresh = (Ok flagged, w')
    ∧ flagged = Flagged.Array [Demo.flagged "A"; Demo.flagged "Z"]
    ∧ (length [recA] < length [Demo.flagged "A"; Demo.flagged "Z"])%nat.
Proof.
  eexists _, _. split; [vm_compute; reflexivity|]. split; [reflexivity|].
  simpl. lia.
Qed.

(** [dedup_needs_matching_ids] on a record flagged under another
    identifier: it is selected again. *)
Lemma dedup_witness :
  processedIds (snd (appendFlaggedContracts thorough [flagged "X"] fresh))
  = list_to_set (FlaggedContract.contract_id <$> [flagged "X"])
    ∪ processedIds fresh
  ∧ (recA ∉ filterHighValueContracts
              (processedIds
                 (snd (appendFlaggedContracts thorough [flagged "X"] fresh)))
              [recA]
     <-> Contract.procurement_id recA
           ∈ FlaggedContract.contract_id <$> [flagged "X"]).
Proof.
  pose proof (dedup_needs_matching_ids thorough [flagged "X"] recA fresh
                (snd (appendFlaggedContracts thorough [flagged "X"] fresh))
                ltac:(discriminate)
                (fun c _ => demo_not_empty c)
                ltac:(vm_compute; reflexivity)
                ltac:(vm_compute; left)) as H.
  exact (conj (proj1 H) (proj1 (proj2 H))).
Defined.


Lemma choosy_per_record : per_record Scenarios.choosy Scenarios.judge_A.
Proof.
  split.
  - intros c f. unfold Scenarios.judge_A.
    destruct (String.eqb _ _); [|discriminate]. by intros [= <-].
  - intros k candidates. unfold classified. simpl.
    unfold Scenarios.choosy_create.
    set (ids := FlaggedContract.contract_id
                  <$> omap Scenarios.judge_A candidates).
    assert (exists a text, reply ids = String a text)
      as (a & text & Htext) by (unfold reply; rewrite !append_cons; eauto).
    rewrite Htext, <- Htext, parse_reply_reply. cbn [from_option id].
    do 2 f_equal. unfold ids. clear.
    induction candidates as [|c candidates IH]; [done|].
    cbn [omap list_omap].
    destruct (Scenarios.judge_A c) as [f|] eqn:Hjudge; [|exact IH].
    rewrite !fmap_cons. fold (omap Scenarios.judge_A candidates).
    rewrite IH. f_equal. revert Hjudge. unfold Scenarios.judge_A.
    destruct (String.eqb _ _); [|discriminate]. by intros [= <-].
Qed.


(** [all_flagged_second_run_idle] on the same two runs. *)
Lemma all_flagged_witness :
  file (snd (analyze thorough 5 0 (restart thorough_once)))
  = file thorough_once
  ∧ appends (snd (analyze thorough 5 0 (restart thorough_once)))
    = appends thorough_once
  ∧ creates (snd (analyze thorough 5 0 (restart thorough_once)))
    = creates thorough_once
  ∧ processedIds (snd (analyze thorough 5 0 (restart thorough_once)))
    = processedIds thorough_once.
Proof.
  apply (all_flagged_second_run_idle thorough (source [recA; recL; recB])
           5 5 fresh thorough_once
           (snd (analyze thorough 5 0 (restart thorough_once)))
           (fst (analyze thorough 5 0 (restart thorough_once)))).
  - exact demo_one_line.
  - exact demo_parse_stringify.
  - intros k offset response data [= <-] [= <-]. reflexivity.
  - apply flag_all_flags_all.
  - reflexivity.
  - reflexivity.
  - vm_compute. reflexivity.
  - apply surjective_pairing.
Defined.


End OnExamples.

(** ** The events of a run *)

Section Events.

Variable E : Env.

Lemma spaced_app (call : Event -> bool) (rested : bool) (l k : list Event) :
  spaced call rested (l ++ k) =
  spaced call rested l && spaced call (rested_after call rested l) k.
Proof.
  revert rested. induction l as [|ev l IH]; intros rested; [done|].
  cbn [app spaced rested_after]. destruct (call ev).
  - by rewrite IH, andb_assoc.
  - apply IH.
Qed.

Lemma rested_after_app (call : Event -> bool) (rested : bool)
    (l k : list Event) :
  rested_after call rested (l ++ k) =
  rested_after call (rested_after call rested l) k.
Proof.
  revert rested. induction l as [|ev l IH]; intros rested; [done|].
  cbn [app rested_after]. apply IH.
Qed.

Lemma quiet_app (call : Event -> bool) (l k : list Event) :
  quiet call (l ++ k) = quiet call l && quiet call k.
Proof. apply forallb_app. Qed.

Lemma quiet_spaced (call : Event -> bool) (rested : bool) (l : list Event) :
  quiet call l = true -> spaced call rested l = true.
Proof.
  revert rested. induction l as [|ev l IH]; intros rested; [done|].
  cbn [quiet forallb spaced]. intros [Hev Hl]%andb_true_iff.
  apply negb_true_iff in Hev. rewrite Hev. by apply IH.
Qed.

Lemma quiet_rested (call : Event -> bool) (l : list Event) :
  quiet call l = true -> rested_after call true l = true.
Proof.
  induction l as [|ev l IH]; [done|].
  cbn [quiet forallb rested_after]. intros [Hev Hl]%andb_true_iff.
  apply negb_true_iff in Hev. rewrite Hev. by apply IH.
Qed.

(** A pause at the end lets any call come next. *)
Lemma rested_after_pause (call : Event -> bool) (rested : bool)
    (l : list Event) :
  call (Sleep RATE_LIMIT_DELAY) = false ->
  rested_after call rested (l ++ [Sleep RATE_LIMIT_DELAY]) = true.
Proof.
  intros Hcall. rewrite rested_after_app. cbn [rested_after].
  rewrite Hcall. apply orb_true_r.
Qed.

Lemma pause_retry (retries : nat) :
  pause (Sleep (RATE_LIMIT_DELAY * (Z.of_nat retries + 1))) = true.
Proof. unfold pause, RATE_LIMIT_DELAY. apply Z.leb_le. lia. Qed.

(** The attempts that failed leave the caller rested. *)
Lemma backoff_spaced (call : Event -> bool) (attempt : list Event)
    (retry : nat -> Error -> Message) (retries : nat) (errors : list Error)
    (k : list Event) :
  (forall m, call (Console m) = false) ->
  (forall ms, call (Sleep ms) = false) ->
  spaced call true attempt = true ->
  spaced call true (backoff attempt retry retries errors ++ k)
  = spaced call true k
  ∧ rested_after call true (backoff attempt retry retries errors ++ k)
    = rested_after call true k.
Proof.
  intros Hconsole Hsleep Hattempt. revert retries.
  induction errors as [|e errors IH]; intros retries; [done|].
  cbn [backoff]. rewrite <- app_assoc, spaced_app, rested_after_app, Hattempt.
  cbn [app spaced rested_after andb].
  rewrite Hconsole, Hsleep, pause_retry, orb_true_r. apply IH.
Qed.

Lemma backoff_quiet (call : Event -> bool) (attempt : list Event)
    (retry : nat -> Error -> Message) (retries : nat) (errors : list Error) :
  (forall m, call (Console m) = false) ->
  (forall ms, call (Sleep ms) = false) ->
  quiet call attempt = true ->
  quiet call (backoff attempt retry retries errors) = true.
Proof.
  intros Hconsole Hsleep Hattempt. revert retries.
  induction errors as [|e errors IH]; intros retries; [done|].
  cbn [backoff]. rewrite quiet_app, Hattempt. cbn [quiet forallb andb].
  rewrite Hconsole, Hsleep. apply IH.
Qed.

Lemma backoff_purposeful (attempt : list Event)
    (retry : nat -> Error -> Message) (retries : nat) (errors : list Error) :
  Forall (purposeful E) attempt ->
  Forall (purposeful E) (backoff attempt retry retries errors).
Proof.
  intros Hattempt. revert retries.
  induction errors as [|e errors IH]; intros retries; [constructor|].
  cbn [backoff]. apply Forall_app. split; [done|].
  do 2 (constructor; [exact I|]). apply IH.
Qed.

(** What [getContractsWithRetry] adds to the events. *)
Lemma getContractsWithRetry_events (offset : number) (w w' : World)
    (r : Result ApiResponse.t) :
  getContractsWithRetry E offset 0 w = (r, w') ->
  exists evs,
    trace w' = trace w ++ evs
    ∧ spaced is_fetch true evs = true
    ∧ quiet is_create evs = true
    ∧ Forall (purposeful E) evs.
Proof.
  intros Hrun.
  destruct (getContractsWithRetry_from_schedule E (MAX_RETRIES - 0) offset 0 w)
    as (errors & r0 & w0 & Hrun0 & _ & _ & _ & Htr & _).
  unfold getContractsWithRetry in Hrun. rewrite Hrun in Hrun0.
  injection Hrun0 as <- <-.
  eexists. split; [exact Htr|]. split; [|split].
  - by rewrite (proj1 (backoff_spaced is_fetch [Fetch offset] RetryFetch 0
                         errors [Fetch offset] ltac:(done) ltac:(done)
                         ltac:(done))).
  - rewrite quiet_app. by rewrite backoff_quiet.
  - apply Forall_app. split; [apply backoff_purposeful|]; by repeat constructor.
Qed.

(** What [analyzeContractsWithGPT] adds to the events, for a list that is
    not empty. *)
Lemma analyzeContractsWithGPT_events (contracts : list Contract.t)
    (w w' : World) (r : Result Flagged.t) :
  contracts ≠ [] ->
  analyzeContractsWithGPT E contracts 0 w = (r, w') ->
  exists evs,
    trace w' = trace w ++ evs
    ∧ spaced is_create true evs = true
    ∧ quiet is_fetch evs = true
    ∧ Forall (purposeful E) evs.
Proof.
  intros Hne Hrun.
  destruct (analyzeContractsWithGPT_from_schedule E (MAX_RETRIES - 0)
              contracts 0 w)
    as (errors & flagged & w0 & Hrun0 & _ & _ & _ & _ & _ & _ & _ & _ & Hend).
  unfold analyzeContractsWithGPT in Hrun. rewrite Hrun in Hrun0.
  injection Hrun0 as -> <-.
  assert (Forall (purposeful E) (submitted contracts)) as Hsub.
  { repeat constructor. destruct contracts; [done|simpl; lia]. }
  destruct (classified E (create E (length errors + creates w) contracts))
    as [reply|e].
  - destruct Hend as [_ Htr]. eexists. split; [exact Htr|]. split; [|split].
    + by rewrite (proj1 (backoff_spaced is_create (submitted contracts)
                           RetryOpenAI 0 errors (submitted contracts)
                           ltac:(done) ltac:(done) ltac:(done))).
    + rewrite quiet_app. by rewrite backoff_quiet.
    + apply Forall_app. split; [by apply backoff_purposeful|done].
  - destruct Hend as (_ & _ & Htr). eexists. split; [exact Htr|].
    split; [|split].
    + by rewrite (proj1 (backoff_spaced is_create (submitted contracts)
                           RetryOpenAI 0 errors _
                           ltac:(done) ltac:(done) ltac:(done))).
    + rewrite quiet_app. by rewrite backoff_quiet.
    + apply Forall_app. split; [by apply backoff_purposeful|].
      apply Forall_app. split; [done|]. by repeat constructor.
Qed.

(** What [appendFlaggedContracts] adds to the events. *)
Lemma appendFlaggedContracts_events (flagged : list FlaggedContract.t)
    (w w' : World) (r : Result unit) :
  appendFlaggedContracts E flagged w = (r, w') ->
  exists evs,
    trace w' = trace w ++ evs
    ∧ quiet is_fetch evs = true ∧ quiet is_create evs = true
    ∧ Forall (purposeful E) evs.
Proof.
  unfold appendFlaggedContracts.
  destruct (negb (join nl (JSON_stringify E <$> flagged) =? EmptyString)%string)
    eqn:Hjoin.
  - assert (purposeful E
              (AppendFile (join nl (JSON_stringify E <$> flagged) +:+ nl)))
      as Hp.
    { exists flagged. split; [|done]. intros ->. discriminate. }
    unfold bind, appendFile_.
    destruct (appendFile E (appends w)) as [[]|e].
    + rewrite forEach_add. intros [= <- <-].
      eexists. split; [reflexivity|]. by repeat constructor.
    + intros [= <- <-]. eexists. split; [reflexivity|].
      by repeat constructor.
  - intros [= <- <-]. exists []. rewrite app_nil_r. by repeat constructor.
Qed.

Lemma persist_events (flagged : Flagged.t) (w w' : World) (r : Result unit) :
  persist E flagged w = (r, w') ->
  exists evs,
    trace w' = trace w ++ evs
    ∧ quiet is_fetch evs = true ∧ quiet is_create evs = true
    ∧ Forall (purposeful E) evs.
Proof.
  destruct flagged as [results|length].
  - rewrite persist_array. apply appendFlaggedContracts_events.
  - rewrite persist_not_array.
    destruct (Length.positive length); intros [= <- <-]; exists [];
      rewrite app_nil_r; by repeat constructor.
Qed.

(** The events of a turn: the line that opens it, the fetch, the
    classifier, and what follows. *)
Lemma turn_shape (m : Message) (F C tail : list Event) :
  spaced is_fetch true F = true -> quiet is_create F = true ->
  Forall (purposeful E) F ->
  spaced is_create true C = true -> quiet is_fetch C = true ->
  Forall (purposeful E) C ->
  quiet is_fetch tail = true -> quiet is_create tail = true ->
  Forall (purposeful E) tail ->
  let evs := Console m :: F ++ C ++ tail in
  spaced is_fetch true evs = true
  ∧ spaced is_create true evs = true
  ∧ Forall (purposeful E) evs
  ∧ (forall l,
       tail = l ++ [Sleep RATE_LIMIT_DELAY] ->
       rested_after is_fetch true evs = true
       ∧ rested_after is_create true evs = true).
Proof.
  intros HsF HqF HpF HsC HqC HpC Hqf Hqc Hp evs. unfold evs.
  cbn [spaced rested_after is_fetch is_create pause orb andb].
  rewrite !spaced_app, HsF.
  rewrite (quiet_spaced is_fetch _ C HqC), (quiet_spaced is_fetch _ tail Hqf).
  rewrite (quiet_spaced is_create _ F HqF), (quiet_rested is_create F HqF).
  rewrite HsC, (quiet_spaced is_create _ tail Hqc).
  do 2 (split; [done|]).
  split; [constructor; [exact I|]; by rewrite !Forall_app|].
  intros l ->. rewrite !app_assoc.
  split; by apply rested_after_pause.
Qed.

Lemma turn_events (st : RunState) (w w' : World) (r : Result Turn) :
  turn E st w = (r, w') ->
  exists evs,
    trace w' = trace w ++ evs
    ∧ spaced is_fetch true evs = true
    ∧ spaced is_create true evs = true
    ∧ Forall (purposeful E) evs
    ∧ (forall st',
         r = Ok (Continue st') ->
         rested_after is_fetch true evs = true
         ∧ rested_after is_create true evs = true).
Proof.
  rewrite turn_cases.
  destruct (getContractsWithRetry E (offset st) 0 _) as [r1 w1] eqn:Hfetch.
  apply getContractsWithRetry_events in Hfetch as (F & HtrF & HsF & HqF & HpF).
  simpl in HtrF.
  set (m := ProcessingBatch (batchNumber st) (offset st)) in *.
  assert (forall C tail w2,
            trace w2 = trace w1 ++ C ->
            trace (emits tail w2) = trace w ++ Console m :: F ++ C ++ tail)
    as Htrace.
  { intros C tail w2 HtrC. simpl. rewrite HtrC, HtrF, <- !app_assoc.
    reflexivity. }
  destruct r1 as [data|e].
  2: { intros [= <- <-]. eexists. split.
       { apply (Htrace [] _ w1). by rewrite app_nil_r. }
       destruct (turn_shape m F [] (reported st e)) as (? & ? & ? & _);
         try (done || by repeat constructor). }
  destruct (last_page data).
  { intros [= <- <-]. eexists. split.
    { apply (Htrace [] [Console NoMoreContracts] w1). by rewrite app_nil_r. }
    destruct (turn_shape m F [] [Console NoMoreContracts]) as (? & ? & ? & _);
      try (done || by repeat constructor). }
  cbv zeta. destruct (readable _) as [contracts|].
  2: { intros [= <- <-]. eexists. split.
       { apply (Htrace [] _ w1). by rewrite app_nil_r. }
       destruct (turn_shape m F [] (reported st TypeError))
         as (? & ? & ? & _); try (done || by repeat constructor). }
  destruct (filterHighValueContracts _ _) as [|c high].
  { intros [= <- <-]. eexists. split.
    { apply (Htrace [] _ w1). by rewrite app_nil_r. }
    destruct (turn_shape m F []
                [Console (NoNewHighValue (batchNumber st));
                 Sleep RATE_LIMIT_DELAY]) as (? & ? & ? & Hrested); try (done || by repeat constructor).
    do 3 (split; [done|]). intros st' _.
    by apply (Hrested [Console (NoNewHighValue (batchNumber st))]). }
  destruct (analyzeContractsWithGPT E (c :: high) 0 w1) as [r2 w2] eqn:Hgpt.
  apply analyzeContractsWithGPT_events in Hgpt as (C & HtrC & HsC & HqC & HpC);
    [|done].
  destruct r2 as [flagged|e].
  2: { intros [= <- <-]. eexists. split; [by apply (Htrace C _ w2)|].
       destruct (turn_shape m F C (reported st e)) as (? & ? & ? & _);
         try (done || by repeat constructor). }
  destruct (persist E flagged w2) as [r3 w3] eqn:Happend.
  apply persist_events in Happend as (A & HtrA & HqAf & HqAc & HpA).
  assert (forall tail,
            trace (emits tail w3)
            = trace w ++ Console m :: F ++ C ++ A ++ tail) as Htrace3.
  { intros tail. simpl. rewrite HtrA, HtrC, HtrF, <- !app_assoc.
    reflexivity. }
  destruct r3 as [[]|e]; intros [= <- <-].
  - eexists. split; [apply Htrace3|].
    match goal with
    | |- context [F ++ C ++ A ++ ?a :: ?b :: ?c] =>
        destruct (turn_shape m F C (A ++ a :: b :: c))
          as (? & ? & ? & Hrested);
          try (done || by repeat constructor);
          [by rewrite quiet_app, HqAf|by rewrite quiet_app, HqAc
          |apply Forall_app; split; [done|by repeat constructor]|];
          do 3 (split; [done|]); intros st' _;
          apply (Hrested (A ++ [a; b])); by rewrite <- app_assoc
    end.
  - eexists. split; [apply Htrace3|].
    destruct (turn_shape m F C (A ++ reported st e)) as (? & ? & ? & _);
      try (done || by repeat constructor);
      [by rewrite quiet_app, HqAf|by rewrite quiet_app, HqAc
      |apply Forall_app; split; [done|by repeat constructor]].
Qed.

Lemma loop_events (fuel : nat) (st : RunState) (w w' : World)
    (r : Run RunState) :
  loop E fuel st w = (r, w') ->
  exists evs,
    trace w' = trace w ++ evs
    ∧ spaced is_fetch true evs = true
    ∧ spaced is_create true evs = true
    ∧ Forall (purposeful E) evs.
Proof.
  revert st w. induction fuel as [|fuel IH]; intros st w.
  { intros [= <- <-]. exists []. by rewrite app_nil_r. }
  cbn [loop]. destruct (turn E st w) as [r1 w1] eqn:Hturn.
  apply turn_events in Hturn as (evs1 & Htr1 & Hf1 & Hc1 & Hp1 & Hrested).
  destruct r1 as [[st1|st1]|e].
  - intros Hloop. apply IH in Hloop as (evs2 & Htr2 & Hf2 & Hc2 & Hp2).
    destruct (Hrested st1 eq_refl) as [Hrf Hrc].
    exists (evs1 ++ evs2). rewrite Htr2, Htr1, <- app_assoc.
    split; [done|].
    rewrite !spaced_app, Hf1, Hc1, Hrf, Hrc, Hf2, Hc2.
    do 2 (split; [done|]). by apply Forall_app.
  - intros [= <- <-]. by exists evs1.
  - intros [= <- <-]. by exists evs1.
Qed.

Lemma analyze_events (fuel : nat) (startOffset : number) (w w' : World)
    (r : Run unit) :
  analyze E fuel startOffset w = (r, w') ->
  exists evs,
    trace w' = trace w ++ evs
    ∧ spaced is_fetch true evs = true
    ∧ spaced is_create true evs = true
    ∧ Forall (purposeful E) evs.
Proof.
  unfold analyze. unfold bind at 1.
  destruct (loadProcessedIds_trace E w) as [m0 Hload].
  destruct (loadProcessedIds_ok E w) as [w0 Hok]. rewrite Hok in *.
  simpl in Hload. unfold bind, log.
  case_loop r1 w2 Hloop.
  apply loop_events in Hloop as (evs & Htr & Hf & Hc & Hp).
  simpl in Htr. rewrite Hload, <- !app_assoc in Htr. simpl in Htr.
  assert (Forall (purposeful E)
            (Console m0 :: Console (StartingAnalysis startOffset)
             :: Console MinimumContractValue :: evs)) as Hp3
    by (by do 3 (constructor; [exact I|])).
  destruct r1 as [[st'|e]|st']; intros [= <- <-]; simpl.
  - eexists. rewrite Htr, <- !app_assoc. split; [reflexivity|].
    cbn [spaced rested_after is_fetch is_create pause orb andb app].
    rewrite !spaced_app, Hf, Hc. do 2 (split; [done|]).
    do 3 (constructor; [exact I|]).
    apply Forall_app. split; [done|]. by repeat constructor.
  - eexists. split; [exact Htr|]. done.
  - eexists. split; [exact Htr|]. done.
Qed.

(** Calls are spaced.  In the events that a run adds, whatever the
    network, the classifier and the disk do and wherever the run stops, no
    two calls of [fetch] follow one another without a wait of at least
    [RATE_LIMIT_DELAY] between them, and the same holds of the calls of the
    classifier. *)
Theorem calls_are_spaced (fuel : nat) (startOffset : number) (w : World) :
  exists evs,
    trace (snd (analyze E fuel startOffset w)) = trace w ++ evs
    ∧ spaced is_fetch true evs = true
    ∧ spaced is_create true evs = true.
Proof.
  destruct (analyze E fuel startOffset w) as [r w'] eqn:Hrun.
  apply analyze_events in Hrun as (evs & Htr & Hf & Hc & _).
  by exists evs.
Qed.

(** No call for nothing.  In the events that a run adds, every call
    of the classifier submits at least one contract, and every call of
    [appendFile] writes the serializations of at least one result, joined by
    line feeds and followed by one. *)
Theorem no_call_for_nothing (fuel : nat) (startOffset : number) (w : World) :
  exists evs,
    trace (snd (analyze E fuel startOffset w)) = trace w ++ evs
    ∧ forall ev,
        ev ∈ evs ->
        match ev with
        | Create candidates => (0 < candidates)%nat
        | AppendFile text =>
            exists flagged,
              flagged ≠ []
              ∧ text = join nl (JSON_stringify E <$> flagged) +:+ nl
        | _ => True
        end.
Proof.
  destruct (analyze E fuel startOffset w) as [r w'] eqn:Hrun.
  apply analyze_events in Hrun as (evs & Htr & _ & _ & Hp).
  exists evs. split; [done|]. intros ev Hev.
  rewrite Forall_forall in Hp. apply Hp in Hev.
  by destruct ev.
Qed.

End Events.

(** ** What a run leaves in place *)

Section Growth.

Variable E : Env.

Lemma extends_refl (w : World) : extends w w.
Proof.
  repeat split; try done. intros content ->. exists EmptyString.
  by rewrite append_empty_r.
Qed.

Lemma extends_trans (w1 w2 w3 : World) :
  extends w1 w2 -> extends w2 w3 -> extends w1 w3.
Proof.
  intros (Hi & Hf & ? & ? & ?) (Hi' & Hf' & ? & ? & ?).
  split; [set_solver|]. split; [|lia].
  intros content Hc. destruct (Hf content Hc) as [more Hmore].
  destruct (Hf' _ Hmore) as [more' Hmore'].
  exists (more +:+ more'). by rewrite Hmore', append_assoc.
Qed.

(** The world after calls, timers and console output only. *)
Lemma extends_calls (w w' : World) :
  file w' = file w -> processedIds w' = processedIds w ->
  (fetches w <= fetches w')%nat -> (creates w <= creates w')%nat ->
  (appends w <= appends w')%nat ->
  extends w w'.
Proof.
  intros Hf Hi ? ? ?. split; [by rewrite Hi|]. split; [|done].
  intros content Hc. exists EmptyString. by rewrite Hf, Hc, append_empty_r.
Qed.

Lemma appendFlaggedContracts_extends (flagged : list FlaggedContract.t)
    (w w' : World) (r : Result unit) :
  appendFlaggedContracts E flagged w = (r, w') -> extends w w'.
Proof.
  unfold appendFlaggedContracts.
  destruct (negb (join nl (JSON_stringify E <$> flagged) =? EmptyString)%string).
  - unfold bind, appendFile_.
    destruct (appendFile E (appends w)) as [[]|e].
    + rewrite forEach_add. intros [= <- <-].
      split; [simpl; set_solver|]. split; [|simpl; lia].
      intros content Hc. simpl. rewrite Hc. by eexists.
    + intros [= <- <-]. apply extends_calls; simpl; done || lia.
  - intros [= <- <-]. apply extends_refl.
Qed.

Lemma persist_extends (flagged : Flagged.t) (w w' : World)
    (r : Result unit) :
  persist E flagged w = (r, w') -> extends w w'.
Proof.
  destruct flagged as [results|length].
  - rewrite persist_array. apply appendFlaggedContracts_extends.
  - rewrite persist_not_array.
    destruct (Length.positive length); intros [= <- <-]; apply extends_refl.
Qed.

Lemma loadProcessedIds_extends (w w' : World) (r : Result unit) :
  loadProcessedIds E w = (r, w') -> extends w w'.
Proof.
  rewrite loadProcessedIds_spec. destruct (file w) as [content|] eqn:Hfile.
  - cbv zeta. destruct (all_parse _ _); intros [= <- <-];
      (split; [simpl; set_solver|]); (split; [|simpl; lia]);
      intros content' Hc; exists EmptyString; simpl;
      by rewrite Hc, append_empty_r.
  - intros [= <- <-]. apply extends_calls; simpl; done || lia.
Qed.

Lemma turn_extends (st : RunState) (w w' : World) (r : Result Turn) :
  turn E st w = (r, w') -> extends w w'.
Proof.
  rewrite turn_cases.
  destruct (getContractsWithRetry_from_schedule E (MAX_RETRIES - 0)
              (offset st) 0
              (emit (Console (ProcessingBatch (batchNumber st) (offset st))) w))
    as (errors & r1 & w1 & Hrun & _ & _ & _ & _ & Hfetches & Hf1 & Hi1 & Hc1
        & Ha1 & _).
  unfold getContractsWithRetry. rewrite Hrun. simpl in Hfetches, Hf1, Hi1, Hc1, Ha1.
  assert (extends w w1) as Hw1 by (apply extends_calls; done || lia).
  assert (forall evs w2, extends w w2 -> extends w (emits evs w2)) as Hemits.
  { intros evs w2 Hw2. eapply extends_trans; [exact Hw2|].
    by apply extends_calls. }
  destruct r1 as [data|e]; [|intros [= <- <-]; by apply Hemits].
  destruct (last_page data); [intros [= <- <-]; by apply (Hemits [_])|].
  cbv zeta. destruct (readable _) as [contracts|];
    [|intros [= <- <-]; by apply Hemits].
  destruct (filterHighValueContracts _ _) as [|c high];
    [intros [= <- <-]; by apply Hemits|].
  destruct (analyzeContractsWithGPT_spec E (c :: high) 0 w1)
    as (flagged & w2 & n & -> & (Hf2 & Hi2 & Hfe2 & Ha2 & Hc2) & _).
  assert (extends w w2) as Hw2.
  { eapply extends_trans; [exact Hw1|]. apply extends_calls; done || lia. }
  destruct (persist E flagged w2) as [r3 w3] eqn:Happend.
  apply persist_extends in Happend.
  assert (extends w w3) as Hw3 by (by eapply extends_trans).
  destruct r3 as [[]|e]; intros [= <- <-]; by apply Hemits.
Qed.

Lemma loop_extends (fuel : nat) (st : RunState) (w w' : World)
    (r : Run RunState) :
  loop E fuel st w = (r, w') -> extends w w'.
Proof.
  revert st w. induction fuel as [|fuel IH]; intros st w.
  { intros [= <- <-]. apply extends_refl. }
  cbn [loop]. destruct (turn E st w) as [[[st1|st1]|e] w1] eqn:Hturn;
    apply turn_extends in Hturn.
  - intros Hloop. apply IH in Hloop. by eapply extends_trans.
  - by intros [= <- <-].
  - by intros [= <- <-].
Qed.

(** A run only adds.  Whatever file it finds, well formed or not, and
    wherever it stops, the file it leaves is the file it found with text
    added at its end, a file that was there is still there, and no
    identifier has left the set. *)
Theorem run_only_adds (fuel : nat) (startOffset : number) (w : World) :
  let w' := snd (analyze E fuel startOffset w) in
  processedIds w ⊆ processedIds w'
  ∧ (forall content,
       file w = Some content ->
       exists more, file w' = Some (content +:+ more))
  ∧ (fetches w <= fetches w')%nat ∧ (creates w <= creates w')%nat
  ∧ (appends w <= appends w')%nat.
Proof.
  cbv zeta. change (extends w (snd (analyze E fuel startOffset w))).
  unfold analyze. unfold bind at 1.
  destruct (loadProcessedIds E w) as [r0 w0] eqn:Hload.
  apply loadProcessedIds_extends in Hload.
  destruct r0 as [[]|e]; [|done].
  unfold bind, log. case_loop r1 w2 Hloop.
  apply loop_extends in Hloop.
  assert (extends w w2) as Hw2.
  { eapply extends_trans; [exact Hload|].
    eapply extends_trans; [|exact Hloop]. by apply extends_calls. }
  destruct r1 as [[st'|e]|st']; simpl; [|done..].
  eapply extends_trans; [exact Hw2|]. by apply extends_calls.
Qed.

End Growth.

(** ** The pages a run asks for *)

Section Pages.

Variable E : Env.

Lemma fetched_app (l k : list Event) : fetched (l ++ k) = fetched l ++ fetched k.
Proof.
  induction l as [|ev l IH]; [done|]. destruct ev; simpl; by rewrite ?IH.
Qed.

Lemma quiet_fetched (l : list Event) :
  quiet is_fetch l = true -> fetched l = [].
Proof.
  induction l as [|ev l IH]; [done|]. destruct ev; simpl; try done.
Qed.

Lemma fetched_backoff (offset : number) (retries : nat) (errors : list Error) :
  fetched (backoff [Fetch offset] RetryFetch retries errors)
  = replicate (length errors) offset.
Proof.
  revert retries. induction errors as [|e errors IH]; intros retries; [done|].
  simpl. by rewrite IH.
Qed.

(** After the fetch, a turn asks for no other page. *)
Lemma turn_after_fetch (st : RunState) (w w' : World) (r : Result Turn) :
  turn E st w = (r, w') ->
  exists r1 w1 rest,
    getContractsWithRetry E (offset st) 0
      (emit (Console (ProcessingBatch (batchNumber st) (offset st))) w)
    = (r1, w1)
    ∧ trace w' = trace w1 ++ rest ∧ quiet is_fetch rest = true
    ∧ fetches w' = fetches w1.
Proof.
  rewrite turn_cases.
  destruct (getContractsWithRetry E (offset st) 0 _) as [r1 w1].
  assert (forall evs w2 C,
            trace w2 = trace w1 ++ C -> quiet is_fetch C = true ->
            fetches w2 = fetches w1 -> quiet is_fetch evs = true ->
            exists r1' w1' rest,
              (r1, w1) = (r1', w1')
              ∧ trace (emits evs w2) = trace w1' ++ rest
              ∧ quiet is_fetch rest = true
              ∧ fetches (emits evs w2) = fetches w1') as Hdone.
  { intros evs w2 C Htr HC Hf Hevs. exists r1, w1, (C ++ evs).
    split; [done|]. simpl. rewrite Htr, <- app_assoc, quiet_app, HC, Hevs.
    done. }
  destruct r1 as [data|e].
  2: { intros [= <- <-]. apply (Hdone _ w1 []); try done.
       by rewrite app_nil_r. }
  destruct (last_page data).
  { intros [= <- <-]. apply (Hdone [_] w1 []); try done.
    by rewrite app_nil_r. }
  cbv zeta. destruct (readable _) as [contracts|].
  2: { intros [= <- <-]. apply (Hdone _ w1 []); try done.
       by rewrite app_nil_r. }
  destruct (filterHighValueContracts _ _) as [|c high].
  { intros [= <- <-]. apply (Hdone _ w1 []); try done.
    by rewrite app_nil_r. }
  destruct (analyzeContractsWithGPT E (c :: high) 0 w1) as [r2 w2] eqn:Hgpt.
  pose proof (analyzeContractsWithGPT_events E (c :: high) w1 w2 r2
                ltac:(done) Hgpt) as (C & HtrC & _ & HqC & _).
  destruct (analyzeContractsWithGPT_spec E (c :: high) 0 w1)
    as (flagged & w2' & n & Hrun & (_ & _ & Hfe2 & _) & _).
  rewrite Hgpt in Hrun. injection Hrun as -> <-.
  destruct (persist E flagged w2) as [r3 w3] eqn:Happend.
  pose proof (persist_events E _ _ _ _ Happend) as (A & HtrA & HqA & _).
  assert (fetches w3 = fetches w2) as Hfe3.
  { revert Happend. destruct flagged as [results|length].
    - rewrite persist_array. unfold appendFlaggedContracts.
      destruct (negb _); [|by intros [= _ <-]].
      unfold bind, appendFile_.
      destruct (appendFile E (appends w2)) as [[]|e].
      + rewrite forEach_add. by intros [= _ <-].
      + by intros [= _ <-].
    - rewrite persist_not_array.
      by destruct (Length.positive length); intros [= _ <-]. }
  destruct r3 as [[]|e]; intros [= <- <-];
    apply (Hdone _ w3 (C ++ A)); try done;
    try (by rewrite HtrA, HtrC, <- app_assoc);
    try (by rewrite quiet_app, HqC, HqA); congruence.
Qed.

(** A turn asks for the page at its offset, once and once more for each
    attempt that failed. *)
Lemma turn_fetches (st : RunState) (w w' : World) (r : Result Turn) :
  turn E st w = (r, w') ->
  exists n,
    (1 <= n <= S MAX_RETRIES)%nat
    ∧ fetched (trace w') = fetched (trace w) ++ replicate n (offset st)
    ∧ fetches w' = (fetches w + n)%nat.
Proof.
  intros Hturn.
  apply turn_after_fetch in Hturn
    as (r1 & w1 & rest & Hfetch & Htr & Hrest & Hfe).
  destruct (getContractsWithRetry_from_schedule E (MAX_RETRIES - 0)
              (offset st) 0
              (emit (Console (ProcessingBatch (batchNumber st) (offset st))) w))
    as (errors & r0 & w0 & Hrun & Hlen & _ & _ & Htr1 & Hfetches & _).
  unfold getContractsWithRetry in Hfetch. rewrite Hfetch in Hrun.
  injection Hrun as <- <-. simpl in Htr1, Hfetches, Hlen.
  exists (S (length errors)). split; [unfold MAX_RETRIES in *; lia|].
  split; [|lia].
  rewrite Htr, Htr1, !fetched_app, fetched_backoff, (quiet_fetched rest Hrest).
  cbn [fetched]. rewrite !app_nil_r. f_equal.
  by rewrite replicate_S_end.
Qed.

Lemma loop_fetches (fuel : nat) (st : RunState) (w w' : World)
    (r : Run RunState) :
  loop E fuel st w = (r, w') ->
  exists attempts,
    fetched (trace w') = fetched (trace w) ++ visits (offset st) attempts
    ∧ Forall (fun n => 1 <= n <= S MAX_RETRIES)%nat attempts
    ∧ (length attempts <= fuel)%nat
    ∧ ((0 < fuel)%nat -> attempts ≠ [])
    ∧ fetches w' = (fetches w + sum_list attempts)%nat.
Proof.
  revert st w. induction fuel as [|fuel IH]; intros st w.
  { intros [= <- <-]. exists []. simpl. rewrite app_nil_r.
    repeat split; try done; lia. }
  cbn [loop]. destruct (turn E st w) as [r1 w1] eqn:Hturn.
  pose proof (turn_fetches _ _ _ _ Hturn) as (n & Hn & Htr1 & Hfe1).
  destruct r1 as [[st1|st1]|e].
  - intros Hloop. apply turn_next in Hturn as [Hoff _].
    apply IH in Hloop as (attempts & Htr & Hall & Hlen & _ & Hfe).
    exists (n :: attempts). cbn [visits sum_list_with length].
    change (id n) with n.
    rewrite Htr, Htr1, Hoff, <- app_assoc.
    split; [done|]. split; [by constructor|]. split; [lia|].
    split; [done|]. lia.
  - intros [= <- <-]. exists [n]. simpl. rewrite app_nil_r.
    split; [done|]. split; [by constructor|]. split; [lia|].
    split; [done|]. lia.
  - intros [= <- <-]. exists [n]. simpl. rewrite app_nil_r.
    split; [done|]. split; [by constructor|]. split; [lia|].
    split; [done|]. lia.
Qed.

Lemma analyze_fetches (fuel : nat) (startOffset : number) (w w' : World)
    (r : Run unit) :
  analyze E fuel startOffset w = (r, w') ->
  exists attempts,
    fetched (trace w') = fetched (trace w) ++ visits startOffset attempts
    ∧ Forall (fun n => 1 <= n <= S MAX_RETRIES)%nat attempts
    ∧ (length attempts <= fuel)%nat
    ∧ ((0 < fuel)%nat -> attempts ≠ [])
    ∧ fetches w' = (fetches w + sum_list attempts)%nat.
Proof.
  unfold analyze. unfold bind at 1.
  destruct (loadProcessedIds_trace E w) as [m0 Hload].
  destruct (loadProcessedIds E w) as [r0 w0] eqn:Hrun0.
  pose proof (loadProcessedIds_calls E w) as [Hfe0 _].
  rewrite Hrun0 in Hfe0.
  simpl in Hload, Hfe0.
  destruct r0 as [[]|e0].
  2: { destruct (loadProcessedIds_ok E w) as [? ?]. congruence. }
  unfold bind, log. case_loop r1 w2 Hloop.
  apply loop_fetches in Hloop as (attempts & Htr & Hall & Hlen & Hne & Hfe).
  simpl in Htr, Hfe. rewrite Hload, !fetched_app in Htr. simpl in Htr.
  rewrite !app_nil_r in Htr.
  destruct r1 as [[st'|e]|st']; intros [= <- <-]; exists attempts; simpl;
    rewrite ?fetched_app; simpl; rewrite ?app_nil_r;
    (split; [done|]); (split; [done|]); (split; [done|]); (split; [done|]);
    lia.
Qed.


Lemma appendFlaggedContracts_disk_ok (flagged : list FlaggedContract.t)
    (w : World) :
  (forall k, appendFile E k = Ok tt) ->
  exists w', appendFlaggedContracts E flagged w = (Ok tt, w').
Proof.
  intros Hdisk. unfold appendFlaggedContracts.
  destruct (negb _); [|by eexists].
  unfold bind, appendFile_. rewrite Hdisk, forEach_add. by eexists.
Qed.

Lemma persist_disk_ok (results : list FlaggedContract.t) (w : World) :
  (forall k, appendFile E k = Ok tt) ->
  exists w', persist E (Flagged.Array results) w = (Ok tt, w').
Proof.
  intros Hdisk. rewrite persist_array.
  by apply appendFlaggedContracts_disk_ok.
Qed.

(** A turn over a source that always answers, with a disk that takes every
    write and a classifier whose replies hold arrays: one call of [fetch],
    and the turn goes on unless the page is the last, or throws on a record
    it cannot read. *)
Lemma turn_reliable (source : number -> ApiResponse.t) (st : RunState)
    (w : World) :
  reliable E source -> (forall k, appendFile E k = Ok tt) -> arrays E ->
  (last_page (source (offset st)) = false ->
   is_Some (readable (ApiResponse.records
                        (ApiResponse.result (source (offset st)))))) ->
  exists t w',
    turn E st w = (Ok t, w')
    ∧ fetches w' = S (fetches w)
    ∧ fetched (trace w') = fetched (trace w) ++ [offset st]
    ∧ match t with
      | Break _ => last_page (source (offset st)) = true
      | Continue st' =>
          last_page (source (offset st)) = false
          ∧ offset st' = plus (offset st) BATCH_SIZE
      end.
Proof.
  intros Hsource Hdisk Harrays Hlegible.
  destruct (Hsource (fetches w) (offset st)) as (response & Hfetch & Hok & Hjson).
  pose proof (getContractsWithRetry_response E (offset st) 0
                (emit (Console (ProcessingBatch (batchNumber st) (offset st))) w)
                response Hfetch Hok) as Hget.
  rewrite Hjson in Hget.
  destruct (turn E st w) as [r w'] eqn:Hturn.
  pose proof (turn_after_fetch _ _ _ _ Hturn)
    as (r1 & w1 & rest & Hget' & Htr & Hrest & Hfe).
  rewrite Hget in Hget'. injection Hget' as <- <-.
  assert (fetches w' = S (fetches w)
          ∧ fetched (trace w') = fetched (trace w) ++ [offset st])
    as [Hfetches Hfetched].
  { split; [by rewrite Hfe|].
    rewrite Htr. simpl. rewrite !fetched_app, (quiet_fetched rest Hrest).
    simpl. by rewrite !app_nil_r. }
  rewrite turn_cases, Hget in Hturn.
  destruct (last_page (source (offset st))) eqn:Hlast.
  { injection Hturn as <- <-. by eexists _, _. }
  cbv zeta in Hturn. destruct (Hlegible eq_refl) as [contracts Hread].
  rewrite Hread in Hturn.
  destruct (filterHighValueContracts _ _) as [|c high].
  { injection Hturn as <- <-. by eexists _, _. }
  destruct (analyzeContractsWithGPT_spec E (c :: high) 0
              (fetching (offset st)
                 (emit (Console (ProcessingBatch (batchNumber st) (offset st)))
                    w)))
    as (flagged & w2 & n & Hgpt & _ & Hreply).
  rewrite Hgpt in Hturn.
  assert (exists results, flagged = Flagged.Array results) as [results ->].
  { destruct Hreply as [->|Hreply]; [by eexists|]. by eapply Harrays. }
  destruct (persist_disk_ok results w2 Hdisk) as [w3 Happend].
  rewrite Happend in Hturn. injection Hturn as <- <-. by eexists _, _.
Qed.

Lemma loop_reliable (source : number -> ApiResponse.t) (n fuel j : nat)
    (st : RunState) (w : World) :
  reliable E source -> (forall k, appendFile E k = Ok tt) -> arrays E ->
  ends_at source n -> legible source n ->
  offset st = page_offset j -> (j <= n)%nat -> (n - j < fuel)%nat ->
  exists st' w',
    loop E fuel st w = (Finished (Ok st'), w')
    ∧ fetched (trace w')
      = fetched (trace w) ++ (page_offset <$> seq j (S n - j))
    ∧ fetches w' = (fetches w + (S n - j))%nat.
Proof.
  intros Hsource Hdisk Harrays [Hbefore Hend] Hlegible. revert j st w.
  induction fuel as [|fuel IH]; intros j st w Hoff Hj Hfuel; [lia|].
  cbn [loop].
  assert (last_page (source (offset st)) = false ->
          is_Some (readable (ApiResponse.records
                               (ApiResponse.result (source (offset st))))))
    as Hread.
  { rewrite Hoff. intros Hlast. destruct (decide (j = n)) as [->|Hne].
    - congruence.
    - apply Hlegible. lia. }
  destruct (turn_reliable source st w Hsource Hdisk Harrays Hread)
    as (t & w1 & -> & Hfe & Htr & Ht).
  rewrite Hoff in Ht, Htr.
  destruct t as [st1|st1].
  - destruct Ht as [Hlast Hnext].
    assert (j < n)%nat as Hlt.
    { destruct (decide (j = n)) as [->|Hne]; [congruence|lia]. }
    destruct (IH (S j) st1 w1) as (st' & w' & -> & Htr' & Hfe');
      [by rewrite Hnext|lia|lia|].
    exists st', w'. split; [done|]. split; [|lia].
    rewrite Htr', Htr, <- app_assoc. f_equal.
    replace (S n - j)%nat with (S (S n - S j)) by lia. reflexivity.
  - assert (j = n) as ->.
    { destruct (decide (j = n)) as [->|Hne]; [done|].
      rewrite Hbefore in Ht by lia. discriminate. }
    exists st1, w1. split; [done|].
    replace (S n - n)%nat with 1%nat by lia. split; [done|lia].
Qed.


End Pages.

(** ** The process *)

Section EntryPoint.

Variable E : Env.

(** The status of the process.  Without a key, or with an empty one,
    the script prints one line and exits with status 1, and nothing is read
    or called.  With a key the status is never another than 0: a run that
    ends with an exception has its three lines printed by [analyze], then
    the line of the script's own [catch], and the process ends with status 0
    as a run that completes does.  The run always starts at offset 0: the
    first page asked for is the first page of the source. *)
Theorem exit_status (key output : option string) (fuel : nat) :
  match key with
  | None | Some EmptyString =>
      Main.main E key output fuel
      = (Main.Exited 1, [Main.Script Main.PleaseSetKey], Main.boot output)
  | Some _ =>
      exists p out w',
        Main.main E key output fuel
        = (p, Main.Script Main.StartingContractAnalysis :: out, w')
        ∧ (p = Main.Exited 0 ∨ exists st, p = Main.Running st)
        ∧ ((0 < fuel)%nat -> head (fetched (trace w')) = Some (of_Z 0))
        ∧ (forall e,
             fst (analyze E fuel 0 (Main.boot output)) = Finished (Threw e) ->
             p = Main.Exited 0
             ∧ exists out',
                 out = out' ++ [ Main.Analyzer (Console UseThisOffset);
                                 Main.Script (Main.ErrorDuringAnalysis e) ])
  end.
Proof.
  destruct key as [[|a key]|]; [reflexivity| |reflexivity].
  unfold Main.main.
  destruct (analyze E fuel 0 (Main.boot output)) as [r w'] eqn:Hrun.
  assert ((0 < fuel)%nat -> head (fetched (trace w')) = Some (of_Z 0)) as Hfirst.
  { intros Hfuel.
    destruct (analyze_fetches E _ _ _ _ _ Hrun)
      as (attempts & Htr & Hall & _ & Hne & _).
    rewrite Htr. simpl. destruct attempts as [|n attempts]; [by destruct Hne|].
    apply Forall_cons in Hall as [Hn _].
    destruct n as [|n]; [lia|]. reflexivity. }
  destruct r as [[[]|e]|st].
  - exists (Main.Exited 0),
      ((Main.Analyzer <$> trace w')
       ++ [Main.Script Main.AnalysisCompleteCheckFile]), w'.
    split; [reflexivity|]. split; [by left|].
    split; [done|]. discriminate.
  - assert (exists tr m1 m2,
              trace w' = tr ++ [Console m1; Console m2; Console UseThisOffset])
      as (tr & m1 & m2 & Htr).
    { revert Hrun. unfold analyze. unfold bind at 1.
      destruct (loadProcessedIds_ok E (Main.boot output)) as [w0 ->].
      unfold bind, log. case_loop r1 w2 Hloop.
      destruct r1 as [[st'|e']|st']; [discriminate| |discriminate].
      intros [= <- <-].
      apply loop_thrown in Hloop as (k & tr & _ & Htr & _).
      by eexists _, _, _. }
    exists (Main.Exited 0),
      ((Main.Analyzer <$> trace w')
       ++ [Main.Script (Main.ErrorDuringAnalysis e)]), w'.
    split; [reflexivity|]. split; [by left|].
    split; [done|]. intros e' [= <-]. split; [done|].
    exists (Main.Analyzer <$> tr ++ [Console m1; Console m2]).
    rewrite Htr, !fmap_app, <- !app_assoc. reflexivity.
  - exists (Main.Running st), (Main.Analyzer <$> trace w'), w'.
    split; [reflexivity|]. split; [right; by eexists|].
    split; [done|]. discriminate.
Qed.

End EntryPoint.

(** ** The threshold, on the doubles *)

Section Threshold.

Lemma pow2_pos (k : Z) : 0 <= k -> 0 < 2 ^ k.
Proof. intros. apply Z.pow_pos_nonneg; lia. Qed.

Lemma pow2_split (a b : Z) : 0 <= a <= b -> 2 ^ b = 2 ^ a * 2 ^ (b - a).
Proof. intros. rewrite <- Z.pow_add_r by lia. f_equal. lia. Qed.

Lemma pow2_le (a b : Z) : 0 <= a <= b -> 2 ^ a <= 2 ^ b.
Proof. intros. apply Z.pow_le_mono_r; lia. Qed.

Lemma exponent_bounds (n d : Z) :
  0 < n -> 0 < d ->
  (0 <= exponent n d -> d * 2 ^ exponent n d <= n)
  ∧ (-1 <= exponent n d -> n < d * 2 ^ (exponent n d + 1))
  ∧ (exponent n d < 0 -> n < d).
Proof.
  intros Hn Hd.
  destruct (Z.log2_spec n Hn) as [Hn1 Hn2].
  destruct (Z.log2_spec d Hd) as [Hd1 Hd2].
  pose proof (Z.log2_nonneg n) as Ha. pose proof (Z.log2_nonneg d) as Hb.
  unfold exponent, num_at, den_at. cbv zeta.
  set (a := Z.log2 n) in *. set (b := Z.log2 d) in *.
  rewrite Z.pow_succ_r in Hn2, Hd2 by done.
  destruct (Z_le_gt_dec b a) as [Hab|Hab].
  - replace (Z.max 0 (- (a - b))) with 0 by lia.
    replace (Z.max 0 (a - b)) with (a - b) by lia.
    rewrite (pow2_split b a) in Hn1, Hn2 by lia.
    pose proof (pow2_pos b Hb) as Hpb.
    pose proof (pow2_pos (a - b) ltac:(lia)) as Hpab.
    change (2 ^ 0) with 1. rewrite Z.mul_1_r.
    destruct (n <? d * 2 ^ (a - b)) eqn:Htest.
    + apply Z.ltb_lt in Htest. split; [|split].
      * intros He. rewrite (pow2_split (a - b - 1) (a - b)) in * by lia.
        replace (a - b - (a - b - 1)) with 1 in * by lia.
        change (2 ^ 1) with 2 in *.
        pose proof (pow2_pos (a - b - 1) ltac:(lia)). nia.
      * intros _. by replace (a - b - 1 + 1) with (a - b) by lia.
      * intros He. replace (a - b) with 0 in Htest by lia. simpl in Htest. lia.
    + apply Z.ltb_ge in Htest. split; [|split].
      * done.
      * intros _. rewrite (pow2_split (a - b) (a - b + 1)) by lia.
        replace (a - b + 1 - (a - b)) with 1 by lia. change (2 ^ 1) with 2.
        nia.
      * lia.
  - replace (Z.max 0 (- (a - b))) with (b - a) by lia.
    replace (Z.max 0 (a - b)) with 0 by lia.
    rewrite (pow2_split a b) in Hd1, Hd2 by lia.
    pose proof (pow2_pos a Ha) as Hpa.
    pose proof (pow2_pos (b - a) ltac:(lia)) as Hpba.
    change (2 ^ 0) with 1. rewrite Z.mul_1_r.
    assert (2 <= 2 ^ (b - a)) as Htwo.
    { change 2 with (2 ^ 1) at 1. apply pow2_le. lia. }
    destruct (n * 2 ^ (b - a) <? d) eqn:Htest.
    + apply Z.ltb_lt in Htest. split; [lia|]. split; [lia|]. nia.
    + apply Z.ltb_ge in Htest. split; [lia|]. split.
      * intros He. replace (a - b + 1) with 0 by lia. simpl. nia.
      * intros _. nia.
Qed.

Lemma binary64_eq (negative : bool) (n d : Z) :
  binary64 negative n d =
  if n =? 0 then Finite 0 0
  else
    let qe := Z.max (exponent n d) (-1022) - 52 in
    let m := nearest (num_at n qe) (den_at d qe) in
    if m =? 0 then Finite 0 0
    else if 1024 <=? Z.log2 m + qe then Infinity negative
    else Finite (if negative then - m else m) qe.
Proof. reflexivity. Qed.

Lemma nearest_bounds (N D : Z) :
  0 < D -> N / D <= nearest N D <= N / D + 1.
Proof.
  intros HD. unfold nearest. cbv zeta.
  destruct (2 * (N mod D) <? D); [lia|].
  destruct (D <? 2 * (N mod D)); [lia|].
  destruct (Z.even (N / D)); lia.
Qed.

(** Rounding to nearest, ties to even, reaches an even integer [T] exactly
    from [T - 1/2] on. *)
Lemma nearest_ge_even (N D T : Z) :
  0 < D -> Z.even T = true ->
  (T <= nearest N D <-> (2 * T - 1) * D <= 2 * N).
Proof.
  intros HD HT.
  pose proof (Z.div_mod N D ltac:(lia)) as Hdiv.
  pose proof (Z.mod_pos_bound N D HD) as Hmod.
  unfold nearest. cbv zeta.
  set (q := N / D) in *. set (r := N mod D) in *.
  destruct (2 * r <? D) eqn:H1; [apply Z.ltb_lt in H1; nia|].
  apply Z.ltb_ge in H1.
  destruct (D <? 2 * r) eqn:H2; [apply Z.ltb_lt in H2; nia|].
  apply Z.ltb_ge in H2.
  destruct (Z.even q) eqn:Hq.
  - apply Z.even_spec in Hq as [q' Hq']. apply Z.even_spec in HT as [T' HT'].
    nia.
  - rewrite <- Z.negb_odd in Hq. apply negb_false_iff, Z.odd_spec in Hq
      as [q' Hq'].
    apply Z.even_spec in HT as [T' HT']. nia.
Qed.

Lemma leb_both (a b c d : Z) : (a <= b <-> c <= d) -> (a <=? b) = (c <=? d).
Proof.
  intros H. apply Bool.eq_iff_eq_true. by rewrite !Z.leb_le.
Qed.

(** The comparison of [filterHighValueContracts], on the double nearest to
    [n / d]: it holds exactly from [50000 - 2^-38] on, the middle of 50000
    and the double before it. *)
Lemma binary64_threshold (n d : Z) :
  0 <= n -> 0 < d ->
  Number.ge (binary64 false n d) (of_Z 50000)
  = ((50000 * 2 ^ 38 - 1) * d <=? n * 2 ^ 38).
Proof.
  intros Hn Hd. rewrite binary64_eq.
  change (2 ^ 38) with 274877906944.
  destruct (n =? 0) eqn:Hzero.
  { apply Z.eqb_eq in Hzero. subst n. symmetry. apply Z.leb_gt. lia. }
  apply Z.eqb_neq in Hzero.
  destruct (exponent_bounds n d) as (Hlow & Hhigh & Hneg); [lia|lia|].
  set (e := exponent n d) in *. clearbody e. cbv zeta.
  destruct (Z_lt_le_dec e 15) as [He|He];
    [|destruct (Z.eq_dec e 15) as [He15|He15]].
  - (* below 2^15 *)
    assert (n < 32768 * d) as Hsmall.
    { destruct (Z_lt_le_dec e (-1)) as [He1|He1]; [specialize (Hneg ltac:(lia)); lia|].
      specialize (Hhigh He1).
      pose proof (pow2_le (e + 1) 15 ltac:(lia)) as Hp.
      change (2 ^ 15) with 32768 in Hp.
      pose proof (pow2_pos (e + 1) ltac:(lia)). nia. }
    set (qe := Z.max e (-1022) - 52).
    assert (qe <= -38) as Hqe by lia.
    unfold num_at, den_at.
    replace (Z.max 0 (- qe)) with (- qe) by lia.
    replace (Z.max 0 qe) with 0 by lia.
    change (2 ^ 0) with 1. rewrite Z.mul_1_r.
    pose proof (pow2_pos (- qe) ltac:(lia)) as HP.
    pose proof (nearest_bounds (n * 2 ^ (- qe)) d Hd) as Hm.
    pose proof (Z.div_lt_upper_bound (n * 2 ^ (- qe)) d
                  (32768 * 2 ^ (- qe)) Hd ltac:(nia)) as Hq.
    pose proof (Z.div_pos (n * 2 ^ (- qe)) d ltac:(nia) Hd) as Hq0.
    set (m := nearest (n * 2 ^ (- qe)) d) in *. clearbody m.
    assert (((50000 * 274877906944 - 1) * d <=? n * 274877906944) = false)
      as -> by (apply Z.leb_gt; lia).
    destruct (m =? 0) eqn:Hm0; [reflexivity|]. apply Z.eqb_neq in Hm0.
    assert (Z.log2 m < 16 - qe) as Hlog.
    { apply Z.log2_lt_pow2; [lia|].
      replace (16 - qe) with (16 + - qe) by lia.
      rewrite Z.pow_add_r by lia. change (2 ^ 16) with 65536. nia. }
    assert ((1024 <=? Z.log2 m + qe) = false) as -> by (apply Z.leb_gt; lia).
    unfold Number.ge, of_Z, scaled.
    replace (Z.min qe 0) with qe by lia.
    replace (0 - qe) with (- qe) by lia. replace (qe - qe) with 0 by lia.
    change (2 ^ 0) with 1. apply Z.leb_gt. nia.
  - (* between 2^15 and 2^16 *)
    subst e. specialize (Hlow ltac:(lia)). specialize (Hhigh ltac:(lia)).
    change (2 ^ 15) with 32768 in Hlow. change (2 ^ (15 + 1)) with 65536 in Hhigh.
    change (Z.max 15 (-1022) - 52) with (-37).
    change (num_at n (-37)) with (n * 137438953472).
    change (den_at d (-37)) with (d * 1). rewrite Z.mul_1_r.
    pose proof (nearest_bounds (n * 137438953472) d Hd) as Hm.
    pose proof (Z.div_lt_upper_bound (n * 137438953472) d
                  9007199254740992 Hd ltac:(lia)) as Hq.
    pose proof (Z.div_le_lower_bound (n * 137438953472) d
                  4503599627370496 Hd ltac:(lia)) as Hq0.
    pose proof (nearest_ge_even (n * 137438953472) d (50000 * 137438953472)
                  Hd eq_refl) as Hround.
    set (m := nearest (n * 137438953472) d) in *. clearbody m.
    assert ((m =? 0) = false) as -> by (apply Z.eqb_neq; lia).
    assert (Z.log2 m < 54) as Hlog.
    { apply Z.log2_lt_pow2; [lia|]. change (2 ^ 54) with 18014398509481984.
      lia. }
    assert ((1024 <=? Z.log2 m + -37) = false) as -> by (apply Z.leb_gt; lia).
    unfold Number.ge, of_Z, scaled.
    change (Z.min (-37) 0) with (-37). change (2 ^ (0 - -37)) with 137438953472.
    change (2 ^ (-37 - -37)) with 1.
    apply leb_both. rewrite Z.mul_1_r, Hround. lia.
  - (* from 2^16 on *)
    specialize (Hlow ltac:(lia)).
    pose proof (pow2_le 16 e ltac:(lia)) as Hp16. change (2 ^ 16) with 65536 in Hp16.
    assert (((50000 * 274877906944 - 1) * d <=? n * 274877906944) = true)
      as -> by (apply Z.leb_le; nia).
    replace (Z.max e (-1022) - 52) with (e - 52) by lia.
    set (qe := e - 52).
    assert (4503599627370496
            <= nearest (num_at n qe) (den_at d qe)) as Hbig.
    { unfold num_at, den_at.
      destruct (Z_lt_le_dec qe 0) as [Hqe|Hqe].
      - replace (Z.max 0 (- qe)) with (52 - e) by lia.
        replace (Z.max 0 qe) with 0 by lia.
        change (2 ^ 0) with 1. rewrite Z.mul_1_r.
        pose proof (pow2_split e 52 ltac:(lia)) as Hsplit.
        change (2 ^ 52) with 4503599627370496 in Hsplit.
        pose proof (pow2_pos (52 - e) ltac:(lia)).
        pose proof (nearest_bounds (n * 2 ^ (52 - e)) d Hd) as Hm.
        pose proof (Z.div_le_lower_bound (n * 2 ^ (52 - e)) d
                      4503599627370496 Hd ltac:(nia)).
        lia.
      - replace (Z.max 0 (- qe)) with 0 by lia.
        replace (Z.max 0 qe) with qe by lia.
        change (2 ^ 0) with 1. rewrite Z.mul_1_r.
        pose proof (pow2_split qe e ltac:(lia)) as Hsplit.
        replace (e - qe) with 52 in Hsplit by lia.
        change (2 ^ 52) with 4503599627370496 in Hsplit.
        pose proof (pow2_pos qe Hqe).
        pose proof (nearest_bounds n (d * 2 ^ qe) ltac:(nia)) as Hm.
        pose proof (Z.div_le_lower_bound n (d * 2 ^ qe)
                      4503599627370496 ltac:(nia) ltac:(nia)).
        lia. }
    set (m := nearest (num_at n qe) (den_at d qe)) in *. clearbody m.
    assert ((m =? 0) = false) as -> by (apply Z.eqb_neq; lia).
    destruct (1024 <=? Z.log2 m + qe); [reflexivity|].
    unfold Number.ge, of_Z, scaled. apply Z.leb_le.
    destruct (Z_lt_le_dec qe 0) as [Hqe|Hqe].
    + replace (Z.min qe 0) with qe by lia.
      replace (0 - qe) with (52 - e) by lia. replace (qe - qe) with 0 by lia.
      change (2 ^ 0) with 1.
      pose proof (pow2_le (52 - e) 36 ltac:(lia)) as Hp.
      change (2 ^ 36) with 68719476736 in Hp.
      pose proof (pow2_pos (52 - e) ltac:(lia)). nia.
    + replace (Z.min qe 0) with 0 by lia.
      replace (qe - 0) with qe by lia. change (2 ^ (0 - 0)) with 1.
      pose proof (pow2_pos qe Hqe). nia.
Qed.

Lemma uint_value_acc (acc : Z) (u : Decimal.uint) :
  uint_value acc u
  = acc * 10 ^ Z.of_nat (Decimal.nb_digits u) + uint_value 0 u.
Proof.
  revert acc. induction u as [|u IH|u IH|u IH|u IH|u IH|u IH|u IH|u IH|u IH|u IH];
    intros acc; [simpl; lia|..];
    cbn [uint_value Decimal.nb_digits]; rewrite Nat2Z.inj_succ, Z.pow_succ_r by lia;
    rewrite IH, (IH (10 * 0 + _)); lia.
Qed.

Lemma uint_value_bounds (u : Decimal.uint) :
  0 <= uint_value 0 u < 10 ^ Z.of_nat (Decimal.nb_digits u).
Proof.
  induction u as [|u IH|u IH|u IH|u IH|u IH|u IH|u IH|u IH|u IH|u IH];
    [simpl; lia|..];
    cbn [uint_value Decimal.nb_digits]; rewrite Nat2Z.inj_succ, Z.pow_succ_r by lia;
    rewrite uint_value_acc; lia.
Qed.

Lemma uint_value_pos_acc (l : Decimal.uint) (p : positive) :
  Z.pos (Pos.of_uint_acc l p) = uint_value (Z.pos p) l.
Proof.
  revert p. induction l as [|u IH|u IH|u IH|u IH|u IH|u IH|u IH|u IH|u IH|u IH];
    intros p; [reflexivity|..]; cbn [Pos.of_uint_acc uint_value];
    rewrite IH; f_equal; lia.
Qed.

(** It is the number the library reads from the digits. *)
Lemma uint_value_of_uint (u : Decimal.uint) :
  uint_value 0 u = Z.of_N (N.of_uint u).
Proof.
  unfold N.of_uint.
  induction u as [|u IH|u IH|u IH|u IH|u IH|u IH|u IH|u IH|u IH|u IH];
    [reflexivity|exact IH|..]; cbn [Pos.of_uint uint_value];
    by rewrite N2Z.inj_pos, uint_value_pos_acc.
Qed.

Lemma digits_uint (acc : Z) (count : nat) (u : Decimal.uint) (rest : string) :
  ends_number rest ->
  digits acc count (NilEmpty.string_of_uint u +:+ rest)
  = (uint_value acc u, (count + Decimal.nb_digits u)%nat, rest).
Proof.
  intros Hrest. revert acc count.
  induction u as [|u IH|u IH|u IH|u IH|u IH|u IH|u IH|u IH|u IH|u IH];
    intros acc count.
  { simpl. rewrite Nat.add_0_r. destruct rest as [|a rest]; [done|].
    simpl in *. by rewrite Hrest. }
  all: cbn [NilEmpty.string_of_uint uint_value Decimal.nb_digits];
    rewrite append_cons; cbn [digits];
    match goal with
    | |- context [is_digit ?a] => change (is_digit a) with true
    end; cbv iota; rewrite IH, Nat.add_succ_r; reflexivity.
Qed.

(** [parseFloat] on a string that begins with a digit: no sign. *)
Lemma parseFloat_digit (a : ascii) (s : string) :
  is_digit a = true ->
  parseFloat (String a s) =
  let '(whole, nwhole, rest) := digits 0 0 (String a s) in
  let '(mant, nfrac) :=
    match rest with
    | String "." rest' =>
        let '(m, n, _) := digits whole 0 rest' in (m, n)
    | _ => (whole, 0%nat)
    end in
  match nwhole, nfrac with
  | O, O => NaN
  | _, _ => binary64 false mant (10 ^ Z.of_nat nfrac)
  end.
Proof.
  destruct a as [[] [] [] [] [] [] [] []]; intros H;
    try discriminate H; reflexivity.
Qed.

Lemma string_of_uint_cons (u : Decimal.uint) :
  u <> Decimal.Nil ->
  exists a s,
    NilEmpty.string_of_uint u = String a s ∧ is_digit a = true
    ∧ Decimal.nb_digits u <> 0%nat.
Proof.
  destruct u; [done|..]; intros _; eexists _, _; (split; [reflexivity|]);
    (split; [reflexivity|done]).
Qed.

(** [parseFloat] on digits, a point and digits. *)
Lemma parseFloat_point (whole frac : Decimal.uint) :
  whole <> Decimal.Nil ->
  parseFloat (NilEmpty.string_of_uint whole +:+ "."
              +:+ NilEmpty.string_of_uint frac)
  = binary64 false (uint_value (uint_value 0 whole) frac)
      (10 ^ Z.of_nat (Decimal.nb_digits frac)).
Proof.
  intros Hwhole.
  destruct (string_of_uint_cons whole Hwhole) as (a & s & Hs & Ha & Hnb).
  rewrite Hs, append_cons, (parseFloat_digit _ _ Ha), <- append_cons, <- Hs.
  rewrite digits_uint by reflexivity.
  change ("." +:+ NilEmpty.string_of_uint frac)
    with (String "." (NilEmpty.string_of_uint frac)).
  cbv iota beta.
  rewrite <- (append_empty_r (NilEmpty.string_of_uint frac)).
  rewrite digits_uint by exact I.
  simpl. destruct (Decimal.nb_digits whole); [done|reflexivity].
Qed.

(** [parseFloat] on digits alone. *)
Lemma parseFloat_whole (whole : Decimal.uint) :
  whole <> Decimal.Nil ->
  parseFloat (NilEmpty.string_of_uint whole)
  = binary64 false (uint_value 0 whole) 1.
Proof.
  intros Hwhole.
  destruct (string_of_uint_cons whole Hwhole) as (a & s & Hs & Ha & Hnb).
  rewrite Hs, (parseFloat_digit _ _ Ha), <- Hs.
  rewrite <- (append_empty_r (NilEmpty.string_of_uint whole)).
  rewrite digits_uint by exact I.
  simpl. destruct (Decimal.nb_digits whole); [done|reflexivity].
Qed.

Lemma digit_value_nonneg (a : ascii) : is_digit a = true -> 0 <= digit_value a.
Proof.
  unfold is_digit, digit_value. cbv zeta.
  intros [H _]%andb_true_iff. apply N.leb_le in H. lia.
Qed.

Lemma digits_nonneg (acc : Z) (count : nat) (s : string) :
  0 <= acc -> 0 <= (digits acc count s).1.1.
Proof.
  revert acc count. induction s as [|a s IH]; intros acc count Hacc; [done|].
  cbn [digits]. destruct (is_digit a) eqn:Ha; [|done].
  apply IH. pose proof (digit_value_nonneg a Ha). lia.
Qed.

(** The double nearest to [- n / d] is under the threshold. *)
Lemma binary64_negative (n d : Z) :
  0 <= n -> 0 < d ->
  Number.ge (binary64 true n d) (of_Z 50000) = false.
Proof.
  intros Hn Hd. rewrite binary64_eq.
  destruct (n =? 0); [reflexivity|]. cbv zeta.
  set (qe := Z.max (exponent n d) (-1022) - 52). clearbody qe.
  assert (0 < den_at d qe) as HD.
  { unfold den_at. pose proof (pow2_pos (Z.max 0 qe) ltac:(lia)). nia. }
  assert (0 <= num_at n qe) as HN.
  { unfold num_at. pose proof (pow2_pos (Z.max 0 (- qe)) ltac:(lia)). nia. }
  pose proof (nearest_bounds (num_at n qe) (den_at d qe) HD) as Hm.
  pose proof (Z.div_pos _ _ HN HD) as Hq.
  set (m := nearest (num_at n qe) (den_at d qe)) in *. clearbody m.
  destruct (m =? 0); [reflexivity|].
  destruct (1024 <=? Z.log2 m + qe); [reflexivity|].
  unfold Number.ge, of_Z, scaled. apply Z.leb_gt.
  pose proof (pow2_pos (0 - Z.min qe 0) ltac:(lia)).
  pose proof (pow2_pos (qe - Z.min qe 0) ltac:(lia)). nia.
Qed.

(** The threshold on plain amounts.  Take a value that, once
    everything but digits, [.] and [-] is removed, is a whole part alone or a
    whole part, a point and decimals.  The record passes the threshold
    exactly when the amount is at least [50000 - 2^-38], the middle of 50000
    and the double before it; with eleven decimals or fewer, exactly when
    the whole part is at least 50000. *)
Theorem threshold_on_plain_amounts (c : Contract.t)
    (whole frac : Decimal.uint) :
  whole ≠ Decimal.Nil ->
  keep is_numeric_char (Contract.contract_value c)
  = NilEmpty.string_of_uint whole +:+ "." +:+ NilEmpty.string_of_uint frac
  ∨ frac = Decimal.Nil
    ∧ keep is_numeric_char (Contract.contract_value c)
      = NilEmpty.string_of_uint whole ->
  let W := Z.of_N (N.of_uint whole) in
  let F := Z.of_N (N.of_uint frac) in
  let scale := 10 ^ Z.of_nat (Decimal.nb_digits frac) in
  isHighValue c
  = ((50000 * 2 ^ 38 - 1) * scale <=? (W * scale + F) * 2 ^ 38)
  ∧ ((Decimal.nb_digits frac <= 11)%nat -> isHighValue c = (50000 <=? W)).
Proof.
  intros Hwhole Htext W F scale.
  pose proof (uint_value_bounds whole) as [HW _].
  pose proof (uint_value_bounds frac) as HF.
  rewrite uint_value_of_uint in HW, HF. fold W in HW. fold F scale in HF.
  assert (0 < scale) as Hscale by (apply Z.pow_pos_nonneg; lia).
  assert (isHighValue c
          = ((50000 * 2 ^ 38 - 1) * scale <=? (W * scale + F) * 2 ^ 38))
    as Hexact.
  { unfold isHighValue, parseContractValue, MIN_CONTRACT_VALUE.
    assert (parseFloat (keep is_numeric_char (Contract.contract_value c))
            = binary64 false (W * scale + F) scale) as ->.
    { destruct Htext as [->|[Hnil ->]].
      - rewrite parseFloat_point by done.
        by rewrite uint_value_acc, !uint_value_of_uint.
      - rewrite parseFloat_whole by done.
        unfold W, F, scale. rewrite Hnil, uint_value_of_uint. simpl.
        f_equal. lia. }
    apply binary64_threshold; nia. }
  split; [exact Hexact|]. intros Hfew. rewrite Hexact.
  assert (scale <= 10 ^ 11) as Hle.
  { apply Z.pow_le_mono_r; lia. }
  change (10 ^ 11) with 100000000000 in Hle.
  change (2 ^ 38) with 274877906944.
  apply leb_both. nia.
Qed.

(** A value whose first character, among the digits, [.] and [-] it
    holds, is a minus sign never passes the threshold: it parses to a
    negative number, to zero or to NaN. *)
Theorem minus_first_is_never_selected (c : Contract.t) (s : string) :
  keep is_numeric_char (Contract.contract_value c) = String "-" s ->
  isHighValue c = false.
Proof.
  intros Htext.
  unfold isHighValue, parseContractValue, MIN_CONTRACT_VALUE. rewrite Htext.
  unfold parseFloat.
  pose proof (digits_nonneg 0 0 s ltac:(lia)) as Hwhole.
  destruct (digits 0 0 s) as [[whole nwhole] rest]. simpl in Hwhole.
  assert (forall mant nfrac,
            0 <= mant ->
            Number.ge
              match nwhole, nfrac with
              | O, O => NaN
              | _, _ => binary64 true mant (10 ^ Z.of_nat nfrac)
              end (of_Z 50000) = false) as Hcases.
  { intros mant nfrac Hmant.
    destruct nwhole, nfrac; try reflexivity;
      apply binary64_negative; try done; apply Z.pow_pos_nonneg; lia. }
  destruct rest as [|a rest']; [exact (Hcases whole 0%nat Hwhole)|].
  destruct (Ascii.eqb a ".") eqn:Ha.
  - apply Ascii.eqb_eq in Ha. subst a.
    pose proof (digits_nonneg whole 0 rest' Hwhole) as Hmant.
    destruct (digits whole 0 rest') as [[m n] rest''].
    exact (Hcases m n Hmant).
  - assert (match a with
            | "."%char =>
                let '(m, n, _) := digits whole 0 rest' in (m, n)
            | _ => (whole, 0%nat)
            end = (whole, 0%nat)) as ->.
    { destruct a as [[] [] [] [] [] [] [] []]; try reflexivity.
      discriminate Ha. }
    exact (Hcases whole 0%nat Hwhole).
Qed.

End Threshold.

(** ** Resuming a run that was interrupted *)

Section Resuming.

Variable E : Env.

Lemma alike_refl (w : World) : alike w w.
Proof. by repeat split. Qed.

Lemma alike_emits (evs evs' : list Event) (w w' : World) :
  alike w w' -> alike (emits evs w) (emits evs' w').
Proof. intros (? & ? & ? & ? & ?). by repeat split. Qed.

(** One attempt of [getContractsWithRetry], and what follows it. *)
Lemma getContractsWithRetry_from_step (remaining : nat) (offset : number)
    (retries : nat) (w : World) :
  getContractsWithRetry_from E remaining offset retries w =
  match failure (fetch E (fetches w) offset) with
  | None =>
      match fetch E (fetches w) offset with
      | Ok response => (json response, fetching offset w)
      | Threw e => (Threw e, fetching offset w)
      end
  | Some e =>
      match remaining with
      | S remaining' =>
          if (retries <? MAX_RETRIES)%nat then
            getContractsWithRetry_from E remaining' offset (retries + 1)
              (emit (Sleep (RATE_LIMIT_DELAY * (Z.of_nat retries + 1)))
                 (emit (Console (RetryFetch (retries + 1) e))
                    (fetching offset w)))
          else (Threw e, fetching offset w)
      | O => (Threw e, fetching offset w)
      end
  end.
Proof.
  destruct remaining as [|remaining]; simpl; unfold bind at 1;
    unfold try_catch;
    destruct (failure (fetch E (fetches w) offset)) as [e|] eqn:Hfail.
  - rewrite (request_failure _ _ _ _ Hfail).
    by destruct (retries <? MAX_RETRIES)%nat.
  - destruct (failure_none _ Hfail) as (response & Hfetch & Hok).
    by rewrite (request_success _ _ _ _ Hfetch Hok), Hfetch.
  - rewrite (request_failure _ _ _ _ Hfail).
    destruct (retries <? MAX_RETRIES)%nat; [|reflexivity].
    unfold bind, log, sleep, promise, await.
    by destruct (getContractsWithRetry_from E remaining offset _ _)
      as [[data|e'] w'].
  - destruct (failure_none _ Hfail) as (response & Hfetch & Hok).
    by rewrite (request_success _ _ _ _ Hfetch Hok), Hfetch.
Qed.

Ltac alike_solve :=
  simpl; unfold alike in *; simpl; repeat split; intuition congruence.

(** What the methods do does not depend on the events so far. *)
Lemma getContractsWithRetry_from_alike (remaining : nat) (offset : number)
    (retries : nat) (w w' : World) :
  alike w w' ->
  (getContractsWithRetry_from E remaining offset retries w).1
  = (getContractsWithRetry_from E remaining offset retries w').1
  ∧ alike (getContractsWithRetry_from E remaining offset retries w).2
      (getContractsWithRetry_from E remaining offset retries w').2.
Proof.
  revert retries w w'.
  induction remaining as [|remaining IH]; intros retries w w' Hw;
    pose proof Hw as (Hf & Hi & Hfe & Hc & Ha);
    rewrite !getContractsWithRetry_from_step, <- Hfe;
    destruct (failure (fetch E (fetches w) offset)) as [e|].
  - alike_solve.
  - destruct (fetch E (fetches w) offset); alike_solve.
  - destruct (retries <? MAX_RETRIES)%nat; [|alike_solve].
    apply IH. alike_solve.
  - destruct (fetch E (fetches w) offset); alike_solve.
Qed.

Lemma analyzeContractsWithGPT_from_alike (remaining : nat)
    (contracts : list Contract.t) (retries : nat) (w w' : World) :
  alike w w' ->
  (analyzeContractsWithGPT_from E remaining contracts retries w).1
  = (analyzeContractsWithGPT_from E remaining contracts retries w').1
  ∧ alike (analyzeContractsWithGPT_from E remaining contracts retries w).2
      (analyzeContractsWithGPT_from E remaining contracts retries w').2.
Proof.
  revert retries w w'.
  induction remaining as [|remaining IH]; intros retries w w' Hw;
    pose proof Hw as (Hf & Hi & Hfe & Hc & Ha);
    simpl; unfold try_catch; rewrite !classify_spec, <- Hc;
    destruct (classified E (create E (creates w) contracts)) as [l|e].
  - alike_solve.
  - destruct (retries <? MAX_RETRIES)%nat; alike_solve.
  - alike_solve.
  - destruct (retries <? MAX_RETRIES)%nat; [|alike_solve].
    unfold bind, log, sleep. apply IH. alike_solve.
Qed.

Lemma appendFlaggedContracts_alike (flagged : list FlaggedContract.t)
    (w w' : World) :
  alike w w' ->
  (appendFlaggedContracts E flagged w).1
  = (appendFlaggedContracts E flagged w').1
  ∧ alike (appendFlaggedContracts E flagged w).2
      (appendFlaggedContracts E flagged w').2.
Proof.
  intros (Hf & Hi & Hfe & Hc & Ha). unfold appendFlaggedContracts.
  destruct (negb _); [|alike_solve].
  unfold bind, appendFile_. rewrite <- Ha.
  destruct (appendFile E (appends w)) as [[]|e].
  - rewrite !forEach_add. alike_solve.
  - alike_solve.
Qed.

Lemma persist_alike (flagged : Flagged.t) (w w' : World) :
  alike w w' ->
  (persist E flagged w).1 = (persist E flagged w').1
  ∧ alike (persist E flagged w).2 (persist E flagged w').2.
Proof.
  intros Hw. destruct flagged as [results|length].
  - rewrite !persist_array. by apply appendFlaggedContracts_alike.
  - rewrite !persist_not_array. by destruct (Length.positive length).
Qed.

Lemma turn_alike (st st' : RunState) (w w' : World) :
  offset st = offset st' -> alike w w' ->
  same_turn (turn E st w).1 (turn E st' w').1
  ∧ alike (turn E st w).2 (turn E st' w').2.
Proof.
  intros Hoff Hw. rewrite !turn_cases, <- Hoff.
  unfold getContractsWithRetry.
  match goal with
  | |- context [getContractsWithRetry_from E ?n ?o ?k (emit ?a w)] =>
      match goal with
      | |- context [getContractsWithRetry_from E n o k (emit ?b w')] =>
          destruct (getContractsWithRetry_from_alike n o k (emit a w)
                      (emit b w')) as [Hr1 Hw1];
            [by apply (alike_emits [_] [_])|];
          destruct (getContractsWithRetry_from E n o k (emit a w))
            as [r1 w1];
          destruct (getContractsWithRetry_from E n o k (emit b w'))
            as [r1' w1']
      end
  end.
  simpl in Hr1, Hw1. subst r1'.
  destruct r1 as [data|e]; [|split; [done|by apply alike_emits]].
  destruct (last_page data); [split; [done|by apply (alike_emits [_] [_])]|].
  cbv zeta. pose proof Hw1 as (_ & Hi1 & _). rewrite <- Hi1.
  destruct (readable _) as [contracts|];
    [|split; [done|by apply alike_emits]].
  destruct (filterHighValueContracts _ _) as [|c high];
    [split; [simpl; by rewrite Hoff|by apply alike_emits]|].
  unfold analyzeContractsWithGPT.
  destruct (analyzeContractsWithGPT_from_alike (MAX_RETRIES - 0) (c :: high) 0
              w1 w1' Hw1) as [Hr2 Hw2].
  destruct (analyzeContractsWithGPT_from E _ (c :: high) 0 w1) as [r2 w2].
  destruct (analyzeContractsWithGPT_from E _ (c :: high) 0 w1') as [r2' w2'].
  simpl in Hr2, Hw2. subst r2'.
  destruct r2 as [flagged|e]; [|split; [done|by apply alike_emits]].
  destruct (persist_alike flagged w2 w2' Hw2) as [Hr3 Hw3].
  destruct (persist E flagged w2) as [r3 w3].
  destruct (persist E flagged w2') as [r3' w3'].
  simpl in Hr3, Hw3. subst r3'.
  destruct r3 as [[]|e]; (split; [|by apply alike_emits]).
  - simpl. by rewrite Hoff.
  - done.
Qed.

Lemma loop_alike (fuel : nat) (st st' : RunState) (w w' : World) :
  offset st = offset st' -> alike w w' ->
  match (loop E fuel st w).1, (loop E fuel st' w').1 with
  | Finished (Ok _), Finished (Ok _) => True
  | Finished (Threw e), Finished (Threw e') => e = e'
  | Looping s, Looping s' => offset s = offset s'
  | _, _ => False
  end
  ∧ alike (loop E fuel st w).2 (loop E fuel st' w').2.
Proof.
  revert st st' w w'. induction fuel as [|fuel IH]; intros st st' w w' Hoff Hw.
  { by split. }
  cbn [loop]. destruct (turn_alike st st' w w' Hoff Hw) as [Hr Hw1].
  destruct (turn E st w) as [r1 w1]. destruct (turn E st' w') as [r1' w1'].
  simpl in Hr, Hw1. unfold same_turn in Hr.
  destruct r1 as [[s1|s1]|e], r1' as [[s1'|s1']|e']; try done.
  by apply IH.
Qed.

(** [analyze] once the load, which does not throw, is done. *)
Lemma analyze_eq (fuel : nat) (startOffset : number) (w : World) :
  analyze E fuel startOffset w =
  match loop E fuel (start startOffset)
          (emit (Console MinimumContractValue)
             (emit (Console (StartingAnalysis startOffset))
                (loadProcessedIds E w).2)) with
  | (Finished (Ok st'), w2) =>
      (Finished (Ok tt),
       emit (Console (AnalysisComplete (totalContracts st')
                        (totalHighValue st') (totalFlagged st'))) w2)
  | (Finished (Threw e), w2) => (Finished (Threw e), w2)
  | (Looping st', w2) => (Looping st', w2)
  end.
Proof.
  unfold analyze. unfold bind at 1.
  destruct (loadProcessedIds_ok E w) as [wl ->]. reflexivity.
Qed.

Lemma loop_looping_offset (k : nat) (st0 st : RunState) (w w' : World) :
  loop E k st0 w = (Looping st, w') ->
  offset st = offset_after k (offset st0).
Proof.
  revert st0 w. induction k as [|k IH]; intros st0 w.
  { by intros [= <- <-]. }
  cbn [loop]. destruct (turn E st0 w) as [[[st1|st1]|e] w1] eqn:Hturn;
    [|discriminate..].
  intros Hloop. apply IH in Hloop. apply turn_next in Hturn as [Hoff _].
  by rewrite Hloop, Hoff, offset_after_next.
Qed.

(** Resuming is seamless.  Take a process that starts over a log left by
    earlier runs and is stopped after [k] turns, between two turns: it has
    then added [BATCH_SIZE] to its offset [k] times, which makes
    [BATCH_SIZE * k] as long as that is below [2^53].  A new
    process that resumes from the offset the first had reached ends as the
    first would have ended without the interruption, with the same file and
    the same set, after the same calls.  The network, the classifier and the
    disk are taken to answer the calls of the second process as they would
    have answered the same calls of the first; the serializer is assumed to
    write each result on one line, between braces, and [JSON.parse] to give
    back the [contract_id] that was written. *)
Theorem resume_is_seamless (k fuel : nat) (entries : list FlaggedContract.t)
    (w0 w1 : World) (st : RunState) :
  (forall c, one_line (JSON_stringify E c)) ->
  (forall c,
     FlaggedContract.contract_id <$> JSON_parse E (JSON_stringify E c)
     = Some (FlaggedContract.contract_id c)) ->
  file w0 = log_of E entries -> processedIds w0 = ∅ ->
  analyze E k 0 w0 = (Looping st, w1) ->
  offset st = page_offset k
  ∧ (BATCH_SIZE * Z.of_nat k < 2 ^ 53 -> offset st = (BATCH_SIZE * Z.of_nat k))
  ∧ same_end (analyze E (k + fuel) 0 w0).1
      (analyze E fuel (offset st) (restart w1)).1
  ∧ alike (analyze E (k + fuel) 0 w0).2
      (analyze E fuel (offset st) (restart w1)).2.
Proof.
  intros Hline Hround Hfile Hids Hrun.
  destruct (analyze_logged E k 0 entries w0 w1 _ Hline Hround Hfile Hids Hrun)
    as (more & Hw1 & _).
  destruct (reload_consistent E Hline Hround w1 ltac:(by eexists))
    as (w1r & Hreload & Hi & Hf & Hfe & Hc & Ha).
  rewrite analyze_eq in Hrun. rewrite !analyze_eq, Hreload.
  destruct (loop E k (start 0) _) as [rk wk] eqn:Hk.
  destruct rk as [[stk|ek]|stk]; [discriminate..|]. injection Hrun as -> ->.
  rewrite (loop_app E k fuel _ _ _ _ Hk).
  apply loop_looping_offset in Hk as Hoff. simpl in Hoff.
  split; [exact Hoff|].
  split; [intros Hbound; rewrite Hoff; by apply page_offset_whole|].
  match goal with
  | |- context [loop E fuel (start (offset st)) ?w] =>
      destruct (loop_alike fuel st (start (offset st)) w1 w eq_refl)
        as [Hr Hw]; [alike_solve|];
      destruct (loop E fuel st w1) as [r2 w2];
      destruct (loop E fuel (start (offset st)) w) as [r2' w2']
  end.
  simpl in Hr, Hw.
  destruct r2 as [[s2|e2]|s2], r2' as [[s2'|e2']|s2']; try done; simpl;
    (split; [done|]); by apply (alike_emits [_] [_]).
Qed.

End Resuming.

(** ** The further statements on the scenarios *)

Section OnScenarios.

Import Demo Examples Scenarios.

(** [unreadable_body_ends_the_run] on the server whose body is not JSON. *)
Lemma unreadable_body_witness :
  exists w',
    turn garbled (start 0) fresh = (Threw SyntaxError, w')
    ∧ loop garbled 1 (start 0) fresh = (Finished (Threw SyntaxError), w')
    ∧ trace w' =
        trace fresh
        ++ [ Console (ProcessingBatch 1 0); Fetch 0;
             Console (ErrorProcessingBatch 1 SyntaxError);
             Console (LastSuccessfulOffset 0);
             Console UseThisOffset ]
    ∧ fetches w' = 1%nat
    ∧ file w' = None ∧ processedIds w' = ∅
    ∧ creates w' = 0%nat ∧ appends w' = 0%nat.
Proof.
  exact (unreadable_body_ends_the_run garbled 0 (start 0) fresh
           garbled_response SyntaxError eq_refl eq_refl eq_refl).
Defined.


Lemma flag_all_arrays (fetch : nat -> number -> Result Response)
    (appendFile : nat -> Result unit) :
  arrays (env fetch flag_all appendFile).
Proof.
  intros k candidates flagged Hreply.
  destruct (flag_all_flags_all fetch appendFile k candidates)
    as (results & Hresults & _).
  rewrite Hresults in Hreply. injection Hreply as <-. by eexists.
Qed.


(** [failure_names_the_batch] on the network that is down after the first
    page. *)
Lemma failure_names_witness :
  exists k tr,
    (k < 5)%nat
    ∧ trace (snd (analyze cut 5 0 fresh)) =
        tr ++ [ Console (ErrorProcessingBatch (batch_after k)
                           (Rejected "ECONNRESET"));
                Console (LastSuccessfulOffset (offset_after k 0));
                Console UseThisOffset ]
    ∧ (forall z : Z,
         of_Z 0 = z -> 0 <= z ->
         z + BATCH_SIZE * Z.of_nat k < 2 ^ 53 ->
         batch_after k = (1 + Z.of_nat k)
         ∧ offset_after k 0 = (z + BATCH_SIZE * Z.of_nat k))
    ∧ exists w0 stk wk,
        loop cut k (start 0) w0 = (Looping stk, wk)
        ∧ offset stk = offset_after k 0
        ∧ turn cut stk wk
          = (Threw (Rejected "ECONNRESET"), snd (analyze cut 5 0 fresh)).
Proof.
  apply (failure_names_the_batch cut 5 0 fresh (snd (analyze cut 5 0 fresh))
           (Rejected "ECONNRESET")).
  vm_compute. reflexivity.
Defined.


(** [resume_is_seamless] on the run over [library] stopped after one turn. *)
Lemma resume_witness :
  offset library_state = page_offset 1
  ∧ (BATCH_SIZE * Z.of_nat 1 < 2 ^ 53 ->
     offset library_state = (BATCH_SIZE * Z.of_nat 1))
  ∧ same_end (analyze library (1 + 5) 0 fresh).1
      (analyze library 5 (offset library_state) (restart library_cut)).1
  ∧ alike (analyze library (1 + 5) 0 fresh).2
      (analyze library 5 (offset library_state) (restart library_cut)).2.
Proof.
  apply (resume_is_seamless library 1 5 [] fresh library_cut library_state).
  - exact demo_one_line.
  - exact demo_parse_stringify.
  - reflexivity.
  - reflexivity.
  - vm_compute. reflexivity.
Defined.

(** [unreadable_record_ends_the_run] on the page whose second record has
    no value. *)
Lemma unreadable_record_witness :
  exists w',
    turn blank (start 0) fresh = (Threw TypeError, w')
    ∧ loop blank 1 (start 0) fresh = (Finished (Threw TypeError), w')
    ∧ trace w' =
        trace fresh
        ++ [ Console (ProcessingBatch 1 0); Fetch 0;
             Console (ErrorProcessingBatch 1 TypeError);
             Console (LastSuccessfulOffset 0);
             Console UseThisOffset ]
    ∧ fetches w' = 1%nat
    ∧ file w' = None ∧ processedIds w' = ∅
    ∧ creates w' = 0%nat ∧ appends w' = 0%nat.
Proof.
  exact (unreadable_record_ends_the_run blank 0 (start 0) fresh
           {| ok := true; status := 200;
              json := Ok (raw_page [Some recA; None]) |}
           (raw_page [Some recA; None])
           eq_refl eq_refl eq_refl eq_refl eq_refl).
Defined.

(** [reply_without_length_spoils_the_total] on the classifier that
    answers with an object. *)
Lemma spoiled_total_witness :
  exists st' w',
    turn curt (start 0) fresh = (Ok (Continue st'), w')
    ∧ totalFlagged st' = Total.sum NaN
    ∧ file w' = None ∧ appends w' = 0%nat ∧ processedIds w' = ∅
    ∧ forall results,
        Total.add (totalFlagged st')
          (Flagged.length (Flagged.Array results))
        = Total.sum NaN.
Proof.
  exact (reply_without_length_spoils_the_total curt (start 0) fresh
           (snd (getContractsWithRetry curt 0 0
                   (emit (Console (ProcessingBatch 1 0)) fresh)))
           (snd (analyzeContractsWithGPT curt [recA] 0
                   (snd (getContractsWithRetry curt 0 0
                           (emit (Console (ProcessingBatch 1 0)) fresh)))))
           (page [recA]) [recA] 0
           ltac:(vm_compute; reflexivity) eq_refl eq_refl
           ltac:(vm_compute; discriminate)
           ltac:(vm_compute; reflexivity) eq_refl).
Defined.

(** [threshold_on_plain_amounts] on a value one cent under the threshold. *)
Lemma threshold_witness : isHighValue recL = (50000 <=? 49999).
Proof.
  exact (proj2 (threshold_on_plain_amounts recL
                  (Decimal.D4 (Decimal.D9 (Decimal.D9 (Decimal.D9
                     (Decimal.D9 Decimal.Nil)))))
                  (Decimal.D9 (Decimal.D9 Decimal.Nil))
                  ltac:(discriminate) (or_introl eq_refl))
           ltac:(simpl; lia)).
Defined.

(** [minus_first_is_never_selected] on a value written with a minus sign. *)
Lemma minus_first_witness : isHighValue refund = false.
Proof.
  exact (minus_first_is_never_selected refund "60000.00" eq_refl).
Defined.

End OnScenarios.
